(** * temporal-htn: the HTN entity algebra and its lowering to chronicles

    A shallow embedding of [temporal_htn/htn.py] and
    [temporal_htn/lcp_converter.py].  Python objects become Rocq values,
    raised exceptions become the [Raise] branch of [result], the mutable
    registries of [ChroniclesProblem] become an explicit state, and the
    external chronicle builder becomes the log of the calls it received. *)

From Stdlib Require Import ZArith List String Ascii Bool Lia DecimalString.
From Stdlib Require Import Floats.SpecFloat.
From Stdlib Require DecimalZ.
From stdpp Require Import base decidable option list strings gmap.

Open Scope Z_scope.

(** ** Exceptions *)

(** The exception classes that the two modules raise or let escape. *)
Inductive PyError : Type :=
  | TypeError
  | ValueError
  | OverflowError
  | NotImplementedError
  | RuntimeError
  | ConstraintArgumentError
  | UncreatedContextError
  | UncreatedSymbolTableError
  | UnregisteredSymbolError (symbol_name : string)
  | BuilderError.

(** A computation either returns a value or raises. *)
Inductive result (A : Type) : Type :=
  | Ok (a : A)
  | Raise (e : PyError).
Arguments Ok {A} a.
Arguments Raise {A} e.

Definition rbind {A B : Type} (m : result A) (k : A -> result B) : result B :=
  match m with
  | Ok a => k a
  | Raise e => Raise e
  end.

#[global] Instance result_bind : MBind result := fun A B k m => rbind m k.
#[global] Instance result_ret : MRet result := fun A a => Ok a.

(** [[f(x) for x in xs]]: the first raising element aborts the comprehension. *)
Fixpoint rmap {A B : Type} (f : A -> result B) (xs : list A) : result (list B) :=
  match xs with
  | [] => Ok []
  | x :: rest =>
      y ← f x;
      ys ← rmap f rest;
      Ok (y :: ys)
  end.

(** ** Python floats (IEEE 754 binary64) *)

Module PyFloat.

Definition prec : Z := 53.
Definition emax : Z := 1024.

Definition float : Type := spec_float.

(** The nearest binary64 to an integer (round half to even). *)
Definition of_Z (z : Z) : float := binary_normalize prec emax z 0 false.

Definition add : float -> float -> float := SFadd prec emax.
Definition mul : float -> float -> float := SFmul prec emax.
Definition div : float -> float -> float := SFdiv prec emax.
Definition neg : float -> float := SFopp.

(** [x == y] on floats: a NaN equals nothing, the two zeros are equal. *)
Definition eqb : float -> float -> bool := SFeqb.

Definition is_infinity (x : float) : bool :=
  match x with
  | S754_infinity _ => true
  | _ => false
  end.

(** [float(z)] for an [int]: raises [OverflowError] past the binary64 range. *)
Definition of_int (z : Z) : result float :=
  let f := of_Z z in
  if is_infinity f then Raise OverflowError else Ok f.

(** [int(x)]: truncation towards zero; raises on NaN and on infinities. *)
Definition to_int (x : float) : result Z :=
  match x with
  | S754_zero _ => Ok 0
  | S754_infinity _ => Raise OverflowError
  | S754_nan => Raise ValueError
  | S754_finite s m e =>
      let n := Z.shiftl (Zpos m) e in
      Ok (if s then - n else n)
  end.

Definition zero : float := S754_zero false.

End PyFloat.

Abbreviation float := PyFloat.float.

#[global] Instance spec_float_eq_dec : EqDecision spec_float.
Proof. solve_decision. Defined.

(** [HTN_TIME_SCALE = 10] and [HTN_EPSILON = 1 / HTN_TIME_SCALE]. *)
Definition HTN_TIME_SCALE : Z := 10.
Definition HTN_EPSILON : float :=
  PyFloat.div (PyFloat.of_Z 1) (PyFloat.of_Z HTN_TIME_SCALE).

(** A number passed where the source calls [float(other)]. *)
Inductive PyNum : Type :=
  | NInt (z : Z)
  | NFloat (f : float).

(** [float(n)] *)
Definition to_float (n : PyNum) : result float :=
  match n with
  | NInt z => PyFloat.of_int z
  | NFloat f => Ok f
  end.

(** [a + b] on Python numbers: exact on two ints, binary64 otherwise. *)
Definition num_add (a b : PyNum) : result PyNum :=
  match a, b with
  | NInt x, NInt y => Ok (NInt (x + y))
  | _, _ =>
      fa ← to_float a;
      fb ← to_float b;
      Ok (NFloat (PyFloat.add fa fb))
  end.

(** [-n] *)
Definition num_neg (n : PyNum) : PyNum :=
  match n with
  | NInt z => NInt (- z)
  | NFloat f => NFloat (PyFloat.neg f)
  end.

(** ** Field values: [str | int | bool] *)

Inductive PyValue : Type :=
  | VStr (s : string)
  | VInt (z : Z)
  | VBool (b : bool).

#[global] Instance PyValue_eq_dec : EqDecision PyValue.
Proof. solve_decision. Defined.

(** [a == b] on these values: [bool] is a subclass of [int], so [True == 1]. *)
Definition value_eq (a b : PyValue) : bool :=
  match a, b with
  | VStr s, VStr t => String.eqb s t
  | VStr _, _ | _, VStr _ => false
  | VInt x, VInt y => Z.eqb x y
  | VInt x, VBool c => Z.eqb x (Z.b2z c)
  | VBool c, VInt y => Z.eqb (Z.b2z c) y
  | VBool c, VBool d => Bool.eqb c d
  end.

Definition string_of_Z (z : Z) : string := NilZero.string_of_int (Z.to_int z).

(** [f"{v}"] *)
Definition value_str (v : PyValue) : string :=
  match v with
  | VStr s => s
  | VInt z => string_of_Z z
  | VBool true => "True"
  | VBool false => "False"
  end.

(** ** HtnType *)

#[warnings="-register-all"]
Inductive HtnType : Type :=
  | mkHtnType (name : string) (parent : option HtnType).

Definition type_name (t : HtnType) : string :=
  match t with mkHtnType n _ => n end.

Definition type_parent (t : HtnType) : option HtnType :=
  match t with mkHtnType _ p => p end.

(** [HtnType.__eq__]: same name and equal parents, up the whole chain. *)
Fixpoint type_eq (t u : HtnType) : bool :=
  match t, u with
  | mkHtnType n p, mkHtnType m q =>
      if negb (String.eqb n m) then false
      else match p, q with
           | None, None => true
           | Some p', Some q' => type_eq p' q'
           | _, _ => false
           end
  end.

Definition HTN_TIMEPOINT : HtnType := mkHtnType "__timepoint__" None.
Definition HTN_BOOLEAN : HtnType := mkHtnType "__boolean__" None.
Definition HTN_INTEGER : HtnType := mkHtnType "__integer__" None.

(** ** Typed objects *)

(** The concrete classes below [HtnTypedObject] that carry no delay ... *)
Inductive PlainClass : Type :=
  | KTypedObject
  | KVariable
  | KConstant.

(** ... and those that do. *)
Inductive TimepointClass : Type :=
  | KTimepoint
  | KVariableTimepoint
  | KConstantTimepoint.

Record HtnTimepoint : Type := mkTimepoint {
  tp_class : TimepointClass;
  tp_value : PyValue;
  tp_tpe : HtnType;
  tp_delay : float
}.

Inductive HtnTypedObject : Type :=
  | Plain (k : PlainClass) (value : PyValue) (tpe : HtnType)
  | TP (p : HtnTimepoint).

Definition HtnVariable (v : PyValue) (t : HtnType) : HtnTypedObject :=
  Plain KVariable v t.
Definition HtnConstant (v : PyValue) (t : HtnType) : HtnTypedObject :=
  Plain KConstant v t.
(** [HtnVariableTimepoint(v)]: [tpe] and [delay] take their defaults. *)
Definition HtnVariableTimepoint (v : string) : HtnTimepoint :=
  mkTimepoint KVariableTimepoint (VStr v) HTN_TIMEPOINT PyFloat.zero.
Definition HtnConstantTimepoint (v : Z) : HtnTimepoint :=
  mkTimepoint KConstantTimepoint (VInt v) HTN_TIMEPOINT PyFloat.zero.

Definition HTN_TRUE : HtnTypedObject := HtnConstant (VBool true) HTN_BOOLEAN.
Definition HTN_FALSE : HtnTypedObject := HtnConstant (VBool false) HTN_BOOLEAN.

Definition obj_value (o : HtnTypedObject) : PyValue :=
  match o with
  | Plain _ v _ => v
  | TP p => tp_value p
  end.

Definition obj_tpe (o : HtnTypedObject) : HtnType :=
  match o with
  | Plain _ _ t => t
  | TP p => tp_tpe p
  end.

(** [isinstance(o, HtnConstant)], [isinstance(o, HtnVariable)],
    [isinstance(o, HtnTimepoint)] *)
Definition is_constant (o : HtnTypedObject) : bool :=
  match o with
  | Plain KConstant _ _ => true
  | TP p => match tp_class p with KConstantTimepoint => true | _ => false end
  | _ => false
  end.

Definition is_variable (o : HtnTypedObject) : bool :=
  match o with
  | Plain KVariable _ _ => true
  | TP p => match tp_class p with KVariableTimepoint => true | _ => false end
  | _ => false
  end.

Definition is_timepoint (o : HtnTypedObject) : bool :=
  match o with
  | TP _ => true
  | Plain _ _ _ => false
  end.

(** The six classes, for method resolution. *)
Inductive PyClass : Type :=
  | CTypedObject | CVariable | CConstant
  | CTimepoint | CVariableTimepoint | CConstantTimepoint.

Definition class_of (o : HtnTypedObject) : PyClass :=
  match o with
  | Plain KTypedObject _ _ => CTypedObject
  | Plain KVariable _ _ => CVariable
  | Plain KConstant _ _ => CConstant
  | TP p =>
      match tp_class p with
      | KTimepoint => CTimepoint
      | KVariableTimepoint => CVariableTimepoint
      | KConstantTimepoint => CConstantTimepoint
      end
  end.

Definition class_eqb (c d : PyClass) : bool :=
  match c, d with
  | CTypedObject, CTypedObject | CVariable, CVariable | CConstant, CConstant
  | CTimepoint, CTimepoint | CVariableTimepoint, CVariableTimepoint
  | CConstantTimepoint, CConstantTimepoint => true
  | _, _ => false
  end.

(** [c] is a proper subclass of [d]:
    [HtnVariableTimepoint(HtnTimepoint, HtnVariable)],
    [HtnConstantTimepoint(HtnTimepoint, HtnConstant)]. *)
Definition strict_subclass (c d : PyClass) : bool :=
  match c, d with
  | CVariable, CTypedObject | CConstant, CTypedObject
  | CTimepoint, CTypedObject
  | CVariableTimepoint, CTypedObject | CConstantTimepoint, CTypedObject
  | CVariableTimepoint, CTimepoint | CConstantTimepoint, CTimepoint
  | CVariableTimepoint, CVariable
  | CConstantTimepoint, CConstant => true
  | _, _ => false
  end.

(** [HtnTypedObject.__eq__]; [HtnVariable.__eq__] and [HtnConstant.__eq__]
    only forward to it. *)
Definition typed_object_eq (self o : HtnTypedObject) : bool :=
  if negb (value_eq (obj_value o) (obj_value self)) then false
  else if negb (type_eq (obj_tpe o) (obj_tpe self)) then false
  else true.

(** [HtnTimepoint.__eq__] *)
Definition timepoint_eq (self : HtnTimepoint) (o : HtnTypedObject) : bool :=
  if negb (typed_object_eq (TP self) o) then false
  else match o with
       | Plain _ _ _ => false
       | TP q => PyFloat.eqb (tp_delay q) (tp_delay self)
       end.

(** The [__eq__] that [@dataclass(frozen=True)] writes for a class whose body
    has none, here [HtnVariableTimepoint] and [HtnConstantTimepoint]: the
    field tuples are compared when both operands have exactly this class,
    and the method answers [NotImplemented] ([None]) otherwise. *)
Definition dataclass_timepoint_eq (self : HtnTimepoint) (o : HtnTypedObject)
  : option bool :=
  match o with
  | TP q =>
      if class_eqb (class_of (TP self)) (class_of o)
      then Some (value_eq (tp_value self) (tp_value q)
                 && type_eq (tp_tpe self) (tp_tpe q)
                 && PyFloat.eqb (tp_delay self) (tp_delay q))
      else None
  | Plain _ _ _ => None
  end.

(** The [__eq__] found on the class of [self]. *)
Definition eq_method (self o : HtnTypedObject) : option bool :=
  match self with
  | Plain _ _ _ => Some (typed_object_eq self o)
  | TP p =>
      match tp_class p with
      | KTimepoint => Some (timepoint_eq p o)
      | KVariableTimepoint | KConstantTimepoint => dataclass_timepoint_eq p o
      end
  end.

#[global] Instance PlainClass_eq_dec : EqDecision PlainClass.
Proof. solve_decision. Defined.
#[global] Instance TimepointClass_eq_dec : EqDecision TimepointClass.
Proof. solve_decision. Defined.

#[global] Instance HtnType_eq_dec : EqDecision HtnType.
Proof.
  refine (fix go (t u : HtnType) : Decision (t = u) :=
    match t, u with
    | mkHtnType n p, mkHtnType m q =>
        match decide (n = m) with
        | right ne => right _
        | left en =>
            match p, q with
            | None, None => left _
            | Some p', Some q' =>
                match go p' q' with
                | left e => left _
                | right ne => right _
                end
            | _, _ => right _
            end
        end
    end); congruence.
Defined.

#[global] Instance HtnTimepoint_eq_dec : EqDecision HtnTimepoint.
Proof. solve_decision. Defined.
#[global] Instance HtnTypedObject_eq_dec : EqDecision HtnTypedObject.
Proof. solve_decision. Defined.

(** [x == y] as the interpreter evaluates it: the reflected method of a
    proper subclass is tried first, a [NotImplemented] answer passes the
    question to the other operand, and identity decides when both decline. *)
Definition py_eq (x y : HtnTypedObject) : bool :=
  let forward := eq_method x y in
  let reflected := eq_method y x in
  let identity := bool_decide (x = y) in
  if strict_subclass (class_of y) (class_of x) then
    match reflected with
    | Some b => b
    | None => match forward with Some b => b | None => identity end
    end
  else
    match forward with
    | Some b => b
    | None => match reflected with Some b => b | None => identity end
    end.

(** ** Symbols, labels, intervals *)

Inductive SymbolClass : Type :=
  | KSymbol
  | KStateVariableSymbol
  | KTaskSymbol
  | KPrimitiveTaskSymbol
  | KCompoundTaskSymbol
  | KMethodSymbol.

Record HtnSymbol : Type := mkSymbol {
  sym_class : SymbolClass;
  sym_name : string
}.

(** [HtnSymbol.__eq__], inherited by every symbol class ([eq=False]). *)
Definition symbol_eq (self o : HtnSymbol) : bool :=
  String.eqb (sym_name self) (sym_name o).

Record HtnLabel : Type := mkLabel { lab_value : string }.

(** The generated [__eq__] of [HtnLabel]. *)
Definition label_eq (self o : HtnLabel) : bool :=
  String.eqb (lab_value self) (lab_value o).

(** [a == b] for two [HtnLabel | None]. *)
Definition opt_label_eq (a b : option HtnLabel) : bool :=
  match a, b with
  | None, None => true
  | Some x, Some y => label_eq x y
  | _, _ => false
  end.

Record HtnTemporalInterval : Type := mkInterval {
  iv_start : HtnTimepoint;
  iv_end : HtnTimepoint
}.

(** [HtnTimepoint.__add__]: [float(other)] is added to the delay, the class,
    value and type are kept. *)
Definition timepoint_add (self : HtnTimepoint) (other : PyNum)
  : result HtnTimepoint :=
  other ← to_float other;
  Ok (mkTimepoint (tp_class self) (tp_value self) (tp_tpe self)
        (PyFloat.add (tp_delay self) other)).

(** [HtnTimepoint.__sub__]: [self + (-other)] *)
Definition timepoint_sub (self : HtnTimepoint) (other : PyNum)
  : result HtnTimepoint :=
  timepoint_add self (num_neg other).

(** [HtnTemporalInterval.__add__] and [__sub__] *)
Definition interval_add (self : HtnTemporalInterval) (other : PyNum)
  : result HtnTemporalInterval :=
  s ← timepoint_add (iv_start self) other;
  e ← timepoint_add (iv_end self) other;
  Ok (mkInterval s e).

Definition interval_sub (self : HtnTemporalInterval) (other : PyNum)
  : result HtnTemporalInterval :=
  s ← timepoint_sub (iv_start self) other;
  e ← timepoint_sub (iv_end self) other;
  Ok (mkInterval s e).

(** [HtnTemporalInterval.__eq__] *)
Definition interval_eq (self o : HtnTemporalInterval) : bool :=
  if negb (py_eq (TP (iv_start o)) (TP (iv_start self))) then false
  else py_eq (TP (iv_end o)) (TP (iv_end self)).

(** [xs == ys] on two tuples whose elements were built separately. *)
Fixpoint tuple_eq {A : Type} (eq : A -> A -> bool) (xs ys : list A) : bool :=
  match xs, ys with
  | [], [] => true
  | x :: xs', y :: ys' => eq x y && tuple_eq eq xs' ys'
  | _, _ => false
  end.

(** ** Parametric symbols, state variables, conditions, effects *)

Record HtnParametricSymbol : Type := mkParametricSymbol {
  ps_symbol : HtnSymbol;
  ps_params : list HtnTypedObject
}.

(** The body of [HtnParametricSymbol.__eq__], on the two fields it reads:
    every parameter of [self] looks for an equal parameter of the other. *)
Definition parametric_eq (symbol : HtnSymbol) (params : list HtnTypedObject)
    (o_symbol : HtnSymbol) (o_params : list HtnTypedObject) : bool :=
  if negb (symbol_eq symbol o_symbol) then false
  else if negb (Nat.eqb (List.length params) (List.length o_params)) then false
  else forallb (fun param => existsb (fun o_param => py_eq param o_param) o_params)
               params.

(** [HtnParametricSymbol.__eq__] on two instances of the class itself. *)
Definition parametric_symbol_eq (self o : HtnParametricSymbol) : bool :=
  parametric_eq (ps_symbol self) (ps_params self) (ps_symbol o) (ps_params o).

Record HtnStateVariable : Type := mkStateVariable {
  sv_symbol : HtnSymbol;
  sv_params : list HtnTypedObject;
  sv_tpe : HtnType
}.

(** [HtnStateVariable] has no [__eq__] in its body: the decorator writes one
    that compares [(symbol, params, tpe)]. *)
Definition state_variable_eq (self o : HtnStateVariable) : bool :=
  symbol_eq (sv_symbol self) (sv_symbol o)
  && tuple_eq py_eq (sv_params self) (sv_params o)
  && type_eq (sv_tpe self) (sv_tpe o).

Record HtnCondition : Type := mkCondition {
  cond_sv : HtnStateVariable;
  cond_value : HtnTypedObject;
  cond_interval : HtnTemporalInterval
}.

Record HtnEffect : Type := mkEffect {
  eff_sv : HtnStateVariable;
  eff_value : HtnTypedObject;
  eff_interval : HtnTemporalInterval
}.

Definition condition_eq (self o : HtnCondition) : bool :=
  state_variable_eq (cond_sv self) (cond_sv o)
  && py_eq (cond_value self) (cond_value o)
  && interval_eq (cond_interval self) (cond_interval o).

Definition effect_eq (self o : HtnEffect) : bool :=
  state_variable_eq (eff_sv self) (eff_sv o)
  && py_eq (eff_value self) (eff_value o)
  && interval_eq (eff_interval self) (eff_interval o).

(** [HtnEffectFactory.dirac] *)
Definition dirac (sv : HtnStateVariable) (value : HtnTypedObject)
    (interval : HtnTemporalInterval) : result (HtnEffect * HtnEffect) :=
  if negb (type_eq (sv_tpe sv) HTN_BOOLEAN) then Raise TypeError
  else
    let opposition_value := if py_eq value HTN_FALSE then HTN_TRUE else HTN_FALSE in
    shifted ← interval_sub interval (NFloat HTN_EPSILON);
    Ok (mkEffect sv value shifted, mkEffect sv opposition_value interval).

(** ** Constraints *)

Inductive HtnConstraint : Type :=
  | Constraint (left right : HtnTypedObject) (relation : string)
  | TemporalConstraint (left right : HtnTimepoint) (relation : string)
      (left_label right_label : option HtnLabel).

(** The generated [__eq__] of the two constraint classes: instances of
    different classes are never equal. *)
Definition constraint_eq (self o : HtnConstraint) : bool :=
  match self, o with
  | Constraint l r rel, Constraint l' r' rel' =>
      py_eq l l' && py_eq r r' && String.eqb rel rel'
  | TemporalConstraint l r rel ll rl, TemporalConstraint l' r' rel' ll' rl' =>
      py_eq (TP l) (TP l') && py_eq (TP r) (TP r') && String.eqb rel rel'
      && opt_label_eq ll ll' && opt_label_eq rl rl'
  | _, _ => false
  end.

Module HtnConstraintFactory.

(** [_make] *)
Definition _make (left right : HtnTypedObject) (relation : string)
    (lab_left lab_right : option HtnLabel) : result HtnConstraint :=
  match left with
  | TP l =>
      match right with
      | TP r => Ok (TemporalConstraint l r relation lab_left lab_right)
      | Plain _ _ _ => Raise ConstraintArgumentError
      end
  | Plain _ _ _ =>
      match right with
      | TP _ => Raise ConstraintArgumentError
      | Plain _ _ _ =>
          match lab_left, lab_right with
          | Some _, _ => Raise ConstraintArgumentError
          | None, Some _ => Raise ConstraintArgumentError
          | None, None => Ok (Constraint left right relation)
          end
      end
  end.

Definition eq := fun l r ll lr => _make l r "==" ll lr.
Definition ge := fun l r ll lr => _make l r ">=" ll lr.

(** [min_duration], on the interval of the task it is given *)
Definition min_duration (interval : HtnTemporalInterval) (duration : PyNum)
    (label : option HtnLabel) : result HtnConstraint :=
  shifted ← timepoint_add (iv_start interval) duration;
  ge (TP (iv_end interval)) (TP shifted) label label.

Definition min_duration_eps (interval : HtnTemporalInterval)
    (label : option HtnLabel) : result HtnConstraint :=
  min_duration interval (NFloat HTN_EPSILON) label.

(** [duration] and [duration_eps] *)
Definition duration (interval : HtnTemporalInterval) (duration : PyNum)
    (label : option HtnLabel) : result HtnConstraint :=
  shifted ← timepoint_add (iv_start interval) duration;
  eq (TP (iv_end interval)) (TP shifted) label label.

Definition duration_eps (interval : HtnTemporalInterval)
    (label : option HtnLabel) : result HtnConstraint :=
  duration interval (NFloat HTN_EPSILON) label.

End HtnConstraintFactory.

(** ** Tasks, task networks, methods *)

Record HtnPrimitiveTask : Type := mkPrimitiveTask {
  pt_symbol : HtnSymbol;
  pt_params : list HtnTypedObject;
  pt_interval : HtnTemporalInterval;
  pt_constraints : list HtnConstraint;
  pt_conditions : list HtnCondition;
  pt_effects : list HtnEffect
}.

Record HtnCompoundTask : Type := mkCompoundTask {
  ct_symbol : HtnSymbol;
  ct_params : list HtnTypedObject;
  ct_interval : HtnTemporalInterval
}.

Inductive HtnTask : Type :=
  | Primitive (p : HtnPrimitiveTask)
  | Compound (c : HtnCompoundTask).

Definition task_symbol (t : HtnTask) : HtnSymbol :=
  match t with
  | Primitive p => pt_symbol p
  | Compound c => ct_symbol c
  end.

Definition task_params (t : HtnTask) : list HtnTypedObject :=
  match t with
  | Primitive p => pt_params p
  | Compound c => ct_params c
  end.

Definition task_interval (t : HtnTask) : HtnTemporalInterval :=
  match t with
  | Primitive p => pt_interval p
  | Compound c => ct_interval c
  end.

(** [HtnTask.__eq__], reached through [super().__eq__] from both subclasses *)
Definition task_base_eq (self o : HtnTask) : bool :=
  if negb (parametric_eq (task_symbol self) (task_params self)
                         (task_symbol o) (task_params o)) then false
  else if negb (symbol_eq (task_symbol self) (task_symbol o)) then false
  else if negb (interval_eq (task_interval self) (task_interval o)) then false
  else true.

(** [HtnPrimitiveTask.__eq__] and [HtnCompoundTask.__eq__] *)
Definition primitive_task_eq (self : HtnPrimitiveTask) (o : HtnTask) : bool :=
  if negb (task_base_eq (Primitive self) o) then false
  else match o with
       | Compound _ => false
       | Primitive o =>
           if negb (tuple_eq constraint_eq (pt_constraints self) (pt_constraints o))
           then false
           else if negb (tuple_eq condition_eq (pt_conditions self) (pt_conditions o))
           then false
           else if negb (tuple_eq effect_eq (pt_effects self) (pt_effects o))
           then false
           else true
       end.

Definition compound_task_eq (self : HtnCompoundTask) (o : HtnTask) : bool :=
  if negb (task_base_eq (Compound self) o) then false
  else match o with
       | Primitive _ => false
       | Compound _ => true
       end.

(** [x == y] on tasks: neither class derives from the other, the left
    operand's method answers. *)
Definition task_eq (x y : HtnTask) : bool :=
  match x with
  | Primitive p => primitive_task_eq p y
  | Compound c => compound_task_eq c y
  end.

Record HtnLabelMappingPair : Type := mkLabelMappingPair {
  lmp_label : HtnLabel;
  lmp_task : HtnTask
}.

Record HtnTaskNetwork : Type := mkTaskNetwork {
  label_mapping : list HtnLabelMappingPair;
  tn_constraints : list HtnConstraint
}.

Record HtnMethod : Type := mkMethod {
  m_task : HtnCompoundTask;
  m_task_network : HtnTaskNetwork;
  m_constraints : list HtnConstraint;
  m_conditions : list HtnCondition;
  m_symbol : HtnSymbol
}.

(** [HtnTaskNetwork.tasks] *)
Definition tn_tasks (tn : HtnTaskNetwork) : list HtnTask :=
  map lmp_task (label_mapping tn).

Definition label_mapping_pair_eq (self o : HtnLabelMappingPair) : bool :=
  label_eq (lmp_label self) (lmp_label o) && task_eq (lmp_task self) (lmp_task o).

Definition task_network_eq (self o : HtnTaskNetwork) : bool :=
  tuple_eq label_mapping_pair_eq (label_mapping self) (label_mapping o)
  && tuple_eq constraint_eq (tn_constraints self) (tn_constraints o).

(** The generated [__eq__] of [HtnMethod] *)
Definition method_eq (self o : HtnMethod) : bool :=
  compound_task_eq (m_task self) (Compound (m_task o))
  && task_network_eq (m_task_network self) (m_task_network o)
  && tuple_eq constraint_eq (m_constraints self) (m_constraints o)
  && tuple_eq condition_eq (m_conditions self) (m_conditions o)
  && symbol_eq (m_symbol self) (m_symbol o).

#[global] Instance SymbolClass_eq_dec : EqDecision SymbolClass.
Proof. solve_decision. Defined.
#[global] Instance HtnSymbol_eq_dec : EqDecision HtnSymbol.
Proof. solve_decision. Defined.
#[global] Instance HtnLabel_eq_dec : EqDecision HtnLabel.
Proof. solve_decision. Defined.
#[global] Instance HtnTemporalInterval_eq_dec : EqDecision HtnTemporalInterval.
Proof. solve_decision. Defined.
#[global] Instance HtnStateVariable_eq_dec : EqDecision HtnStateVariable.
Proof. solve_decision. Defined.
#[global] Instance HtnCondition_eq_dec : EqDecision HtnCondition.
Proof. solve_decision. Defined.
#[global] Instance HtnEffect_eq_dec : EqDecision HtnEffect.
Proof. solve_decision. Defined.
#[global] Instance HtnConstraint_eq_dec : EqDecision HtnConstraint.
Proof. solve_decision. Defined.
#[global] Instance HtnPrimitiveTask_eq_dec : EqDecision HtnPrimitiveTask.
Proof. solve_decision. Defined.
#[global] Instance HtnCompoundTask_eq_dec : EqDecision HtnCompoundTask.
Proof. solve_decision. Defined.
#[global] Instance HtnTask_eq_dec : EqDecision HtnTask.
Proof. solve_decision. Defined.
#[global] Instance HtnLabelMappingPair_eq_dec : EqDecision HtnLabelMappingPair.
Proof. solve_decision. Defined.
#[global] Instance HtnTaskNetwork_eq_dec : EqDecision HtnTaskNetwork.
Proof. solve_decision. Defined.
#[global] Instance HtnMethod_eq_dec : EqDecision HtnMethod.
Proof. solve_decision. Defined.

(** ** Further definitions of [htn.py] *)

(** The names of a type and of its ancestors, from the type to the root *)
Fixpoint type_chain (t : HtnType) : list string :=
  match t with
  | mkHtnType n None => [n]
  | mkHtnType n (Some p) => n :: type_chain p
  end.

(** A type and its ancestors, from the type to the root *)
Fixpoint type_ancestry (t : HtnType) : list HtnType :=
  match t with
  | mkHtnType n None => [t]
  | mkHtnType n (Some p) => t :: type_ancestry p
  end.

(** [HtnTemporalIntervalFactory]: the class attribute [counter] is read and
    written by every call, so it is passed in and handed back. *)
Module HtnTemporalIntervalFactory.

(** [_make]: two [HtnTimepoint], named after the counter *)
Definition _make (start_id end_id : string) (counter : Z)
  : HtnTemporalInterval * Z :=
  let start := "__" +:+ start_id +:+ "__" +:+ string_of_Z counter in
  let counter := counter + 1 in
  let end_ := "__" +:+ end_id +:+ "__" +:+ string_of_Z counter in
  let counter := counter + 1 in
  (mkInterval
     (mkTimepoint KTimepoint (VStr start) HTN_TIMEPOINT PyFloat.zero)
     (mkTimepoint KTimepoint (VStr end_) HTN_TIMEPOINT PyFloat.zero),
   counter).

Definition default : Z -> HtnTemporalInterval * Z := _make "d" "d".
Definition at_start : Z -> HtnTemporalInterval * Z := _make "s" "s".
Definition at_end : Z -> HtnTemporalInterval * Z := _make "e" "e".
Definition over_all : Z -> HtnTemporalInterval * Z := _make "s" "e".

End HtnTemporalIntervalFactory.

(** [HtnEffectFactory.dirac_at_start] and [dirac_at_end]: the interval is
    made before [dirac] is entered, so the counter moves even when [dirac]
    raises. *)
Definition dirac_at_start (sv : HtnStateVariable) (value : HtnTypedObject)
    (counter : Z) : result (HtnEffect * HtnEffect) * Z :=
  let '(interval, counter) := HtnTemporalIntervalFactory.at_start counter in
  (dirac sv value interval, counter).

Definition dirac_at_end (sv : HtnStateVariable) (value : HtnTypedObject)
    (counter : Z) : result (HtnEffect * HtnEffect) * Z :=
  let '(interval, counter) := HtnTemporalIntervalFactory.at_end counter in
  (shifted ← interval_add interval (NFloat HTN_EPSILON);
   dirac sv value shifted,
   counter).

(** ** Python sets and membership tests

    A [set] is kept as the list of its elements in insertion order.  A lookup
    compares the probe with the stored elements of equal hash, by identity
    first and by [==] (stored element on the left) next.  Identity is read as
    equality of the modelled values; the two readings part only on a value
    that does not equal itself, a timepoint whose delay is a NaN. *)

Record Key (A : Type) : Type := mkKey {
  key_hash : A -> Z;
  key_eq : A -> A -> bool
}.
Arguments mkKey {A} key_hash key_eq.
Arguments key_hash {A} k x.
Arguments key_eq {A} k x y.

Section PySet.
Context {A : Type} `{EqDecision A} (K : Key A).

Definition key_match (stored probe : A) : bool :=
  Z.eqb (key_hash K stored) (key_hash K probe)
  && (bool_decide (stored = probe) || key_eq K stored probe).

(** [x in s] *)
Definition set_in (x : A) (s : list A) : bool :=
  existsb (fun stored => key_match stored x) s.

(** [s.add(x)] *)
Definition set_add (x : A) (s : list A) : list A :=
  if set_in x s then s else s ++ [x].

(** [s.update(xs)] *)
Definition set_update (xs : list A) (s : list A) : list A :=
  fold_left (fun acc x => set_add x acc) xs s.

(** [set(xs)] and set comprehensions *)
Definition set_of (xs : list A) : list A := set_update xs [].
End PySet.

(** [x in l] for a list [l]: no hashing, identity or [==] on each item. *)
Definition list_contains {A : Type} `{EqDecision A} (eq : A -> A -> bool)
    (x : A) (l : list A) : bool :=
  existsb (fun item => bool_decide (item = x) || eq item x) l.

(** ** HtnEntity: copies of objects in a store

    [copy_with] and [copy_and_extend_with] work on [self.__dict__], whose
    values are references to objects, some of them mutable.  Objects live in
    a store and are named by their address; a field holds an address.  The
    values covered are those of the test suite's [MockHtnEntity]: scalars,
    and tuples, lists, sets and dicts of scalars. *)

Module Entity.

(** Scalars *)
Inductive Atom : Type :=
  | ANone
  | ABool (b : bool)
  | AInt (z : Z)
  | AStr (s : string).

(** Scalars as elements of a set and keys of a dict, where [True] and [1]
    are one element *)
Inductive HashKey : Type :=
  | KNone
  | KInt (z : Z)
  | KStr (s : string).

Definition key_of (a : Atom) : HashKey :=
  match a with
  | ANone => KNone
  | ABool b => KInt (Z.b2z b)
  | AInt z => KInt z
  | AStr s => KStr s
  end.

Definition atom_of (k : HashKey) : Atom :=
  match k with
  | KNone => ANone
  | KInt z => AInt z
  | KStr s => AStr s
  end.

#[global] Instance Atom_eq_dec : EqDecision Atom.
Proof. solve_decision. Defined.
#[global] Instance HashKey_eq_dec : EqDecision HashKey.
Proof. solve_decision. Defined.
#[global] Instance HashKey_countable : Countable HashKey.
Proof.
  refine (inj_countable'
            (fun k => match k with
                      | KNone => inl ()
                      | KInt z => inr (inl z)
                      | KStr s => inr (inr s)
                      end)
            (fun x => match x with
                      | inl _ => KNone
                      | inr (inl z) => KInt z
                      | inr (inr s) => KStr s
                      end) _).
  by intros [].
Defined.

(** [a == b] on scalars *)
Definition atom_eq (a b : Atom) : bool := bool_decide (key_of a = key_of b).

Inductive PyObj : Type :=
  | OAtom (a : Atom)
  | OTuple (items : list Atom)
  | OList (items : list Atom)
  | OSet (items : gset HashKey)
  | ODict (items : gmap HashKey Atom).

(** [a == b] on these objects *)
Definition obj_eq (a b : PyObj) : bool :=
  match a, b with
  | OAtom x, OAtom y => atom_eq x y
  | OTuple xs, OTuple ys => bool_decide (key_of <$> xs = key_of <$> ys)
  | OList xs, OList ys => bool_decide (key_of <$> xs = key_of <$> ys)
  | OSet s, OSet t => bool_decide (s = t)
  | ODict d, ODict e => bool_decide (key_of <$> d = key_of <$> e)
  | _, _ => false
  end.

Abbreviation loc := nat.

(** The store: the object at address [l] is the [l]-th one allocated. *)
Abbreviation Store := (list PyObj).

Definition alloc (o : PyObj) (σ : Store) : loc * Store :=
  (List.length σ, σ ++ [o]).

(** An instance of a dataclass: its class and its [__dict__] *)
Record Instance : Type := mkInstance {
  inst_class : string;
  inst_dict : list (string * loc)
}.

(** [d[k]] and [d[k] = v] on a dict with string keys, in insertion order *)
Fixpoint dict_get (k : string) (d : list (string * loc)) : option loc :=
  match d with
  | [] => None
  | (k', v) :: rest => if String.eqb k' k then Some v else dict_get k rest
  end.

Fixpoint dict_set (k : string) (v : loc) (d : list (string * loc))
  : list (string * loc) :=
  match d with
  | [] => [(k, v)]
  | (k', v') :: rest =>
      if String.eqb k' k then (k', v) :: rest else (k', v') :: dict_set k v rest
  end.

(** [d.update(kwargs)], the keywords taken one by one *)
Definition dict_update (kwargs d : list (string * loc)) : list (string * loc) :=
  fold_left (fun d kv => dict_set kv.1 kv.2 d) kwargs d.

(** The objects that [deepcopy] rebuilds; it returns scalars, and tuples of
    scalars, as they are. *)
Definition is_rebuilt (o : PyObj) : bool :=
  match o with
  | OList _ | OSet _ | ODict _ => true
  | OAtom _ | OTuple _ => false
  end.

(** [deepcopy(x, memo)] for the object at [l]: an object already copied in
    this call is not copied again. *)
Definition deepcopy_ref (l : loc) (memo : gmap loc loc) (σ : Store)
  : loc * gmap loc loc * Store :=
  match σ !! l with
  | Some o =>
      if is_rebuilt o then
        match memo !! l with
        | Some l' => (l', memo, σ)
        | None => (List.length σ, <[l := List.length σ]> memo, σ ++ [o])
        end
      else (l, memo, σ)
  | None => (l, memo, σ)
  end.

Fixpoint deepcopy_items (items : list (string * loc)) (memo : gmap loc loc)
    (σ : Store) : list (string * loc) * Store :=
  match items with
  | [] => ([], σ)
  | (k, l) :: rest =>
      let '(l', memo', σ') := deepcopy_ref l memo σ in
      let '(rest', σ'') := deepcopy_items rest memo' σ' in
      ((k, l') :: rest', σ'')
  end.

(** [__get_attributes]: [deepcopy(self.__dict__)] *)
Definition get_attributes (self : Instance) (σ : Store)
  : list (string * loc) * Store :=
  deepcopy_items (inst_dict self) ∅ σ.

(** The one-character strings of a string *)
Fixpoint chars (s : string) : list Atom :=
  match s with
  | EmptyString => []
  | String c rest => AStr (String c EmptyString) :: chars rest
  end.

(** An element of a sequence given to [dict.update]: a string of two
    characters is a key and a value. *)
Definition pair_of_atom (a : Atom) : result (HashKey * Atom) :=
  match a with
  | AStr (String c1 (String c2 EmptyString)) =>
      Ok (KStr (String c1 EmptyString), AStr (String c2 EmptyString))
  | AStr _ => Raise ValueError
  | _ => Raise TypeError
  end.

(** Later pairs win. *)
Definition pairs_to_map (xs : list Atom) : result (gmap HashKey Atom) :=
  pairs ← rmap pair_of_atom xs;
  Ok (list_to_map (reverse pairs)).

Section Operations.

(** The order in which a set is iterated *)
Variable set_iteration : gset HashKey -> list HashKey.

(** [__post_init__] of the class, on the contents of the fields *)
Variable post_init : string -> list (string * option PyObj) -> result unit.

(** The elements that [s.update(o)] adds *)
Definition set_update_arg (o : PyObj) : result (gset HashKey) :=
  match o with
  | OSet t => Ok t
  | OList xs | OTuple xs => Ok (list_to_set (key_of <$> xs))
  | ODict d => Ok (dom d)
  | OAtom (AStr s) => Ok (list_to_set (key_of <$> chars s))
  | OAtom _ => Raise TypeError
  end.

(** The entries that [d.update(o)] writes *)
Definition dict_update_arg (o : PyObj) : result (gmap HashKey Atom) :=
  match o with
  | ODict e => Ok e
  | OList xs | OTuple xs => pairs_to_map xs
  | OSet t => pairs_to_map (atom_of <$> set_iteration t)
  | OAtom (AStr s) => pairs_to_map (chars s)
  | OAtom _ => Raise TypeError
  end.

(** The constructor call on the keywords [attributes]: every keyword has
    to be a field. *)
Definition construct (self : Instance) (attributes : list (string * loc))
    (σ : Store) : result Instance :=
  if forallb (fun kv => bool_decide (kv.1 ∈ (inst_dict self).*1)) attributes
  then
    post_init (inst_class self) ((fun kv => (kv.1, σ !! kv.2)) <$> attributes);;
    Ok (mkInstance (inst_class self) attributes)
  else Raise TypeError.

(** [copy_with] *)
Definition copy_with (self : Instance) (attrs_to_override : list (string * loc))
    (σ : Store) : Store * result Instance :=
  let '(attributes, σ) := get_attributes self σ in
  let attributes := dict_update attrs_to_override attributes in
  (σ, construct self attributes σ).

(** One turn of the loop of [copy_and_extend_with] *)
Definition extend_one (attr_name : string) (attr_value : loc)
    (attributes : list (string * loc)) (σ : Store)
  : Store * result (list (string * loc)) :=
  match dict_get attr_name attributes with
  | Some current =>
      match σ !! current with
      | Some (OSet s) =>
          match σ !! attr_value with
          | Some given =>
              match set_update_arg given with
              | Ok t => (<[current := OSet (s ∪ t)]> σ, Ok attributes)
              | Raise e => (σ, Raise e)
              end
          | None => (σ, Raise TypeError)
          end
      | Some (ODict d) =>
          match σ !! attr_value with
          | Some given =>
              match dict_update_arg given with
              | Ok e => (<[current := ODict (e ∪ d)]> σ, Ok attributes)
              | Raise e => (σ, Raise e)
              end
          | None => (σ, Raise TypeError)
          end
      | Some (OTuple xs) =>
          match σ !! attr_value with
          | Some (OTuple ys) =>
              let '(l, σ) := alloc (OTuple (xs ++ ys)) σ in
              (σ, Ok (dict_set attr_name l attributes))
          | _ => (σ, Raise TypeError)
          end
      | Some (OList xs) =>
          match σ !! attr_value with
          | Some (OList ys) =>
              let '(l, σ) := alloc (OList (xs ++ ys)) σ in
              (σ, Ok (dict_set attr_name l attributes))
          | _ => (σ, Raise TypeError)
          end
      | _ => (σ, Ok (dict_set attr_name attr_value attributes))
      end
  | None => (σ, Ok (dict_set attr_name attr_value attributes))
  end.

Fixpoint extend (attrs_to_extend attributes : list (string * loc)) (σ : Store)
  : Store * result (list (string * loc)) :=
  match attrs_to_extend with
  | [] => (σ, Ok attributes)
  | (attr_name, attr_value) :: rest =>
      match extend_one attr_name attr_value attributes σ with
      | (σ, Ok attributes) => extend rest attributes σ
      | (σ, Raise e) => (σ, Raise e)
      end
  end.

(** [copy_and_extend_with] *)
Definition copy_and_extend_with (self : Instance)
    (attrs_to_extend : list (string * loc)) (σ : Store)
  : Store * result Instance :=
  let '(attributes, σ) := get_attributes self σ in
  match extend attrs_to_extend attributes σ with
  | (σ, Ok attributes) => (σ, construct self attributes σ)
  | (σ, Raise e) => (σ, Raise e)
  end.

(** The [__eq__] that the decorator writes: same class, and the fields
    equal one by one; a field is equal to itself. *)
Definition ref_eq (σ : Store) (l1 l2 : loc) : bool :=
  Nat.eqb l1 l2
  || match σ !! l1, σ !! l2 with
     | Some o1, Some o2 => obj_eq o1 o2
     | _, _ => false
     end.

Fixpoint fields_eq (σ : Store) (d1 d2 : list (string * loc)) : bool :=
  match d1, d2 with
  | [], [] => true
  | (k1, l1) :: r1, (k2, l2) :: r2 =>
      String.eqb k1 k2 && ref_eq σ l1 l2 && fields_eq σ r1 r2
  | _, _ => false
  end.

Definition entity_eq (σ : Store) (a b : Instance) : bool :=
  String.eqb (inst_class a) (inst_class b)
  && fields_eq σ (inst_dict a) (inst_dict b).

End Operations.

(** What [copy_and_extend_with] makes of a field holding [current] when it
    is given [given]: [result] is the object then held by the copy. *)
Definition extended_with (set_iteration : gset HashKey -> list HashKey)
    (current given result : option PyObj) : Prop :=
  match current with
  | Some (OSet s) =>
      exists g t, given = Some g /\ set_update_arg g = Ok t
                  /\ result = Some (OSet (s ∪ t))
  | Some (ODict d) =>
      exists g e, given = Some g /\ dict_update_arg set_iteration g = Ok e
                  /\ result = Some (ODict (e ∪ d))
  | Some (OTuple xs) =>
      exists ys, given = Some (OTuple ys) /\ result = Some (OTuple (xs ++ ys))
  | Some (OList xs) =>
      exists ys, given = Some (OList ys) /\ result = Some (OList (xs ++ ys))
  | _ => result = given
  end.

(** A set or a dict, the objects that [update] changes in place *)
Definition is_updated_in_place (o : option PyObj) : bool :=
  match o with
  | Some (OSet _) | Some (ODict _) => true
  | _ => false
  end.

(** ** Predicates on stores *)

(** Every reference of the dict is an address of the store. *)
Definition valid_refs (σ : Store) (d : list (string * loc)) : Prop :=
  forall k l, (k, l) ∈ d -> (l < List.length σ)%nat.

(** [σ'] is [σ] with more objects allocated. *)
Definition extends (σ σ' : Store) : Prop := exists more, σ' = σ ++ more.

(** [σ'] has every object of [σ], unchanged, at its address. *)
Definition agrees (σ σ' : Store) : Prop :=
  forall l : loc, (l < List.length σ)%nat -> σ' !! l = σ !! l.

(** The memo of a [deepcopy] that started in [σ0] and has reached [σ]: it
    sends rebuilt objects of [σ0] to their copies, allocated since, and no
    two objects to the same copy. *)
Definition memo_inv (σ0 σ : Store) (memo : gmap loc loc) : Prop :=
  (forall l l', memo !! l = Some l' ->
      (List.length σ0 <= l')%nat
      /\ exists o, σ0 !! l = Some o /\ is_rebuilt o = true /\ σ !! l' = Some o)
  /\ (forall l1 l2 l', memo !! l1 = Some l' -> memo !! l2 = Some l' -> l1 = l2).

(** [l'] is what the copy holds where the original holds [l]: [l] itself
    when the object is not rebuilt, its copy otherwise. *)
Definition copy_of (σ0 : Store) (memo : gmap loc loc) (l l' : loc) : Prop :=
  (l' = l /\ exists o, σ0 !! l = Some o /\ is_rebuilt o = false)
  \/ memo !! l = Some l'.

(** Two dicts with the same keys whose values have the same contents, the
    first read in [σ1] and the second in [σ2] *)
Definition same_contents (σ1 σ2 : Store) (a b : string * loc) : Prop :=
  a.1 = b.1 /\ exists o, σ1 !! a.2 = Some o /\ σ2 !! b.2 = Some o.

(** No set or dict of the store [σ] is held by two fields of the dict. *)
Definition no_shared_updated (σ : Store) (d : list (string * loc)) : Prop :=
  forall k1 k2 (l : loc),
    k1 <> k2 -> dict_get k1 d = Some l -> dict_get k2 d = Some l ->
    is_updated_in_place (σ !! l) = false.

(** The state of one field while the loop of [copy_and_extend_with] runs,
    [σ0] being the store before the call, [σ1] and [memo] the store and the
    memo once [__get_attributes] has returned: [l] is what the original
    holds, [l'] what the copy holds now, [given] the value given for the
    field if the loop has met the field already. *)
Definition field_ok (set_iteration : gset HashKey -> list HashKey)
    (σ0 σ1 : Store) (memo : gmap loc loc)
    (σ : Store) (l l' : loc) (given : option loc) : Prop :=
  (l' < List.length σ)%nat
  /\ match given with
     | None => copy_of σ0 memo l l' /\ σ !! l' = σ0 !! l
     | Some v =>
         extended_with set_iteration (σ0 !! l) (σ0 !! v) (σ !! l')
         /\ ((l' < List.length σ0)%nat \/ (List.length σ1 <= l')%nat
             \/ memo !! l = Some l')
     end.

(** What the loop keeps true of the copy's [attributes] built from the
    original's [dict] *)
Definition extend_inv (set_iteration : gset HashKey -> list HashKey)
    (σ0 σ1 : Store) (memo : gmap loc loc) (dict : list (string * loc))
    (attributes : list (string * loc)) (σ : Store)
    (given : string -> option loc) : Prop :=
  agrees σ0 σ
  /\ (List.length σ1 <= List.length σ)%nat
  /\ (forall k l, dict_get k dict = Some l ->
        exists l', dict_get k attributes = Some l'
                   /\ field_ok set_iteration σ0 σ1 memo σ l l' (given k))
  /\ (forall k, dict_get k dict = None -> given k = None ->
                dict_get k attributes = None).

(** ** Sample entities *)

(** The mock entity of the test suite, with a set, a bool, an int, a tuple,
    a list and a dict; the store holds after its fields the values that the
    examples give to the copies. *)
Definition mock_store : Store :=
  [ OSet {[KStr "foo"]}; OAtom (ABool true); OAtom (AInt 1);
    OTuple [AInt 1; AInt 2]; OList [AInt 1; AInt 2];
    ODict {[KStr "1" := AInt 1]};
    OSet {[KStr "bar"]}; OTuple [AInt 3; AInt 4]; OList [AInt 3; AInt 4];
    ODict {[KStr "2" := AInt 2]}; OAtom (AInt 2) ].

Definition mock_entity : Instance :=
  mkInstance "MockHtnEntity"
    [("set_attr", 0%nat); ("bool_attr", 1%nat); ("int_attr", 2%nat);
     ("tuple_attr", 3%nat); ("list_attr", 4%nat); ("dict_attr", 5%nat)].

(** The keywords [set_attr={"bar"}] and
    [set_attr={"bar"}, tuple_attr=(3, 4), list_attr=[3, 4], dict_attr={"2": 2},
    int_attr=2] *)
Definition mock_override : list (string * loc) := [("set_attr", 6%nat)].
Definition mock_extension : list (string * loc) :=
  [("set_attr", 6%nat); ("tuple_attr", 7%nat); ("list_attr", 8%nat);
   ("dict_attr", 9%nat); ("int_attr", 10%nat)].

(** An entity of a dataclass with three set fields, built with one set for
    the first two, as in
    [s = {"x"}; e = Sets(first=s, second=s, third=set())], and the keyword
    [first={"y"}] *)
Definition aliased_store : Store :=
  [ OSet {[KStr "x"]}; OSet ∅; OSet {[KStr "y"]} ].
Definition aliased_entity : Instance :=
  mkInstance "Sets" [("first", 0%nat); ("second", 0%nat); ("third", 1%nat)].
Definition aliased_extension : list (string * loc) := [("first", 2%nat)].

(** An iteration order for sets, and a class without [__post_init__] *)
Definition sorted_iteration (s : gset HashKey) : list HashKey := elements s.
Definition no_post_init (class_name : string)
    (attributes : list (string * option PyObj)) : result unit := Ok tt.

End Entity.

(** ** The interpreter's share: hashing, set iteration, the builder *)

(** Calls received by the external chronicle builder
    ([chronicles.ChronicleProblem]), whose code is not part of the package. *)
Inductive BuilderCall : Type :=
  | BAddType (name : string) (parent : option string)
  | BAddActionSymbol (name : string)
  | BAddConstantSymbol (name type_name : string)
  | BAddMethodSymbol (name : string)
  | BAddPredicateSymbol (name : string)
  | BAddFunctionSymbol (name : string)
  | BAddTaskSymbol (name : string)
  | BCreateSymbolTable
  | BAddPredicate (signature : list string)
  | BAddFunction (signature : list string)
  | BCreateContext
  | BAddAction (signature : list string) (constraints conditions effects : list (list string))
  | BAddMethod (signature : list string) (constraints conditions : list (list string))
      (task : list string) (subtasks subtasks_constraints : list (list string))
  | BAddGoal (tasks constraints : list (list string))
  | BAddInitialEffect (signature : list string).

(** An interpreter to run the definitions on examples: a string hashes to
    its length, an integer to itself, a tuple to the sum of the hashes of its
    items; a set is iterated in insertion order; the builder accepts every
    call. *)
Definition length_hash (s : string) : Z := Z.of_nat (String.length s).
Definition int_hash (z : Z) : Z := z.
Definition float_hash (f : float) : Z := 0.
Definition none_hash : Z := 0.
Definition sum_hash (hs : list Z) : Z := fold_right Z.add 0 hs.
Definition insertion_order {A : Type} (s : list A) : list A := s.
Definition accept_all (history : list BuilderCall) (call : BuilderCall) : bool :=
  true.

Section Runtime.

(** The hashes of the built-in values.  [hash(str)] is salted per process
    and the tuple hash is an implementation detail, so all of them stay
    abstract. *)
Variable hash_str : string -> Z.
Variable hash_int : Z -> Z.
Variable hash_float : float -> Z.
Variable hash_none : Z.
Variable hash_tuple : list Z -> Z.

(** The order in which a set, built by the given insertions, is iterated. *)
Variable sv_iteration : list HtnStateVariable -> list HtnStateVariable.
Variable obj_iteration : list HtnTypedObject -> list HtnTypedObject.

(** Whether the builder, having accepted the calls of the history, accepts
    one more call or raises. *)
Variable accepts : list BuilderCall -> BuilderCall -> bool.

(** *** Generated [__hash__] methods: the hash of the tuple of fields *)

(** [hash(True) == hash(1)] *)
Definition value_hash (v : PyValue) : Z :=
  match v with
  | VStr s => hash_str s
  | VInt z => hash_int z
  | VBool b => hash_int (Z.b2z b)
  end.

Fixpoint type_hash (t : HtnType) : Z :=
  match t with
  | mkHtnType n p =>
      hash_tuple [hash_str n;
                  match p with
                  | None => hash_none
                  | Some q => type_hash q
                  end]
  end.

Definition timepoint_hash (p : HtnTimepoint) : Z :=
  hash_tuple [value_hash (tp_value p); type_hash (tp_tpe p);
              hash_float (tp_delay p)].

Definition obj_hash (o : HtnTypedObject) : Z :=
  match o with
  | Plain _ v t => hash_tuple [value_hash v; type_hash t]
  | TP p => timepoint_hash p
  end.

Definition symbol_hash (s : HtnSymbol) : Z := hash_tuple [hash_str (sym_name s)].

Definition label_hash (l : HtnLabel) : Z := hash_tuple [hash_str (lab_value l)].

Definition opt_label_hash (l : option HtnLabel) : Z :=
  match l with
  | None => hash_none
  | Some l => label_hash l
  end.

Definition interval_hash (i : HtnTemporalInterval) : Z :=
  hash_tuple [timepoint_hash (iv_start i); timepoint_hash (iv_end i)].

Definition params_hash (params : list HtnTypedObject) : Z :=
  hash_tuple (map obj_hash params).

Definition state_variable_hash (sv : HtnStateVariable) : Z :=
  hash_tuple [symbol_hash (sv_symbol sv); params_hash (sv_params sv);
              type_hash (sv_tpe sv)].

Definition condition_hash (c : HtnCondition) : Z :=
  hash_tuple [state_variable_hash (cond_sv c); obj_hash (cond_value c);
              interval_hash (cond_interval c)].

Definition effect_hash (e : HtnEffect) : Z :=
  hash_tuple [state_variable_hash (eff_sv e); obj_hash (eff_value e);
              interval_hash (eff_interval e)].

Definition constraint_hash (c : HtnConstraint) : Z :=
  match c with
  | Constraint l r rel => hash_tuple [obj_hash l; obj_hash r; hash_str rel]
  | TemporalConstraint l r rel ll rl =>
      hash_tuple [timepoint_hash l; timepoint_hash r; hash_str rel;
                  opt_label_hash ll; opt_label_hash rl]
  end.

Definition primitive_task_hash (p : HtnPrimitiveTask) : Z :=
  hash_tuple [symbol_hash (pt_symbol p); params_hash (pt_params p);
              interval_hash (pt_interval p);
              hash_tuple (map constraint_hash (pt_constraints p));
              hash_tuple (map condition_hash (pt_conditions p));
              hash_tuple (map effect_hash (pt_effects p))].

Definition compound_task_hash (c : HtnCompoundTask) : Z :=
  hash_tuple [symbol_hash (ct_symbol c); params_hash (ct_params c);
              interval_hash (ct_interval c)].

Definition task_hash (t : HtnTask) : Z :=
  match t with
  | Primitive p => primitive_task_hash p
  | Compound c => compound_task_hash c
  end.

Definition label_mapping_pair_hash (lmp : HtnLabelMappingPair) : Z :=
  hash_tuple [label_hash (lmp_label lmp); task_hash (lmp_task lmp)].

Definition task_network_hash (tn : HtnTaskNetwork) : Z :=
  hash_tuple [hash_tuple (map label_mapping_pair_hash (label_mapping tn));
              hash_tuple (map constraint_hash (tn_constraints tn))].

Definition method_hash (m : HtnMethod) : Z :=
  hash_tuple [compound_task_hash (m_task m);
              task_network_hash (m_task_network m);
              hash_tuple (map constraint_hash (m_constraints m));
              hash_tuple (map condition_hash (m_conditions m));
              symbol_hash (m_symbol m)].

(** *** The keys under which each kind of element sits in a set *)

Definition type_key : Key HtnType := mkKey type_hash type_eq.
Definition obj_key : Key HtnTypedObject := mkKey obj_hash py_eq.
Definition symbol_key : Key HtnSymbol := mkKey symbol_hash symbol_eq.
Definition label_key : Key HtnLabel := mkKey label_hash label_eq.
Definition state_variable_key : Key HtnStateVariable :=
  mkKey state_variable_hash state_variable_eq.
Definition effect_key : Key HtnEffect := mkKey effect_hash effect_eq.
Definition primitive_task_key : Key HtnPrimitiveTask :=
  mkKey primitive_task_hash (fun x y => primitive_task_eq x (Primitive y)).
Definition compound_task_key : Key HtnCompoundTask :=
  mkKey compound_task_hash (fun x y => compound_task_eq x (Compound y)).
Definition method_key : Key HtnMethod := mkKey method_hash method_eq.

(** *** Derived parameters *)

(** [HtnParametricSymbol.constants] and [.variables], on [params] *)
Definition param_constants (params : list HtnTypedObject) : list HtnTypedObject :=
  filter (fun param => is_constant param = true) params.

Definition param_variables (params : list HtnTypedObject) : list HtnTypedObject :=
  filter (fun param => is_variable param = true) params.

(** [HtnPrimitiveTask.state_variables]:
    [{cont.sv for cont in self.conditions + self.effects}] *)
Definition pt_state_variables (p : HtnPrimitiveTask) : list HtnStateVariable :=
  set_of state_variable_key
    (map cond_sv (pt_conditions p) ++ map eff_sv (pt_effects p)).

(** The loop of [HtnPrimitiveTask.all_params] *)
Definition append_missing (all_params sv_params : list HtnTypedObject)
  : list HtnTypedObject :=
  fold_left
    (fun acc param =>
       if negb (list_contains py_eq param acc) then acc ++ [param] else acc)
    sv_params all_params.

(** [HtnPrimitiveTask.all_params] *)
Definition pt_all_params (p : HtnPrimitiveTask) : list HtnTypedObject :=
  let sv_params := flat_map sv_params (sv_iteration (pt_state_variables p)) in
  append_missing (pt_params p) sv_params.

(** [task.all_params] *)
Definition task_all_params (t : HtnTask) : list HtnTypedObject :=
  match t with
  | Primitive p => pt_all_params p
  | Compound c => ct_params c
  end.

(** [HtnMethod.state_variables] *)
Definition m_state_variables (m : HtnMethod) : list HtnStateVariable :=
  set_of state_variable_key (map cond_sv (m_conditions m)).

(** [HtnMethod.all_params] *)
Definition m_all_params (m : HtnMethod) : list HtnTypedObject :=
  let all_params := set_of obj_key (ct_params (m_task m)) in
  let all_params :=
    fold_left (fun acc task => set_update obj_key (task_all_params task) acc)
              (tn_tasks (m_task_network m)) all_params in
  let all_params :=
    set_update obj_key
      (flat_map sv_params (sv_iteration (m_state_variables m))) all_params in
  obj_iteration all_params.

(** *** Language and domain *)

Record HtnLanguage : Type := mkLanguage {
  Vars : list HtnTypedObject;
  Csts : list HtnTypedObject;
  StVars : list HtnSymbol;
  Prims : list HtnSymbol;
  Comps : list HtnSymbol;
  Labs : list HtnLabel
}.

Definition empty_language : HtnLanguage := mkLanguage [] [] [] [] [] [].

(** [HtnLanguage.add_task] *)
Definition language_add_task (self : HtnLanguage) (task : HtnTask) : HtnLanguage :=
  let vars := set_update obj_key (param_variables (task_params task)) (Vars self) in
  let csts := set_update obj_key (param_constants (task_params task)) (Csts self) in
  match task with
  | Primitive p =>
      mkLanguage vars csts
        (set_update symbol_key
           (map sv_symbol (sv_iteration (pt_state_variables p))) (StVars self))
        (set_add symbol_key (pt_symbol p) (Prims self))
        (Comps self) (Labs self)
  | Compound c =>
      mkLanguage vars csts (StVars self) (Prims self)
        (set_add symbol_key (ct_symbol c) (Comps self)) (Labs self)
  end.

(** [HtnLanguage.add_method] *)
Definition language_add_method (self : HtnLanguage) (method : HtnMethod)
  : HtnLanguage :=
  let self := language_add_task self (Compound (m_task method)) in
  let self :=
    mkLanguage (Vars self) (Csts self)
      (set_update symbol_key
         (map sv_symbol (sv_iteration (m_state_variables method))) (StVars self))
      (Prims self) (Comps self) (Labs self) in
  fold_left
    (fun self lmp =>
       let self :=
         mkLanguage (Vars self) (Csts self) (StVars self) (Prims self)
           (Comps self) (set_add label_key (lmp_label lmp) (Labs self)) in
       language_add_task self (lmp_task lmp))
    (label_mapping (m_task_network method)) self.

Record HtnDomain : Type := mkDomain {
  L : HtnLanguage;
  Tp : list HtnPrimitiveTask;
  Tc : list HtnCompoundTask;
  M : list HtnMethod;
  domain_name : string
}.

(** [HtnDomain.add_task] *)
Definition domain_add_task (self : HtnDomain) (task : HtnTask) : HtnDomain :=
  let l := language_add_task (L self) task in
  match task with
  | Primitive p =>
      mkDomain l (set_add primitive_task_key p (Tp self)) (Tc self) (M self)
        (domain_name self)
  | Compound c =>
      mkDomain l (Tp self) (set_add compound_task_key c (Tc self)) (M self)
        (domain_name self)
  end.

(** [HtnDomain.add_method] *)
Definition domain_add_method (self : HtnDomain) (method : HtnMethod) : HtnDomain :=
  let self :=
    mkDomain (language_add_method (L self) method) (Tp self) (Tc self)
      (set_add method_key method (M self)) (domain_name self) in
  fold_left (fun self lmp => domain_add_task self (lmp_task lmp))
    (label_mapping (m_task_network method)) self.

(** *** Rendering for the builder ([lcp_converter.py]) *)

(** [f"{htn_label}"] *)
Definition label_str (l : HtnLabel) : string := lab_value l.

(** [get_timepoint]: a label, when one is given, is appended to the value;
    the delay is scaled and truncated to an integer. *)
Definition get_timepoint (htn_timepoint : HtnTimepoint)
    (htn_label : option HtnLabel) : result string :=
  let value := value_str (tp_value htn_timepoint) in
  let value :=
    match htn_label with
    | Some l => value +:+ label_str l
    | None => value
    end in
  scaled ← PyFloat.to_int
             (PyFloat.mul (tp_delay htn_timepoint) (PyFloat.of_Z HTN_TIME_SCALE));
  Ok (value +:+ " + " +:+ string_of_Z scaled +:+ " - "
        +:+ type_name (tp_tpe htn_timepoint)).

(** [get_typed_object] *)
Definition get_typed_object (htn_obj : HtnTypedObject) : result string :=
  match htn_obj with
  | TP p => get_timepoint p None
  | Plain _ v t => Ok (value_str v +:+ " - " +:+ type_name t)
  end.

(** [get_interval] *)
Definition get_interval (htn_interval : HtnTemporalInterval)
    (htn_label : option HtnLabel) : result (list string) :=
  s ← get_timepoint (iv_start htn_interval) htn_label;
  e ← get_timepoint (iv_end htn_interval) htn_label;
  Ok [s; e].

(** [get_temporal_constraint] and [get_constraint] *)
Definition get_constraint (htn_constraint : HtnConstraint) : result (list string) :=
  match htn_constraint with
  | TemporalConstraint l r rel ll rl =>
      a ← get_timepoint l ll;
      b ← get_timepoint r rl;
      Ok [a; rel; b]
  | Constraint l r rel =>
      a ← get_typed_object l;
      b ← get_typed_object r;
      Ok [a; rel; b]
  end.

(** *** ChroniclesProblem *)

Inductive ChronicleSymbolType : Type :=
  | ACTION | CONSTANT | METHOD | PREDICATE | FUNCTION | TASK.

Record ChroniclesProblem : Type := mkChroniclesProblem {
  name : string;
  problem : list BuilderCall;
  context_created : bool;
  symbol_table_created : bool;
  actions : list HtnPrimitiveTask;
  constants : list HtnTypedObject;
  initial_effects : list HtnEffect;
  methods : list HtnMethod;
  state_variables : list HtnStateVariable;
  symbols : list HtnSymbol;
  tasks : list HtnCompoundTask;
  types : list HtnType;
  variables : list HtnTypedObject
}.

(** [ChroniclesProblem(name)] *)
Definition new_problem (name : string) : ChroniclesProblem :=
  mkChroniclesProblem name [] false false [] [] [] [] [] [] [] [] [].

Definition with_problem (v : list BuilderCall) (s : ChroniclesProblem) :=
  mkChroniclesProblem (name s) v (context_created s) (symbol_table_created s)
    (actions s) (constants s) (initial_effects s) (methods s)
    (state_variables s) (symbols s) (tasks s) (types s) (variables s).
Definition with_context_created (v : bool) (s : ChroniclesProblem) :=
  mkChroniclesProblem (name s) (problem s) v (symbol_table_created s)
    (actions s) (constants s) (initial_effects s) (methods s)
    (state_variables s) (symbols s) (tasks s) (types s) (variables s).
Definition with_symbol_table_created (v : bool) (s : ChroniclesProblem) :=
  mkChroniclesProblem (name s) (problem s) (context_created s) v
    (actions s) (constants s) (initial_effects s) (methods s)
    (state_variables s) (symbols s) (tasks s) (types s) (variables s).
Definition with_actions (v : list HtnPrimitiveTask) (s : ChroniclesProblem) :=
  mkChroniclesProblem (name s) (problem s) (context_created s)
    (symbol_table_created s) v (constants s) (initial_effects s) (methods s)
    (state_variables s) (symbols s) (tasks s) (types s) (variables s).
Definition with_constants (v : list HtnTypedObject) (s : ChroniclesProblem) :=
  mkChroniclesProblem (name s) (problem s) (context_created s)
    (symbol_table_created s) (actions s) v (initial_effects s) (methods s)
    (state_variables s) (symbols s) (tasks s) (types s) (variables s).
Definition with_initial_effects (v : list HtnEffect) (s : ChroniclesProblem) :=
  mkChroniclesProblem (name s) (problem s) (context_created s)
    (symbol_table_created s) (actions s) (constants s) v (methods s)
    (state_variables s) (symbols s) (tasks s) (types s) (variables s).
Definition with_methods (v : list HtnMethod) (s : ChroniclesProblem) :=
  mkChroniclesProblem (name s) (problem s) (context_created s)
    (symbol_table_created s) (actions s) (constants s) (initial_effects s) v
    (state_variables s) (symbols s) (tasks s) (types s) (variables s).
Definition with_state_variables (v : list HtnStateVariable) (s : ChroniclesProblem) :=
  mkChroniclesProblem (name s) (problem s) (context_created s)
    (symbol_table_created s) (actions s) (constants s) (initial_effects s)
    (methods s) v (symbols s) (tasks s) (types s) (variables s).
Definition with_symbols (v : list HtnSymbol) (s : ChroniclesProblem) :=
  mkChroniclesProblem (name s) (problem s) (context_created s)
    (symbol_table_created s) (actions s) (constants s) (initial_effects s)
    (methods s) (state_variables s) v (tasks s) (types s) (variables s).
Definition with_types (v : list HtnType) (s : ChroniclesProblem) :=
  mkChroniclesProblem (name s) (problem s) (context_created s)
    (symbol_table_created s) (actions s) (constants s) (initial_effects s)
    (methods s) (state_variables s) (symbols s) (tasks s) v (variables s).
Definition with_variables (v : list HtnTypedObject) (s : ChroniclesProblem) :=
  mkChroniclesProblem (name s) (problem s) (context_created s)
    (symbol_table_created s) (actions s) (constants s) (initial_effects s)
    (methods s) (state_variables s) (symbols s) (tasks s) (types s) v.

(** A method of [ChroniclesProblem]: it may update [self] and then either
    return or raise; what was updated before a raise stays updated. *)
Definition Conv (A : Type) : Type :=
  ChroniclesProblem -> ChroniclesProblem * result A.

Definition conv_ret {A : Type} (a : A) : Conv A := fun self => (self, Ok a).

Definition conv_bind {A B : Type} (m : Conv A) (k : A -> Conv B) : Conv B :=
  fun self =>
    match m self with
    | (self', Ok a) => k a self'
    | (self', Raise e) => (self', Raise e)
    end.

#[local] Instance Conv_bind : MBind Conv := fun A B k m => conv_bind m k.
#[local] Instance Conv_ret : MRet Conv := fun A a => conv_ret a.

(** Reading [self] without changing it *)
Definition reading {A : Type} (f : ChroniclesProblem -> result A) : Conv A :=
  fun self => (self, f self).

Definition update (f : ChroniclesProblem -> ChroniclesProblem) : Conv unit :=
  fun self => (f self, Ok tt).

(** [self.problem.<call>(...)] *)
Definition call_builder (c : BuilderCall) : Conv unit :=
  fun self =>
    if accepts (problem self) c
    then (with_problem (problem self ++ [c]) self, Ok tt)
    else (self, Raise BuilderError).

(** [check_symbol_table], [check_symbol], [check_context] *)
Definition check_symbol_table (self : ChroniclesProblem) : result unit :=
  if negb (symbol_table_created self) then Raise UncreatedSymbolTableError
  else Ok tt.

Definition check_symbol (self : ChroniclesProblem) (symbol : HtnSymbol)
  : result unit :=
  check_symbol_table self;;
  if negb (set_in symbol_key symbol (symbols self))
  then Raise (UnregisteredSymbolError (sym_name symbol))
  else Ok tt.

Definition check_context (self : ChroniclesProblem) : result unit :=
  if negb (context_created self) then Raise UncreatedContextError
  else Ok tt.

(** [get_signature], on the [symbol] and [all_params] of its argument *)
Definition get_signature (self : ChroniclesProblem) (symbol : HtnSymbol)
    (all_params : list HtnTypedObject) : result (list string) :=
  check_symbol self symbol;;
  check_symbol_table self;;
  params ← rmap get_typed_object all_params;
  Ok (sym_name symbol :: params).

(** [get_signature_temporal], on the [symbol], [all_params] and [interval]
    of its argument *)
Definition get_signature_temporal (self : ChroniclesProblem) (symbol : HtnSymbol)
    (all_params : list HtnTypedObject) (interval : HtnTemporalInterval)
    (htn_label : option HtnLabel) : result (list string) :=
  signature ← get_signature self symbol all_params;
  times ← get_interval interval htn_label;
  Ok (signature ++ times).

Definition task_signature_temporal (self : ChroniclesProblem) (task : HtnTask)
    (htn_label : option HtnLabel) : result (list string) :=
  get_signature_temporal self (task_symbol task) (task_all_params task)
    (task_interval task) htn_label.

Definition state_variable_signature (self : ChroniclesProblem)
    (sv : HtnStateVariable) : result (list string) :=
  get_signature self (sv_symbol sv) (sv_params sv).

(** [get_condition] and [get_effect] *)
Definition get_condition (self : ChroniclesProblem) (c : HtnCondition)
  : result (list string) :=
  signature ← state_variable_signature self (cond_sv c);
  times ← get_interval (cond_interval c) None;
  Ok (signature ++ [value_str (obj_value (cond_value c))] ++ times).

Definition get_effect (self : ChroniclesProblem) (e : HtnEffect)
  : result (list string) :=
  signature ← state_variable_signature self (eff_sv e);
  times ← get_interval (eff_interval e) None;
  Ok (signature ++ [value_str (obj_value (eff_value e))] ++ times).

(** [add_type]: the type, then its parents up to the root *)
Fixpoint add_type (htn_type : HtnType) : Conv unit :=
  match htn_type with
  | mkHtnType name parent =>
      fun self =>
        if set_in type_key htn_type (types self) then (self, Ok tt)
        else
          (update (fun self =>
             with_types (set_add type_key htn_type (types self)) self);;
           call_builder
             (BAddType name
                (match parent with
                 | Some p => Some (type_name p)
                 | None => None
                 end));;
           match parent with
           | Some p => add_type p
           | None => mret tt
           end) self
  end.

(** [add_symbol] *)
Definition add_symbol (symbol : HtnSymbol) (symbol_type : ChronicleSymbolType)
    (htn_type : option HtnType) : Conv unit :=
  fun self =>
    if set_in symbol_key symbol (symbols self) then (self, Ok tt)
    else
      (update (fun self =>
         with_symbols (set_add symbol_key symbol (symbols self)) self);;
       match symbol_type with
       | ACTION => call_builder (BAddActionSymbol (sym_name symbol))
       | CONSTANT =>
           match htn_type with
           | None => reading (fun _ => Raise ValueError)
           | Some t =>
               call_builder (BAddConstantSymbol (sym_name symbol) (type_name t))
           end
       | METHOD => call_builder (BAddMethodSymbol (sym_name symbol))
       | PREDICATE => call_builder (BAddPredicateSymbol (sym_name symbol))
       | FUNCTION => call_builder (BAddFunctionSymbol (sym_name symbol))
       | TASK => call_builder (BAddTaskSymbol (sym_name symbol))
       end) self.

(** [add_constant] *)
Definition add_constant (htn_constant : HtnTypedObject) : Conv unit :=
  fun self =>
    if set_in obj_key htn_constant (constants self) then (self, Ok tt)
    else
      (update (fun self =>
         with_constants (set_add obj_key htn_constant (constants self)) self);;
       add_type (obj_tpe htn_constant);;
       add_symbol (mkSymbol KSymbol (value_str (obj_value htn_constant)))
         CONSTANT (Some (obj_tpe htn_constant))) self.

(** [add_variable] *)
Definition add_variable (htn_variable : HtnTypedObject) : Conv unit :=
  fun self =>
    if set_in obj_key htn_variable (variables self) then (self, Ok tt)
    else
      (update (fun self =>
         with_variables (set_add obj_key htn_variable (variables self)) self);;
       add_type (obj_tpe htn_variable)) self.

(** [add_state_variable] *)
Definition add_state_variable (htn_sv : HtnStateVariable) : Conv unit :=
  fun self =>
    if set_in state_variable_key htn_sv (state_variables self) then (self, Ok tt)
    else
      (reading (fun self => check_symbol self (sv_symbol htn_sv));;
       update (fun self =>
         with_state_variables
           (set_add state_variable_key htn_sv (state_variables self)) self);;
       signature ← reading (fun self => state_variable_signature self htn_sv);
       if type_eq (sv_tpe htn_sv) HTN_BOOLEAN
       then call_builder (BAddPredicate signature)
       else if type_eq (sv_tpe htn_sv) HTN_INTEGER
       then call_builder (BAddFunction signature)
       else reading (fun _ => Raise NotImplementedError)) self.

(** The arguments that [add_action] prepares for the builder *)
Definition lower_action (self : ChroniclesProblem) (htn_action : HtnPrimitiveTask)
  : result BuilderCall :=
  signature ← task_signature_temporal self (Primitive htn_action) None;
  constraints ← rmap get_constraint (pt_constraints htn_action);
  conditions ← rmap (get_condition self) (pt_conditions htn_action);
  effects ← rmap (get_effect self) (pt_effects htn_action);
  constraints ←
    (if Nat.ltb 0 (List.length effects) then
       constraint ←
         HtnConstraintFactory.min_duration_eps (pt_interval htn_action) None;
       rendered ← get_constraint constraint;
       Ok (constraints ++ [rendered])
     else Ok constraints);
  Ok (BAddAction signature constraints conditions effects).

(** [add_action] *)
Definition add_action (htn_action : HtnPrimitiveTask) : Conv unit :=
  fun self =>
    if set_in primitive_task_key htn_action (actions self) then (self, Ok tt)
    else
      (reading (fun self => check_symbol self (pt_symbol htn_action));;
       reading check_context;;
       update (fun self =>
         with_actions (set_add primitive_task_key htn_action (actions self)) self);;
       call ← reading (fun self => lower_action self htn_action);
       call_builder call) self.

(** The [subtasks] (in [add_method]) and [tasks] (in [set_goal]) lists:
    every labelled task with its label on its timepoints *)
Definition lower_label_mapping (self : ChroniclesProblem)
    (label_mapping : list HtnLabelMappingPair) : result (list (list string)) :=
  rmap (fun lmp =>
          task_signature_temporal self (lmp_task lmp) (Some (lmp_label lmp)))
       label_mapping.

(** The arguments that [add_method] prepares for the builder *)
Definition lower_method (self : ChroniclesProblem) (htn_method : HtnMethod)
  : result BuilderCall :=
  signature ←
    get_signature_temporal self (m_symbol htn_method) (m_all_params htn_method)
      (ct_interval (m_task htn_method)) None;
  constraints ← rmap get_constraint (m_constraints htn_method);
  conditions ← rmap (get_condition self) (m_conditions htn_method);
  task ←
    get_signature self (ct_symbol (m_task htn_method))
      (ct_params (m_task htn_method));
  subtasks ←
    lower_label_mapping self (label_mapping (m_task_network htn_method));
  subtasks_constraints ←
    rmap get_constraint (tn_constraints (m_task_network htn_method));
  Ok (BAddMethod signature constraints conditions task subtasks
        subtasks_constraints).

(** [add_method] *)
Definition add_method (htn_method : HtnMethod) : Conv unit :=
  fun self =>
    if set_in method_key htn_method (methods self) then (self, Ok tt)
    else
      (reading (fun self => check_symbol self (m_symbol htn_method));;
       reading check_context;;
       update (fun self =>
         with_methods (set_add method_key htn_method (methods self)) self);;
       call ← reading (fun self => lower_method self htn_method);
       call_builder call) self.

(** [add_initial_effect] *)
Definition add_initial_effect (htn_effect : HtnEffect) : Conv unit :=
  fun self =>
    if set_in effect_key htn_effect (initial_effects self) then (self, Ok tt)
    else
      (reading (fun self => check_symbol self (sv_symbol (eff_sv htn_effect)));;
       reading check_context;;
       update (fun self =>
         with_initial_effects
           (set_add effect_key htn_effect (initial_effects self)) self);;
       signature ← reading (fun self => get_effect self htn_effect);
       call_builder (BAddInitialEffect signature)) self.

(** [create_context] and [create_symbol_table]: the builder is called, then
    the flag is set; neither method looks at the other flag. *)
Definition create_context : Conv unit :=
  call_builder BCreateContext;;
  update (with_context_created true).

Definition create_symbol_table : Conv unit :=
  call_builder BCreateSymbolTable;;
  update (with_symbol_table_created true).

(** The arguments that [set_goal] prepares for the builder *)
Definition lower_goal (self : ChroniclesProblem) (tn : HtnTaskNetwork)
  : result BuilderCall :=
  tasks ← lower_label_mapping self (label_mapping tn);
  constraints ← rmap get_constraint (tn_constraints tn);
  Ok (BAddGoal tasks constraints).

(** [set_goal] *)
Definition set_goal (htn_task_network : option HtnTaskNetwork) : Conv unit :=
  match htn_task_network with
  | None => mret tt
  | Some tn =>
      reading check_symbol_table;;
      reading check_context;;
      call ← reading (fun self => lower_goal self tn);
      call_builder call
  end.

(** *** Sample entities, after the delivery domain of the test suite *)

Definition t_location : HtnType := mkHtnType "location" None.
Definition t_locatable : HtnType := mkHtnType "locatable" None.
Definition t_robot : HtnType := mkHtnType "robot" (Some t_locatable).

Definition v_robot : HtnTypedObject := HtnVariable (VStr "?r") t_robot.
Definition v_location : HtnTypedObject := HtnVariable (VStr "?loc") t_location.
Definition o_loc0 : HtnTypedObject := HtnConstant (VStr "L0") t_location.
Definition o_loc1 : HtnTypedObject := HtnConstant (VStr "L1") t_location.
Definition v_time_start : HtnTimepoint := HtnVariableTimepoint "?ts".
Definition v_time_end : HtnTimepoint := HtnVariableTimepoint "?te".

Definition s_sv_at : HtnSymbol := mkSymbol KStateVariableSymbol "at".
Definition s_sv_path : HtnSymbol := mkSymbol KStateVariableSymbol "path".
Definition s_p_move : HtnSymbol := mkSymbol KPrimitiveTaskSymbol "move".
Definition s_p_speak : HtnSymbol := mkSymbol KPrimitiveTaskSymbol "speak".
Definition s_c_go : HtnSymbol := mkSymbol KCompoundTaskSymbol "go".
Definition s_m_go : HtnSymbol := mkSymbol KMethodSymbol "m-go".
Definition l_1 : HtnLabel := mkLabel "l1".
Definition l_2 : HtnLabel := mkLabel "l2".

Definition ts_te : HtnTemporalInterval := mkInterval v_time_start v_time_end.

Definition sv_at_robot_location : HtnStateVariable :=
  mkStateVariable s_sv_at [v_robot; v_location] HTN_BOOLEAN.

(** [path(L0, L0)] and [path(L0, L1)] *)
Definition path_loc0_loc0 : HtnParametricSymbol :=
  mkParametricSymbol s_sv_path [o_loc0; o_loc0].
Definition path_loc0_loc1 : HtnParametricSymbol :=
  mkParametricSymbol s_sv_path [o_loc0; o_loc1].

(** [go(L0, L0)] and [go(L0, L1)] over the same interval *)
Definition go_loc0_loc0 : HtnTask :=
  Compound (mkCompoundTask s_c_go [o_loc0; o_loc0] ts_te).
Definition go_loc0_loc1 : HtnTask :=
  Compound (mkCompoundTask s_c_go [o_loc0; o_loc1] ts_te).

(** The binary64 nearest to [k / 10] *)
Definition tenths (k : Z) : float := PyFloat.div (PyFloat.of_Z k) (PyFloat.of_Z 10).

(** A primitive task without explicit parameters whose only effect
    mentions [at(?r, ?loc)] *)
Definition p_speak_at : HtnPrimitiveTask :=
  mkPrimitiveTask s_p_speak [] ts_te [] []
    [mkEffect sv_at_robot_location HTN_TRUE ts_te].

(** [go(?r, ?loc)] and a method for it with an empty task network *)
Definition c_go : HtnCompoundTask :=
  mkCompoundTask s_c_go [v_robot; v_location] ts_te.
Definition m_already_there : HtnMethod :=
  mkMethod c_go (mkTaskNetwork [] []) [] [] s_m_go.

Definition empty_domain : HtnDomain := mkDomain empty_language [] [] [] "domain".

(** A method for [go(?r, ?loc)] that holds when [at(?r, ?loc)] does and
    whose network runs [go(L0, L1)] twice, under two labels *)
Definition m_go_twice : HtnMethod :=
  mkMethod c_go
    (mkTaskNetwork
       [mkLabelMappingPair l_1 go_loc0_loc1; mkLabelMappingPair l_2 go_loc0_loc1]
       [])
    [] [mkCondition sv_at_robot_location HTN_TRUE ts_te] s_m_go.

(** The calls that open the phases in the documented order: the symbols,
    the symbol table, the context *)
Definition declare_symbols : Conv unit :=
  add_symbol s_sv_at PREDICATE None;;
  add_symbol s_p_speak ACTION None;;
  add_symbol s_c_go TASK None;;
  add_symbol s_m_go METHOD None.

Definition open_phases : Conv unit :=
  declare_symbols;; create_symbol_table;; create_context.

(** *** Printing ([__str__]) *)

(** [f"{x}"] for a float [x], the interpreter's shortest representation *)
Variable float_str : float -> string.

(** [HtnTimepoint.__str__] *)
Definition timepoint_str (t : HtnTimepoint) : result string :=
  if PyFloat.eqb (tp_delay t) PyFloat.zero then Ok (value_str (tp_value t))
  else
    match tp_value t with
    | VInt z =>
        value ← PyFloat.of_int z;
        Ok (float_str (PyFloat.add value (tp_delay t)))
    | VBool b =>
        value ← PyFloat.of_int (Z.b2z b);
        Ok (float_str (PyFloat.add value (tp_delay t)))
    | VStr s => Ok (s +:+ " + " +:+ float_str (tp_delay t))
    end.

(** [HtnTemporalInterval.__str__]: the bracketed form is built first, then
    the values are looked at. *)
Definition interval_str (i : HtnTemporalInterval) : result string :=
  start ← timepoint_str (iv_start i);
  end_ ← timepoint_str (iv_end i);
  let default := "[" +:+ start +:+ ", " +:+ end_ +:+ "] " in
  match tp_value (iv_start i), tp_value (iv_end i) with
  | VStr s, VStr e =>
      let s := String.substring 0 5 s in
      let e := String.substring 0 5 e in
      if String.eqb s "__d__" && String.eqb e "__d__" then Ok ""
      else if String.eqb s "__s__" && String.eqb e "__s__" then Ok "at-start "
      else if String.eqb s "__e__" && String.eqb e "__e__" then Ok "at-end "
      else if String.eqb s "__s__" && String.eqb e "__e__" then Ok "over-all "
      else Ok default
  | _, _ => Ok default
  end.

(** *** The rest of the language, the domain and the problem *)

(** The order in which the other sets are iterated *)
Variable symbol_iteration : list HtnSymbol -> list HtnSymbol.
Variable label_iteration : list HtnLabel -> list HtnLabel.
Variable primitive_iteration : list HtnPrimitiveTask -> list HtnPrimitiveTask.
Variable compound_iteration : list HtnCompoundTask -> list HtnCompoundTask.
Variable method_iteration : list HtnMethod -> list HtnMethod.
Variable effect_iteration : list HtnEffect -> list HtnEffect.

(** [HtnLanguage.merge] *)
Definition language_merge (self language : HtnLanguage) : HtnLanguage :=
  mkLanguage
    (set_update obj_key (obj_iteration (Vars language)) (Vars self))
    (set_update obj_key (obj_iteration (Csts language)) (Csts self))
    (set_update symbol_key (symbol_iteration (StVars language)) (StVars self))
    (set_update symbol_key (symbol_iteration (Prims language)) (Prims self))
    (set_update symbol_key (symbol_iteration (Comps language)) (Comps self))
    (set_update label_key (label_iteration (Labs language)) (Labs self)).

(** [HtnLanguage.add_typed_object] *)
Definition language_add_typed_object (self : HtnLanguage)
    (typed_object : HtnTypedObject) : HtnLanguage * result unit :=
  if is_constant typed_object then
    (mkLanguage (Vars self) (set_add obj_key typed_object (Csts self))
       (StVars self) (Prims self) (Comps self) (Labs self),
     Ok tt)
  else if is_variable typed_object then
    (mkLanguage (set_add obj_key typed_object (Vars self)) (Csts self)
       (StVars self) (Prims self) (Comps self) (Labs self),
     Ok tt)
  else (self, Raise TypeError).

(** [HtnDomain.merge] *)
Definition domain_merge (self domain : HtnDomain) : HtnDomain :=
  mkDomain
    (language_merge (L self) (L domain))
    (set_update primitive_task_key (primitive_iteration (Tp domain)) (Tp self))
    (set_update compound_task_key (compound_iteration (Tc domain)) (Tc self))
    (set_update method_key (method_iteration (M domain)) (M self))
    (domain_name self).

(** [HtnDomain.state_variables] *)
Definition domain_state_variables (self : HtnDomain) : list HtnStateVariable :=
  let result :=
    fold_left
      (fun result prim =>
         set_update state_variable_key (sv_iteration (pt_state_variables prim))
           result)
      (primitive_iteration (Tp self)) [] in
  fold_left
    (fun result method =>
       set_update state_variable_key (sv_iteration (m_state_variables method))
         result)
    (method_iteration (M self)) result.

Record HtnProblem : Type := mkProblem {
  D : HtnDomain;
  s_I : list HtnEffect;
  tn_I : option HtnTaskNetwork;
  problem_name : string
}.

(** [HtnProblem.state_variables] *)
Definition problem_state_variables (self : HtnProblem)
  : list HtnStateVariable :=
  set_update state_variable_key (map eff_sv (effect_iteration (s_I self)))
    (domain_state_variables (D self)).

(** *** Predicates on the pipeline *)

(** [self'] is a later state of [self]: the same name, the builder's log
    continued, no flag reset, nothing that was found in a registry missing,
    and the registry [tasks], which no method writes, as it was. *)
Definition pipeline_le (self self' : ChroniclesProblem) : Prop :=
  name self' = name self
  /\ (exists calls, problem self' = problem self ++ calls)
  /\ (context_created self = true -> context_created self' = true)
  /\ (symbol_table_created self = true -> symbol_table_created self' = true)
  /\ (forall x, set_in primitive_task_key x (actions self) = true ->
                set_in primitive_task_key x (actions self') = true)
  /\ (forall x, set_in obj_key x (constants self) = true ->
                set_in obj_key x (constants self') = true)
  /\ (forall x, set_in effect_key x (initial_effects self) = true ->
                set_in effect_key x (initial_effects self') = true)
  /\ (forall x, set_in method_key x (methods self) = true ->
                set_in method_key x (methods self') = true)
  /\ (forall x, set_in state_variable_key x (state_variables self) = true ->
                set_in state_variable_key x (state_variables self') = true)
  /\ (forall x, set_in symbol_key x (symbols self) = true ->
                set_in symbol_key x (symbols self') = true)
  /\ tasks self' = tasks self
  /\ (forall x, set_in type_key x (types self) = true ->
                set_in type_key x (types self') = true)
  /\ (forall x, set_in obj_key x (variables self) = true ->
                set_in obj_key x (variables self') = true).

(** Whatever state it starts in, and whether it returns or raises, the
    computation ends in a later state. *)
Definition grows {A : Type} (m : Conv A) : Prop :=
  forall self, pipeline_le self (m self).1.

(** The registry of types holds the parent of every type it holds. *)
Definition types_closed (self : ChroniclesProblem) : Prop :=
  forall t parent,
    t ∈ types self -> type_parent t = Some parent -> parent ∈ types self.

(** The three kinds of calls that the builder receives besides
    [create_symbol_table] and [create_context] *)
Definition is_declaration (c : BuilderCall) : bool :=
  match c with
  | BAddType _ _ | BAddActionSymbol _ | BAddConstantSymbol _ _
  | BAddMethodSymbol _ | BAddPredicateSymbol _ | BAddFunctionSymbol _
  | BAddTaskSymbol _ => true
  | _ => false
  end.

Definition is_state_variable_call (c : BuilderCall) : bool :=
  match c with
  | BAddPredicate _ | BAddFunction _ => true
  | _ => false
  end.

Definition is_content (c : BuilderCall) : bool :=
  match c with
  | BAddAction _ _ _ _ | BAddMethod _ _ _ _ _ _ | BAddGoal _ _
  | BAddInitialEffect _ => true
  | _ => false
  end.

(** Whatever state it starts in, the computation hands the builder calls of
    the kind [kind] only. *)
Definition appends {A : Type} (kind : BuilderCall -> bool) (m : Conv A)
  : Prop :=
  forall self,
    exists calls,
      problem (m self).1 = problem self ++ calls
      /\ forallb kind calls = true.

(** *** [ChroniclesProblem.from_htn] *)

(** [so.intersection(other)] for an iterable [other] that is not a set: the
    items of [other] found in [so], in the order in which they come. *)
Definition set_intersection {A : Type} `{EqDecision A} (K : Key A)
    (so other : list A) : list A :=
  fold_left
    (fun result key => if set_in K key so then set_add K key result else result)
    other [].

(** A dict keyed by symbols, in insertion order: [d[k] = v] keeps the key
    that is there, [d[k]] finds the entry whose key matches. *)
Fixpoint sv_map_set (k : HtnSymbol) (v : HtnType)
    (d : list (HtnSymbol * HtnType)) : list (HtnSymbol * HtnType) :=
  match d with
  | [] => [(k, v)]
  | (k', v') :: rest =>
      if key_match symbol_key k' k then (k', v) :: rest
      else (k', v') :: sv_map_set k v rest
  end.

Fixpoint sv_map_get (k : HtnSymbol) (d : list (HtnSymbol * HtnType))
  : option HtnType :=
  match d with
  | [] => None
  | (k', v) :: rest =>
      if key_match symbol_key k' k then Some v else sv_map_get k rest
  end.

(** What [from_htn] may raise: an exception of the pipeline or of the
    builder, or the [KeyError] of [sv_map[sv_sym]] *)
Inductive FromHtnError : Type :=
  | Raised (e : PyError)
  | KeyError (key : HtnSymbol).

(** A step of [from_htn]: the pipeline afterwards, and the exception that
    ended the conversion, if any *)
Definition Conversion : Type :=
  ChroniclesProblem -> ChroniclesProblem * option FromHtnError.

Definition step (m : Conv unit) : Conversion :=
  fun self =>
    match m self with
    | (self', Ok _) => (self', None)
    | (self', Raise e) => (self', Some (Raised e))
    end.

Definition and_then (first next : Conversion) : Conversion :=
  fun self =>
    match first self with
    | (self', None) => next self'
    | (self', Some e) => (self', Some e)
    end.

(** The steps one after the other, up to the first that raises *)
Fixpoint sequence (steps : list Conversion) : Conversion :=
  match steps with
  | [] => fun self => (self, None)
  | first :: rest => and_then first (sequence rest)
  end.

(** [for x in xs: body(x)] *)
Definition for_each {A : Type} (body : A -> Conversion) (xs : list A)
  : Conversion :=
  sequence (map body xs).

(** The body of the loop over the symbols of state variables *)
Definition declare_state_variable_symbol (sv_map : list (HtnSymbol * HtnType))
    (sv_sym : HtnSymbol) : Conversion :=
  match sv_map_get sv_sym sv_map with
  | None => fun self => (self, Some (KeyError sv_sym))
  | Some tpe =>
      if type_eq tpe HTN_BOOLEAN then step (add_symbol sv_sym PREDICATE None)
      else if type_eq tpe HTN_INTEGER
      then step (add_symbol sv_sym FUNCTION None)
      else fun self => (self, Some (Raised NotImplementedError))
  end.

(** [from_htn]: the pipeline as the conversion leaves it, and the exception
    raised, if any; the caller receives the pipeline when there is none. *)
Definition from_htn (htn_problem : HtnProblem)
  : ChroniclesProblem * option FromHtnError :=
  let problem := new_problem (problem_name htn_problem) in
  let state_variables := sv_iteration (problem_state_variables htn_problem) in
  let sv_map :=
    fold_left (fun d sv => sv_map_set (sv_symbol sv) (sv_tpe sv) d)
      state_variables [] in
  let language := L (D htn_problem) in
  let sv_syms :=
    symbol_iteration
      (set_intersection symbol_key (StVars language)
         (map sv_symbol state_variables)) in
  sequence
    [ (* Types & Symbols *)
      for_each (fun constant => step (add_constant constant))
        (obj_iteration (Csts language));
      for_each (fun variable => step (add_variable variable))
        (obj_iteration (Vars language));
      for_each (declare_state_variable_symbol sv_map) sv_syms;
      for_each (fun action_sym => step (add_symbol action_sym ACTION None))
        (symbol_iteration (Prims language));
      for_each (fun task_sym => step (add_symbol task_sym TASK None))
        (symbol_iteration (Comps language));
      for_each (fun method => step (add_symbol (m_symbol method) METHOD None))
        (method_iteration (M (D htn_problem)));
      (* Symbol table *)
      step create_symbol_table;
      (* State Variables *)
      for_each (fun sv => step (add_state_variable sv)) state_variables;
      (* Context *)
      step create_context;
      (* Actions *)
      for_each (fun action => step (add_action action))
        (primitive_iteration (Tp (D htn_problem)));
      (* Methods *)
      for_each (fun method => step (add_method method))
        (method_iteration (M (D htn_problem)));
      (* Goal *)
      step (set_goal (tn_I htn_problem));
      (* Initial state *)
      for_each (fun init_effect => step (add_initial_effect init_effect))
        (effect_iteration (s_I htn_problem)) ]
    problem.

(** [HtnMethod.params] *)
Definition m_params (m : HtnMethod) : list HtnTypedObject :=
  let result := set_of obj_key (ct_params (m_task m)) in
  let result :=
    fold_left (fun acc task => set_update obj_key (task_params task) acc)
              (tn_tasks (m_task_network m)) result in
  obj_iteration result.

(** ** Predicates of the statements *)

(** The two errors that signal a call made before its phase is open *)
Definition ordering_error (e : PyError) : bool :=
  match e with
  | UncreatedContextError | UncreatedSymbolTableError => true
  | _ => false
  end.

(** A computation that, if it raises, raises something else than an
    ordering error *)
Definition no_ordering_error {A : Type} (r : result A) : Prop :=
  forall e, r = Raise e -> ordering_error e = false.

(** What [HtnLanguage.add_task] puts in the language for one task: its
    symbol, the variables and constants among its [params], and for a
    primitive task the symbols of the state variables of its conditions and
    effects *)
Definition language_has_task (l : HtnLanguage) (task : HtnTask) : Prop :=
  set_in symbol_key (task_symbol task)
    (match task with Primitive _ => Prims l | Compound _ => Comps l end) = true
  /\ (forall x, x ∈ task_params task -> is_variable x = true ->
                set_in obj_key x (Vars l) = true)
  /\ (forall x, x ∈ task_params task -> is_constant x = true ->
                set_in obj_key x (Csts l) = true)
  /\ (forall p, task = Primitive p ->
        forall sv, sv ∈ map cond_sv (pt_conditions p) ++ map eff_sv (pt_effects p) ->
                   set_in symbol_key (sv_symbol sv) (StVars l) = true).

(** The task sits in [Tp] or [Tc] *)
Definition domain_has_task (d : HtnDomain) (task : HtnTask) : Prop :=
  match task with
  | Primitive p => set_in primitive_task_key p (Tp d) = true
  | Compound c => set_in compound_task_key c (Tc d) = true
  end.

(** Nothing that was found in [l] is missing from [l'] *)
Definition language_le (l l' : HtnLanguage) : Prop :=
  (forall x, set_in obj_key x (Vars l) = true -> set_in obj_key x (Vars l') = true)
  /\ (forall x, set_in obj_key x (Csts l) = true -> set_in obj_key x (Csts l') = true)
  /\ (forall x, set_in symbol_key x (StVars l) = true ->
                set_in symbol_key x (StVars l') = true)
  /\ (forall x, set_in symbol_key x (Prims l) = true ->
                set_in symbol_key x (Prims l') = true)
  /\ (forall x, set_in symbol_key x (Comps l) = true ->
                set_in symbol_key x (Comps l') = true)
  /\ (forall x, set_in label_key x (Labs l) = true ->
                set_in label_key x (Labs l') = true).

Definition domain_le (d d' : HtnDomain) : Prop :=
  language_le (L d) (L d')
  /\ (forall x, set_in primitive_task_key x (Tp d) = true ->
                set_in primitive_task_key x (Tp d') = true)
  /\ (forall x, set_in compound_task_key x (Tc d) = true ->
                set_in compound_task_key x (Tc d') = true)
  /\ (forall x, set_in method_key x (M d) = true ->
                set_in method_key x (M d') = true).

(** ** Predicates of the further properties *)

(** Started in a state where [ready] holds, the computation raises neither
    [UncreatedSymbolTableError] nor [UncreatedContextError]. *)
Definition orderly {A : Type} (ready : ChroniclesProblem -> Prop) (m : Conv A)
  : Prop :=
  forall self, ready self -> no_ordering_error (m self).2.

Definition table_ready (self : ChroniclesProblem) : Prop :=
  symbol_table_created self = true.

Definition context_ready (self : ChroniclesProblem) : Prop :=
  symbol_table_created self = true /\ context_created self = true.


(** The three phases of the builder: declarations until
    [create_symbol_table], state variables until [create_context], then
    actions, methods, the goal and the initial state *)
Inductive Phase : Type :=
  | Declaring
  | Describing
  | Filling.

Definition phase_rank (ph : Phase) : nat :=
  match ph with
  | Declaring => 0
  | Describing => 1
  | Filling => 2
  end.

(** The phase that the builder is in after the calls of [log], received in
    the phase [ph]; [None] when a call comes in the wrong phase. *)
Fixpoint log_phase (ph : Phase) (log : list BuilderCall) : option Phase :=
  match log with
  | [] => Some ph
  | c :: rest =>
      match ph, c with
      | Declaring, BCreateSymbolTable => log_phase Describing rest
      | Describing, BCreateContext => log_phase Filling rest
      | Declaring, _ => if is_declaration c then log_phase Declaring rest else None
      | Describing, _ =>
          if is_state_variable_call c then log_phase Describing rest else None
      | Filling, _ => if is_content c then log_phase Filling rest else None
      end
  end.

(** Started with a log that has reached the phase [from], the conversion
    step leaves a log that is still in order, in a phase between [from] and
    [to], and in the phase [to] when it does not raise. *)
Definition moves (from to : Phase) (c : Conversion) : Prop :=
  forall self,
    log_phase Declaring (problem self) = Some from ->
    exists ph,
      log_phase Declaring (problem (c self).1) = Some ph
      /\ (phase_rank from <= phase_rank ph <= phase_rank to)%nat
      /\ ((c self).2 = None -> ph = to).

(** The outcome is not an ordering error. *)
Definition in_order (outcome : option FromHtnError) : Prop :=
  match outcome with
  | Some (Raised e) => ordering_error e = false
  | _ => True
  end.

(** Started where [pre] holds, the conversion step raises no ordering
    error, and ends where [post] holds when it does not raise. *)
Definition establishes (pre post : ChroniclesProblem -> Prop) (c : Conversion)
  : Prop :=
  forall self,
    pre self ->
    in_order (c self).2 /\ ((c self).2 = None -> post (c self).1).

(** * Properties *)

(** ** Equality of values, types and typed objects *)

Lemma value_eq_refl v : value_eq v v = true.
Proof.
  destruct v as [s|z|b]; simpl;
    [apply String.eqb_refl | apply Z.eqb_refl | by destruct b].
Qed.

Lemma HtnType_chain_ind (P : HtnType -> Prop) :
  (forall n, P (mkHtnType n None)) ->
  (forall n p, P p -> P (mkHtnType n (Some p))) ->
  forall t, P t.
Proof.
  intros Hroot Hstep. fix go 1. intros [n [p|]].
  - apply Hstep, go.
  - apply Hroot.
Qed.

Lemma type_eq_refl t : type_eq t t = true.
Proof.
  induction t as [n|n p IH] using HtnType_chain_ind; simpl;
    rewrite String.eqb_refl; simpl; auto.
Qed.

Lemma type_eq_eq t u : type_eq t u = true <-> t = u.
Proof.
  split; [|intros ->; apply type_eq_refl].
  revert u.
  induction t as [n|n p IH] using HtnType_chain_ind; intros [m [q|]]; simpl;
    destruct (String.eqb_spec n m); simpl; try discriminate; subst; auto.
  intros H. by rewrite (IH _ H).
Qed.

Lemma typed_object_eq_same_fields x y :
  obj_value x = obj_value y -> obj_tpe x = obj_tpe y ->
  typed_object_eq x y = true.
Proof.
  intros Hv Ht. unfold typed_object_eq.
  by rewrite Hv, Ht, value_eq_refl, type_eq_refl.
Qed.

Lemma SFeqb_sym x y : SFeqb x y = SFeqb y x.
Proof.
  unfold SFeqb, SFcompare.
  destruct x as [sx|sx| |sx mx ex], y as [sy|sy| |sy my ey]; try reflexivity;
    try (destruct sx, sy; reflexivity).
  change (Pos.compare_cont Eq mx my) with (mx ?= my)%positive.
  change (Pos.compare_cont Eq my mx) with (my ?= mx)%positive.
  rewrite (Z.compare_antisym ey ex), (Pos.compare_antisym my mx).
  destruct sx, sy; try reflexivity;
    destruct (ey ?= ex)%Z; simpl; try reflexivity;
    destruct (my ?= mx)%positive; reflexivity.
Qed.

(** Two timepoints of one class with the same value and type are equal
    exactly when their delays are. *)
Lemma py_eq_timepoints k v t d1 d2 :
  py_eq (TP (mkTimepoint k v t d1)) (TP (mkTimepoint k v t d2))
  = PyFloat.eqb d1 d2.
Proof.
  unfold py_eq, eq_method.
  destruct k; simpl;
    unfold timepoint_eq, dataclass_timepoint_eq, typed_object_eq; simpl;
    rewrite ?value_eq_refl, ?type_eq_refl; simpl; try reflexivity.
  apply SFeqb_sym.
Qed.

(** ** Membership in a set *)

Section SetFacts.
Context {A : Type} `{EqDecision A} (K : Key A).

Lemma key_match_same x : key_match K x x = true.
Proof.
  unfold key_match. rewrite Z.eqb_refl, bool_decide_eq_true_2; done.
Qed.

Lemma set_in_app x s1 s2 :
  set_in K x (s1 ++ s2) = set_in K x s1 || set_in K x s2.
Proof. unfold set_in. apply existsb_app. Qed.

Lemma set_in_elem x s : x ∈ s -> set_in K x s = true.
Proof.
  intros Hin. unfold set_in. apply existsb_exists.
  exists x. split; [by apply list_elem_of_In | apply key_match_same].
Qed.

Lemma set_in_add_same x s : set_in K x (set_add K x s) = true.
Proof.
  unfold set_add. destruct (set_in K x s) eqn:E; [done|].
  rewrite set_in_app, E. simpl. by rewrite key_match_same.
Qed.

Lemma set_in_add_mono x y s :
  set_in K x s = true -> set_in K x (set_add K y s) = true.
Proof.
  intros Hx. unfold set_add. destruct (set_in K y s); [done|].
  by rewrite set_in_app, Hx.
Qed.

Lemma set_add_member x s : set_in K x s = true -> set_add K x s = s.
Proof. intros Hx. unfold set_add. by rewrite Hx. Qed.

Lemma set_in_update_mono x ys s :
  set_in K x s = true -> set_in K x (set_update K ys s) = true.
Proof.
  revert s. induction ys as [|y ys IH]; intros s Hx; simpl; [done|].
  apply IH. by apply set_in_add_mono.
Qed.

Lemma set_in_update_elem x ys s :
  x ∈ ys -> set_in K x (set_update K ys s) = true.
Proof.
  revert s. induction ys as [|y ys IH]; intros s Hin; simpl.
  - by apply elem_of_nil in Hin.
  - apply elem_of_cons in Hin as [->|Hin].
    + apply set_in_update_mono, set_in_add_same.
    + by apply IH.
Qed.

Lemma elem_of_set_add x y s : x ∈ s -> x ∈ set_add K y s.
Proof.
  intros Hx. unfold set_add. destruct (set_in K y s); [done|].
  apply elem_of_app. by left.
Qed.

(** Whatever is inserted is afterwards represented by a stored element
    that matches it. *)
Lemma set_update_represented x ys s :
  x ∈ ys -> exists stored,
    stored ∈ set_update K ys s /\ key_match K stored x = true.
Proof.
  intros Hin. pose proof (set_in_update_elem x ys s Hin) as Hm.
  unfold set_in in Hm. apply existsb_exists in Hm as (stored & Hs & Hk).
  exists stored. split; [by apply list_elem_of_In | done].
Qed.
End SetFacts.

(** ** Typed objects: variables, constants, timepoints *)

(** On a timepoint created as [HtnTimepoint(...)], [==] is
    [HtnTimepoint.__eq__], whatever the other operand. *)
Lemma py_eq_base_timepoint v t d o :
  py_eq (TP (mkTimepoint KTimepoint v t d)) o
  = timepoint_eq (mkTimepoint KTimepoint v t d) o.
Proof.
  unfold py_eq, eq_method; simpl.
  destruct o as [k v' t'|[k v' t' d']]; simpl; [by destruct k|].
  destruct k; simpl; reflexivity.
Qed.


(** ** Parametric symbols *)

(** What [HtnParametricSymbol.__eq__] computes: the parameters of the left
    operand are matched against those of the right one, not the converse. *)
Lemma parametric_symbol_eq_spec p q :
  parametric_symbol_eq p q = true <->
  sym_name (ps_symbol p) = sym_name (ps_symbol q)
  /\ List.length (ps_params p) = List.length (ps_params q)
  /\ (forall x, x ∈ ps_params p ->
        exists y, y ∈ ps_params q /\ py_eq x y = true).
Proof.
  unfold parametric_symbol_eq, parametric_eq, symbol_eq.
  destruct (String.eqb_spec (sym_name (ps_symbol p)) (sym_name (ps_symbol q)))
    as [Hs|Hs]; simpl; [|split; [discriminate|by intros [? _]]].
  destruct (Nat.eqb_spec (List.length (ps_params p)) (List.length (ps_params q)))
    as [Hl|Hl]; simpl; [|split; [discriminate|by intros (_ & ? & _)]].
  rewrite forallb_forall. split.
  - intros H. repeat split; try done.
    intros x Hx. apply list_elem_of_In, H, existsb_exists in Hx as (y & Hy & Hxy).
    exists y. split; [by apply list_elem_of_In | done].
  - intros (_ & _ & H) x Hx. apply list_elem_of_In, H in Hx as (y & Hy & Hxy).
    apply existsb_exists. exists y. split; [by apply list_elem_of_In | done].
Qed.

(** C6.  [path(L0, L0) == path(L0, L1)] holds although [L1] has no
    counterpart on the left, and the converse comparison fails: the
    equality is not symmetric.  Tasks inherit the comparison. *)
Theorem C6_parametric_symbol_eq_one_sided :
  parametric_symbol_eq path_loc0_loc0 path_loc0_loc1 = true
  /\ parametric_symbol_eq path_loc0_loc1 path_loc0_loc0 = false
  /\ existsb (py_eq o_loc1) (ps_params path_loc0_loc0) = false
  /\ task_eq go_loc0_loc0 go_loc0_loc1 = true
  /\ task_eq go_loc0_loc1 go_loc0_loc0 = false.
Proof. repeat split; vm_compute; reflexivity. Qed.

(** ** Timepoint arithmetic and rendering *)

Lemma timepoint_add_ok t n f :
  to_float n = Ok f ->
  timepoint_add t n
  = Ok (mkTimepoint (tp_class t) (tp_value t) (tp_tpe t)
          (PyFloat.add (tp_delay t) f)).
Proof. intros Hf. unfold timepoint_add. by rewrite Hf. Qed.

(** C9, as stated, fails: with [t = ?ts + 0.1], [(t + 0.2) + 0.3] and
    [t + (0.2 + 0.3)] carry the delays [0.6000000000000001] and [0.6] and
    are not equal. *)
Lemma C9_addition_not_associative :
  match
    (t ← timepoint_add v_time_start (NFloat (tenths 1));
     ta ← timepoint_add t (NFloat (tenths 2));
     timepoint_add ta (NFloat (tenths 3))),
    (t ← timepoint_add v_time_start (NFloat (tenths 1));
     s ← num_add (NFloat (tenths 2)) (NFloat (tenths 3));
     timepoint_add t s)
  with
  | Ok x, Ok y => py_eq (TP x) (TP y) = false
  | _, _ => False
  end.
Proof. vm_compute. reflexivity. Qed.

(** C9, amended.  Adding [a] then [b] to a timepoint, and adding [a + b],
    give timepoints of the same class, value and type whose delays are the
    binary64 sums [(d + a) + b] and [d + (a + b)]; the two are equal exactly
    when these sums are.  A timepoint whose scaled delay [d * 10] is finite
    renders with [int(d * 10)] as its delay component; the delay [0.5]
    renders as [5]. *)
Theorem C9_timepoint_addition_and_rendering :
  (forall (t : HtnTimepoint) (a b s : PyNum) (fa fb fs : float),
      to_float a = Ok fa -> to_float b = Ok fb ->
      num_add a b = Ok s -> to_float s = Ok fs ->
      let left_delay := PyFloat.add (PyFloat.add (tp_delay t) fa) fb in
      let right_delay := PyFloat.add (tp_delay t) fs in
      let x := mkTimepoint (tp_class t) (tp_value t) (tp_tpe t) left_delay in
      let y := mkTimepoint (tp_class t) (tp_value t) (tp_tpe t) right_delay in
      (ta ← timepoint_add t a; timepoint_add ta b) = Ok x
      /\ timepoint_add t s = Ok y
      /\ py_eq (TP x) (TP y) = PyFloat.eqb left_delay right_delay)
  /\ (forall fa fb : float,
         num_add (NFloat fa) (NFloat fb) = Ok (NFloat (PyFloat.add fa fb)))
  /\ (forall (t : HtnTimepoint) (htn_label : option HtnLabel) (n : Z),
         PyFloat.to_int (PyFloat.mul (tp_delay t) (PyFloat.of_Z HTN_TIME_SCALE))
         = Ok n ->
         get_timepoint t htn_label
         = Ok (match htn_label with
               | Some l => value_str (tp_value t) +:+ lab_value l
               | None => value_str (tp_value t)
               end +:+ " + " +:+ string_of_Z n +:+ " - "
                   +:+ type_name (tp_tpe t)))
  /\ get_timepoint
       (mkTimepoint KVariableTimepoint (VStr "?ts") HTN_TIMEPOINT (tenths 5)) None
     = Ok "?ts + 5 - __timepoint__"%string.
Proof.
  repeat split.
  - rewrite (timepoint_add_ok t a fa) by done. simpl.
    by rewrite (timepoint_add_ok _ b fb).
  - by apply timepoint_add_ok.
  - apply py_eq_timepoints.
  - intros t htn_label n Hn. unfold get_timepoint. rewrite Hn. reflexivity.
Qed.

(** ** The dirac effect factory *)

(** C3, as stated, fails: on [[?ts, ?te]] the first effect starts at
    [?ts - 0.1], so its interval is not [[?ts, ?te - 0.1]]. *)
Lemma C3_first_effect_starts_earlier :
  match dirac sv_at_robot_location HTN_TRUE ts_te,
        timepoint_sub (iv_end ts_te) (NFloat HTN_EPSILON) with
  | Ok (effect_before, _), Ok end_minus_eps =>
      interval_eq (eff_interval effect_before)
                  (mkInterval (iv_start ts_te) end_minus_eps) = false
      /\ tp_delay (iv_start (eff_interval effect_before))
         = PyFloat.neg HTN_EPSILON
  | _, _ => False
  end.
Proof. vm_compute. split; reflexivity. Qed.

(** C3, amended.  On a boolean state variable [dirac] returns two effects
    on it: the first holds [value] on the interval moved back by epsilon at
    both ends, the second holds [HTN_TRUE] when [value == HTN_FALSE] and
    [HTN_FALSE] otherwise, on the interval as given; so [HTN_TRUE] is
    answered by [HTN_FALSE] and conversely.  On any other state variable it
    raises [TypeError]. *)
Theorem C3_dirac :
  (forall (sv : HtnStateVariable) (value : HtnTypedObject)
          (interval : HtnTemporalInterval),
      let back := fun t : HtnTimepoint =>
        mkTimepoint (tp_class t) (tp_value t) (tp_tpe t)
          (PyFloat.add (tp_delay t) (PyFloat.neg HTN_EPSILON)) in
      (type_eq (sv_tpe sv) HTN_BOOLEAN = true ->
       dirac sv value interval
       = Ok (mkEffect sv value
               (mkInterval (back (iv_start interval)) (back (iv_end interval))),
             mkEffect sv
               (if py_eq value HTN_FALSE then HTN_TRUE else HTN_FALSE)
               interval))
      /\ (type_eq (sv_tpe sv) HTN_BOOLEAN = false ->
          dirac sv value interval = Raise TypeError))
  /\ py_eq HTN_TRUE HTN_FALSE = false
  /\ py_eq HTN_FALSE HTN_FALSE = true.
Proof.
  split; [|split; reflexivity].
  intros sv value interval back. unfold dirac. split; intros ->; reflexivity.
Qed.

(** ** Strings and comprehensions *)

Lemma string_app_cons x (a b : string) : String x a +:+ b = String x (a +:+ b).
Proof. reflexivity. Qed.

Lemma string_app_assoc (a b c : string) : (a +:+ b) +:+ c = a +:+ b +:+ c.
Proof.
  induction a as [|x a IH]; [done|]. by rewrite !string_app_cons, IH.
Qed.

Lemma string_app_length (a b : string) :
  String.length (a +:+ b) = (String.length a + String.length b)%nat.
Proof.
  induction a as [|x a IH]; [done|]. rewrite string_app_cons. simpl.
  by rewrite IH.
Qed.

Lemma string_app_inv_tail (a b c : string) : a +:+ c = b +:+ c -> a = b.
Proof.
  revert b. induction a as [|x a IH]; intros [|y b] H.
  - done.
  - apply (f_equal String.length) in H.
    rewrite ?string_app_cons in H. simpl in H.
    rewrite !string_app_length in H. simpl in H. lia.
  - apply (f_equal String.length) in H.
    rewrite ?string_app_cons in H. simpl in H.
    rewrite !string_app_length in H. simpl in H. lia.
  - rewrite !string_app_cons in H. injection H as -> H. by rewrite (IH _ H).
Qed.

Lemma rmap_lookup {A B : Type} (f : A -> result B) xs ys (i : nat) x :
  rmap f xs = Ok ys -> xs !! i = Some x ->
  exists y, ys !! i = Some y /\ f x = Ok y.
Proof.
  revert ys i. induction xs as [|x0 xs IH]; intros ys i Hmap Hi; [done|].
  simpl in Hmap. destruct (f x0) as [y0|] eqn:Hf; [|done].
  destruct (rmap f xs) as [ys0|] eqn:Hr; [|done].
  injection Hmap as <-. destruct i as [|i]; simpl in *.
  - injection Hi as <-. by exists y0.
  - by apply IH.
Qed.

Lemma rmap_length {A B : Type} (f : A -> result B) xs ys :
  rmap f xs = Ok ys -> List.length ys = List.length xs.
Proof.
  revert ys. induction xs as [|x0 xs IH]; intros ys Hmap; simpl in Hmap.
  - by injection Hmap as <-.
  - destruct (f x0) as [y0|]; [|done].
    destruct (rmap f xs) as [ys0|]; [|done].
    injection Hmap as <-. simpl. by rewrite (IH ys0).
Qed.

(** ** Label disambiguation *)

(** A labelled timepoint renders as its value, the label, and a rest that
    does not depend on the label. *)
Lemma get_timepoint_labelled t l s :
  get_timepoint t (Some l) = Ok s ->
  exists rest, forall l',
    get_timepoint t (Some l')
    = Ok (value_str (tp_value t) +:+ lab_value l' +:+ rest).
Proof.
  unfold get_timepoint.
  destruct (PyFloat.to_int _) as [n|] eqn:Hn; [|done]. intros _.
  exists (" + " +:+ string_of_Z n +:+ " - " +:+ type_name (tp_tpe t)).
  intros l'. cbv [mbind result_bind rbind label_str].
  by rewrite string_app_assoc.
Qed.

Lemma task_signature_temporal_labelled self task l s :
  task_signature_temporal self task (Some l) = Ok s ->
  exists base vs rs ve re, forall l',
    task_signature_temporal self task (Some l')
    = Ok (base ++ [vs +:+ lab_value l' +:+ rs; ve +:+ lab_value l' +:+ re]).
Proof.
  unfold task_signature_temporal, get_signature_temporal.
  destruct (get_signature self _ _) as [base|] eqn:Hsig; [|done]. simpl.
  unfold get_interval.
  destruct (get_timepoint (iv_start _) (Some l)) as [s1|] eqn:H1; [|done].
  destruct (get_timepoint (iv_end _) (Some l)) as [s2|] eqn:H2; [|done].
  intros _.
  apply get_timepoint_labelled in H1 as [rs Hrs].
  apply get_timepoint_labelled in H2 as [re Hre].
  exists base, (value_str (tp_value (iv_start (task_interval task)))), rs,
         (value_str (tp_value (iv_end (task_interval task)))), re.
  intros l'. by rewrite Hrs, Hre.
Qed.

Lemma labelled_signatures_differ self lms sigs (i j : nat) task l1 l2 :
  lower_label_mapping self lms = Ok sigs ->
  lms !! i = Some (mkLabelMappingPair l1 task) ->
  lms !! j = Some (mkLabelMappingPair l2 task) ->
  l1 <> l2 ->
  exists base vs rs ve re,
    sigs !! i
    = Some (base ++ [vs +:+ lab_value l1 +:+ rs; ve +:+ lab_value l1 +:+ re])
    /\ sigs !! j
       = Some (base ++ [vs +:+ lab_value l2 +:+ rs; ve +:+ lab_value l2 +:+ re])
    /\ sigs !! i <> sigs !! j.
Proof.
  intros Hlow Hi Hj Hne. unfold lower_label_mapping in Hlow.
  destruct (rmap_lookup _ _ _ _ _ Hlow Hi) as (s1 & Hs1 & Hf1).
  destruct (rmap_lookup _ _ _ _ _ Hlow Hj) as (s2 & Hs2 & Hf2).
  simpl in Hf1, Hf2.
  destruct (task_signature_temporal_labelled _ _ _ _ Hf1)
    as (base & vs & rs & ve & re & Hshape).
  rewrite Hshape in Hf1, Hf2. injection Hf1 as <-. injection Hf2 as <-.
  exists base, vs, rs, ve, re. rewrite Hs1, Hs2. repeat split.
  intros Heq. injection Heq as Heq. apply app_inv_head in Heq.
  injection Heq as Heq _.
  apply (inj (String.append vs)) in Heq. apply string_app_inv_tail in Heq.
  apply Hne. destruct l1, l2; simpl in Heq; by subst.
Qed.

(** C1.  In the subtask list that [add_method] hands to the builder, and in
    the task list that [set_goal] hands to it, two entries that come from
    the same task under two different labels share everything but the
    label, which sits right after the value of the start and of the end
    timepoint; the two entries are never equal. *)
Theorem C1_labels_keep_occurrences_apart :
  forall (self : ChroniclesProblem) (i j : nat) (task : HtnTask)
         (l1 l2 : HtnLabel),
    l1 <> l2 ->
    (forall (m : HtnMethod) signature constraints conditions task_sig subtasks
            subtasks_constraints,
        lower_method self m
        = Ok (BAddMethod signature constraints conditions task_sig subtasks
                subtasks_constraints) ->
        label_mapping (m_task_network m) !! i = Some (mkLabelMappingPair l1 task) ->
        label_mapping (m_task_network m) !! j = Some (mkLabelMappingPair l2 task) ->
        exists base vs rs ve re,
          subtasks !! i
          = Some (base ++ [vs +:+ lab_value l1 +:+ rs; ve +:+ lab_value l1 +:+ re])
          /\ subtasks !! j
             = Some (base ++ [vs +:+ lab_value l2 +:+ rs; ve +:+ lab_value l2 +:+ re])
          /\ subtasks !! i <> subtasks !! j)
    /\ (forall (tn : HtnTaskNetwork) tasks constraints,
           lower_goal self tn = Ok (BAddGoal tasks constraints) ->
           label_mapping tn !! i = Some (mkLabelMappingPair l1 task) ->
           label_mapping tn !! j = Some (mkLabelMappingPair l2 task) ->
           exists base vs rs ve re,
             tasks !! i
             = Some (base ++ [vs +:+ lab_value l1 +:+ rs; ve +:+ lab_value l1 +:+ re])
             /\ tasks !! j
                = Some (base ++ [vs +:+ lab_value l2 +:+ rs; ve +:+ lab_value l2 +:+ re])
             /\ tasks !! i <> tasks !! j).
Proof.
  intros self i j task l1 l2 Hne. split.
  - intros m signature constraints conditions task_sig subtasks sc Hlow Hi Hj.
    unfold lower_method in Hlow.
    destruct (get_signature_temporal self _ _ _ None); [|done].
    destruct (rmap get_constraint (m_constraints m)); [|done].
    destruct (rmap (get_condition self) _); [|done].
    destruct (get_signature self _ _); [|done].
    destruct (lower_label_mapping self _) as [sigs|] eqn:Hsigs; [|done].
    destruct (rmap get_constraint (tn_constraints _)); [|done].
    simpl in Hlow. injection Hlow as _ _ _ _ <- _.
    by eapply labelled_signatures_differ.
  - intros tn tasks constraints Hlow Hi Hj. unfold lower_goal in Hlow.
    destruct (lower_label_mapping self _) as [sigs|] eqn:Hsigs; [|done].
    destruct (rmap get_constraint (tn_constraints _)); [|done].
    simpl in Hlow. injection Hlow as <- _.
    by eapply labelled_signatures_differ.
Qed.

(** ** Phase guards *)

Lemma no_ordering_error_ok {A : Type} (a : A) : no_ordering_error (Ok a).
Proof. by intros e. Qed.

Lemma no_ordering_error_bind {A B : Type} (m : result A) (k : A -> result B) :
  no_ordering_error m -> (forall a, no_ordering_error (k a)) ->
  no_ordering_error (m ≫= k).
Proof.
  intros Hm Hk e. destruct m as [a|e']; simpl.
  - apply Hk.
  - intros [= <-]. by apply Hm.
Qed.

Lemma no_ordering_error_rmap {A B : Type} (f : A -> result B) xs :
  (forall x, no_ordering_error (f x)) -> no_ordering_error (rmap f xs).
Proof.
  intros Hf. induction xs as [|x xs IH]; simpl.
  - apply no_ordering_error_ok.
  - apply no_ordering_error_bind; [apply Hf|]. intros y.
    apply no_ordering_error_bind; [apply IH|]. intros ys.
    apply no_ordering_error_ok.
Qed.

Lemma get_timepoint_no_ordering_error t l :
  no_ordering_error (get_timepoint t l).
Proof.
  unfold get_timepoint. apply no_ordering_error_bind.
  - intros e. destruct (PyFloat.mul _ _); simpl; by intros [= <-].
  - intros n. apply no_ordering_error_ok.
Qed.

Lemma get_typed_object_no_ordering_error o :
  no_ordering_error (get_typed_object o).
Proof.
  destruct o; simpl;
    [apply no_ordering_error_ok | apply get_timepoint_no_ordering_error].
Qed.

Lemma get_interval_no_ordering_error i l :
  no_ordering_error (get_interval i l).
Proof.
  unfold get_interval.
  repeat (apply no_ordering_error_bind;
          [apply get_timepoint_no_ordering_error | intros ?]).
  apply no_ordering_error_ok.
Qed.

Lemma get_constraint_no_ordering_error c :
  no_ordering_error (get_constraint c).
Proof.
  destruct c; simpl;
    repeat (apply no_ordering_error_bind;
            [first [apply get_timepoint_no_ordering_error
                   | apply get_typed_object_no_ordering_error] | intros ?]);
    apply no_ordering_error_ok.
Qed.

Lemma check_symbol_no_ordering_error self symbol :
  symbol_table_created self = true ->
  no_ordering_error (check_symbol self symbol).
Proof.
  intros Hst. unfold check_symbol, check_symbol_table. rewrite Hst. simpl.
  destruct (set_in _ _ _); simpl; intros e; by intros [= <-].
Qed.

Lemma get_signature_no_ordering_error self symbol all_params :
  symbol_table_created self = true ->
  no_ordering_error (get_signature self symbol all_params).
Proof.
  intros Hst. unfold get_signature.
  apply no_ordering_error_bind; [by apply check_symbol_no_ordering_error|].
  intros _. apply no_ordering_error_bind.
  { unfold check_symbol_table. rewrite Hst. apply no_ordering_error_ok. }
  intros _. apply no_ordering_error_bind.
  { apply no_ordering_error_rmap, get_typed_object_no_ordering_error. }
  intros ?. apply no_ordering_error_ok.
Qed.

Lemma get_condition_no_ordering_error self c :
  symbol_table_created self = true ->
  no_ordering_error (get_condition self c).
Proof.
  intros Hst. unfold get_condition, state_variable_signature.
  apply no_ordering_error_bind; [by apply get_signature_no_ordering_error|].
  intros ?. apply no_ordering_error_bind;
    [apply get_interval_no_ordering_error|].
  intros ?. apply no_ordering_error_ok.
Qed.

Lemma get_effect_no_ordering_error self c :
  symbol_table_created self = true ->
  no_ordering_error (get_effect self c).
Proof.
  intros Hst. unfold get_effect, state_variable_signature.
  apply no_ordering_error_bind; [by apply get_signature_no_ordering_error|].
  intros ?. apply no_ordering_error_bind;
    [apply get_interval_no_ordering_error|].
  intros ?. apply no_ordering_error_ok.
Qed.

(** [min_duration_eps] always builds the temporal constraint
    [end >= start + epsilon], without labels. *)
Lemma min_duration_eps_temporal interval :
  HtnConstraintFactory.min_duration_eps interval None
  = Ok (TemporalConstraint (iv_end interval)
          (mkTimepoint (tp_class (iv_start interval)) (tp_value (iv_start interval))
             (tp_tpe (iv_start interval))
             (PyFloat.add (tp_delay (iv_start interval)) HTN_EPSILON))
          ">=" None None).
Proof. reflexivity. Qed.

Lemma lower_action_no_ordering_error self a :
  symbol_table_created self = true ->
  no_ordering_error (lower_action self a).
Proof.
  intros Hst. unfold lower_action.
  apply no_ordering_error_bind.
  { unfold task_signature_temporal, get_signature_temporal.
    apply no_ordering_error_bind; [by apply get_signature_no_ordering_error|].
    intros ?. apply no_ordering_error_bind;
      [apply get_interval_no_ordering_error|].
    intros ?. apply no_ordering_error_ok. }
  intros ?. apply no_ordering_error_bind.
  { apply no_ordering_error_rmap, get_constraint_no_ordering_error. }
  intros ?. apply no_ordering_error_bind.
  { apply no_ordering_error_rmap. intros ?.
    by apply get_condition_no_ordering_error. }
  intros ?. apply no_ordering_error_bind.
  { apply no_ordering_error_rmap. intros ?.
    by apply get_effect_no_ordering_error. }
  intros effects. apply no_ordering_error_bind.
  { destruct (Nat.ltb _ _); [|apply no_ordering_error_ok].
    rewrite min_duration_eps_temporal.
    apply no_ordering_error_bind; [apply no_ordering_error_ok|]. intros ?.
    apply no_ordering_error_bind; [apply get_constraint_no_ordering_error|].
    intros ?. apply no_ordering_error_ok. }
  intros ?. apply no_ordering_error_ok.
Qed.

(** [add_action] on an action that is not registered yet, step by step *)
Lemma add_action_unregistered a self :
  set_in primitive_task_key a (actions self) = false ->
  add_action a self
  = match check_symbol self (pt_symbol a) with
    | Raise e => (self, Raise e)
    | Ok _ =>
        match check_context self with
        | Raise e => (self, Raise e)
        | Ok _ =>
            let self1 :=
              with_actions (set_add primitive_task_key a (actions self)) self in
            match lower_action self1 a with
            | Raise e => (self1, Raise e)
            | Ok call => call_builder call self1
            end
        end
    end.
Proof.
  intros Hin. unfold add_action. rewrite Hin.
  unfold mbind, Conv_bind, conv_bind, reading, update.
  destruct (check_symbol self _); [|done].
  destruct (check_context self); [|done].
  by destruct (lower_action _ a).
Qed.

(** [create_context] consults no flag: the builder alone decides. *)
Lemma create_context_unguarded self :
  create_context self
  = if accepts (problem self) BCreateContext
    then (with_context_created true
            (with_problem (problem self ++ [BCreateContext]) self), Ok tt)
    else (self, Raise BuilderError).
Proof.
  unfold create_context, mbind, Conv_bind, conv_bind, call_builder, update.
  by destruct (accepts _ _).
Qed.

Lemma create_symbol_table_ok self self1 :
  create_symbol_table self = (self1, Ok tt) ->
  symbol_table_created self1 = true
  /\ symbols self1 = symbols self
  /\ context_created self1 = context_created self.
Proof.
  unfold create_symbol_table, mbind, Conv_bind, conv_bind, call_builder, update.
  destruct (accepts _ _); [|done]. by intros [= <-].
Qed.

Lemma create_context_ok self self1 :
  create_context self = (self1, Ok tt) ->
  context_created self1 = true
  /\ symbols self1 = symbols self
  /\ symbol_table_created self1 = symbol_table_created self.
Proof.
  rewrite create_context_unguarded.
  destruct (accepts _ _); [|done]. by intros [= <-].
Qed.

Lemma add_action_guards_open self self' a r :
  symbol_table_created self = true ->
  context_created self = true ->
  set_in symbol_key (pt_symbol a) (symbols self) = true ->
  add_action a self = (self', r) ->
  no_ordering_error r.
Proof.
  intros Ht Hc Hsym Hadd.
  destruct (set_in primitive_task_key a (actions self)) eqn:Hin.
  - unfold add_action in Hadd. rewrite Hin in Hadd.
    injection Hadd as _ <-. apply no_ordering_error_ok.
  - rewrite add_action_unregistered in Hadd by done.
    unfold check_symbol, check_symbol_table, check_context in Hadd.
    rewrite Ht, Hc in Hadd. simpl in Hadd. rewrite Hsym in Hadd.
    simpl in Hadd.
    match type of Hadd with
    | context [lower_action ?s a] =>
        pose proof (lower_action_no_ordering_error s a Ht) as Hlow;
        destruct (lower_action s a) as [call|e]
    end.
    + unfold call_builder in Hadd. destruct (accepts _ call).
      * injection Hadd as _ <-. apply no_ordering_error_ok.
      * injection Hadd as _ <-. by intros e [= <-].
    + injection Hadd as _ <-. intros e' [= <-]. by apply Hlow.
Qed.

(** C2, amended.  [create_context] checks nothing: it returns when the
    builder accepts the call and otherwise lets the builder's error
    through.  [add_action], called before [create_context] with an action
    that is not registered, changes nothing and raises
    [UncreatedSymbolTableError] when the symbol table is not created (so on
    a fresh problem), else [UnregisteredSymbolError] when the action's
    symbol is unknown, else [UncreatedContextError].  After
    [create_symbol_table] and [create_context], [add_action] with a
    registered symbol raises no ordering error. *)
Theorem C2_phase_guards :
  (forall self,
      create_context self
      = if accepts (problem self) BCreateContext
        then (with_context_created true
                (with_problem (problem self ++ [BCreateContext]) self), Ok tt)
        else (self, Raise BuilderError))
  /\ (forall self a,
         context_created self = false ->
         set_in primitive_task_key a (actions self) = false ->
         add_action a self
         = (self,
            Raise (if negb (symbol_table_created self)
                   then UncreatedSymbolTableError
                   else if negb (set_in symbol_key (pt_symbol a) (symbols self))
                   then UnregisteredSymbolError (sym_name (pt_symbol a))
                   else UncreatedContextError)))
  /\ (forall name a,
         add_action a (new_problem name)
         = (new_problem name, Raise UncreatedSymbolTableError))
  /\ (forall self self1 self2 self3 a r,
         set_in symbol_key (pt_symbol a) (symbols self) = true ->
         create_symbol_table self = (self1, Ok tt) ->
         create_context self1 = (self2, Ok tt) ->
         add_action a self2 = (self3, r) ->
         no_ordering_error r).
Proof.
  split; [apply create_context_unguarded|]. split; [|split].
  - intros self a Hctx Hin. rewrite add_action_unregistered by done.
    unfold check_symbol, check_symbol_table, check_context. rewrite Hctx.
    destruct (symbol_table_created self); simpl; [|done].
    by destruct (set_in symbol_key _ _).
  - intros name a. by rewrite add_action_unregistered.
  - intros self self1 self2 self3 a r Hsym Htable Hcontext Hadd.
    apply create_symbol_table_ok in Htable as (Ht1 & Hs1 & _).
    apply create_context_ok in Hcontext as (Hc2 & Hs2 & Ht2).
    eapply (add_action_guards_open self2); [| |by rewrite Hs2, Hs1|done];
      congruence.
Qed.

(** ** Minimum duration of actions with effects *)

(** C7.  The constraint list that [add_action] prepares is the rendering of
    the declared constraints, followed, when the action has an effect, by
    the rendering of one more constraint, [end >= start + epsilon] without
    labels, and by nothing when it has none.  A call of [add_action] that
    registers the action and returns has handed exactly these arguments to
    the builder. *)
Theorem C7_min_duration_injection :
  forall (self : ChroniclesProblem) (a : HtnPrimitiveTask),
    (forall signature constraints conditions effects,
        lower_action self a
        = Ok (BAddAction signature constraints conditions effects) ->
        exists declared,
          rmap get_constraint (pt_constraints a) = Ok declared
          /\ (pt_effects a <> [] ->
              exists e s,
                get_timepoint (iv_end (pt_interval a)) None = Ok e
                /\ (shifted ← timepoint_add (iv_start (pt_interval a))
                                (NFloat HTN_EPSILON);
                    get_timepoint shifted None) = Ok s
                /\ constraints = declared ++ [[e; ">="%string; s]])
          /\ (pt_effects a = [] -> constraints = declared))
    /\ HtnConstraintFactory.min_duration_eps (pt_interval a) None
       = (shifted ← timepoint_add (iv_start (pt_interval a)) (NFloat HTN_EPSILON);
          Ok (TemporalConstraint (iv_end (pt_interval a)) shifted ">=" None None))
    /\ (forall self',
           set_in primitive_task_key a (actions self) = false ->
           add_action a self = (self', Ok tt) ->
           exists call,
             lower_action
               (with_actions (set_add primitive_task_key a (actions self)) self) a
             = Ok call
             /\ problem self' = problem self ++ [call]).
Proof.
  intros self a. split; [|split].
  - intros signature constraints conditions effects Hlow.
    unfold lower_action in Hlow.
    destruct (task_signature_temporal self _ None); [|done].
    destruct (rmap get_constraint (pt_constraints a)) as [declared|]; [|done].
    destruct (rmap (get_condition self) _); [|done].
    destruct (rmap (get_effect self) (pt_effects a)) as [rendered|] eqn:Heff;
      [|done].
    apply rmap_length in Heff. simpl in Hlow.
    exists declared. split; [done|].
    destruct (pt_effects a) as [|eff effs] eqn:Hpt.
    + destruct rendered; [|done]. simpl in Hlow. injection Hlow as _ <- _ _.
      split; [done|]. done.
    + destruct rendered as [|r rs]; [done|]. split; [|done]. intros _.
      simpl in Hlow.
      destruct (get_timepoint (iv_end (pt_interval a)) None) as [e|]; [|done].
      simpl in Hlow. simpl.
      destruct (get_timepoint _ None) as [s0|]; [|done]. simpl in Hlow.
      injection Hlow as _ <- _ _. by exists e, s0.
  - reflexivity.
  - intros self' Hin Hadd. rewrite add_action_unregistered in Hadd by done.
    destruct (check_symbol self _); [|done].
    destruct (check_context self); [|done]. simpl in Hadd.
    destruct (lower_action _ a) as [call|]; [|done].
    exists call. split; [done|].
    unfold call_builder in Hadd. destruct (accepts _ call); [|done].
    by injection Hadd as <-.
Qed.

(** ** Idempotent registration *)

Lemma add_type_step n p self :
  add_type (mkHtnType n p) self
  = if set_in type_key (mkHtnType n p) (types self) then (self, Ok tt)
    else
      let self1 :=
        with_types (set_add type_key (mkHtnType n p) (types self)) self in
      let call :=
        BAddType n (match p with Some q => Some (type_name q) | None => None end) in
      if accepts (problem self1) call then
        match p with
        | Some q => add_type q (with_problem (problem self1 ++ [call]) self1)
        | None => (with_problem (problem self1 ++ [call]) self1, Ok tt)
        end
      else (self1, Raise BuilderError).
Proof.
  simpl. destruct (set_in type_key _ _); [done|].
  unfold mbind, Conv_bind, conv_bind, call_builder, update. simpl.
  destruct (accepts _ _); [|done]. by destruct p.
Qed.

(** What [add_type] leaves alone, and what it only extends *)
Lemma add_type_frame t self :
  let self' := (add_type t self).1 in
  constants self' = constants self
  /\ variables self' = variables self
  /\ symbols self' = symbols self
  /\ (forall x, set_in type_key x (types self) = true ->
                set_in type_key x (types self') = true).
Proof.
  revert self. induction t as [n|n p IH] using HtnType_chain_ind; intros self;
    rewrite add_type_step; simpl;
    destruct (set_in type_key _ (types self)) eqn:Hin; simpl; try done;
    destruct (accepts _ _); simpl;
    try (repeat split; try done; intros x Hx; by apply set_in_add_mono).
  match goal with
  | |- context [add_type p ?s] => destruct (IH s) as (Hc & Hv & Hs & Ht)
  end.
  rewrite Hc, Hv, Hs. repeat split; try done.
  intros x Hx. apply Ht. simpl. by apply set_in_add_mono.
Qed.

Lemma add_type_registers t self :
  set_in type_key t (types (add_type t self).1) = true.
Proof.
  destruct t as [n p]. rewrite add_type_step.
  destruct (set_in type_key _ (types self)) eqn:Hin; [done|]. simpl.
  destruct (accepts _ _); simpl; [|apply set_in_add_same].
  destruct p as [q|]; simpl; [|apply set_in_add_same].
  apply add_type_frame. simpl. apply set_in_add_same.
Qed.

Lemma add_symbol_frame symbol symbol_type htn_type self :
  let self' := (add_symbol symbol symbol_type htn_type self).1 in
  constants self' = constants self
  /\ set_in symbol_key symbol (symbols self') = true.
Proof.
  unfold add_symbol.
  destruct (set_in symbol_key symbol (symbols self)) eqn:Hin; [done|].
  unfold mbind, Conv_bind, conv_bind, update, call_builder, reading.
  destruct symbol_type; simpl;
    try destruct htn_type; simpl;
    try destruct (accepts _ _); simpl;
    (split; [done | apply set_in_add_same]).
Qed.

Lemma add_constant_registers c self :
  set_in obj_key c (constants (add_constant c self).1) = true.
Proof.
  unfold add_constant.
  destruct (set_in obj_key c (constants self)) eqn:Hin; [done|].
  unfold mbind, Conv_bind, conv_bind, update.
  match goal with
  | |- context [add_type ?t ?s] =>
      destruct (add_type_frame t s) as (Hc & _);
      destruct (add_type t s) as [s1 [[]|e]] eqn:Ht
  end; simpl in *.
  - match goal with
    | |- context [add_symbol ?a ?b ?c ?s] =>
        destruct (add_symbol_frame a b c s) as (Hc' & _);
        destruct (add_symbol a b c s) as [s2 [[]|e]]
    end; simpl in *; rewrite Hc', Hc; apply set_in_add_same.
  - rewrite Hc. apply set_in_add_same.
Qed.

Lemma add_variable_registers v self :
  set_in obj_key v (variables (add_variable v self).1) = true.
Proof.
  unfold add_variable.
  destruct (set_in obj_key v (variables self)) eqn:Hin; [done|].
  unfold mbind, Conv_bind, conv_bind, update.
  match goal with
  | |- context [add_type ?t ?s] =>
      destruct (add_type_frame t s) as (_ & Hv & _);
      destruct (add_type t s) as [s1 [[]|e]] eqn:Ht
  end; simpl in *; rewrite Hv; apply set_in_add_same.
Qed.

(** [add_method] on a method that is not registered yet, step by step *)
Lemma add_method_unregistered m self :
  set_in method_key m (methods self) = false ->
  add_method m self
  = match check_symbol self (m_symbol m) with
    | Raise e => (self, Raise e)
    | Ok _ =>
        match check_context self with
        | Raise e => (self, Raise e)
        | Ok _ =>
            let self1 := with_methods (set_add method_key m (methods self)) self in
            match lower_method self1 m with
            | Raise e => (self1, Raise e)
            | Ok call => call_builder call self1
            end
        end
    end.
Proof.
  intros Hin. unfold add_method. rewrite Hin.
  unfold mbind, Conv_bind, conv_bind, reading, update.
  destruct (check_symbol self _); [|done].
  destruct (check_context self); [|done].
  by destruct (lower_method _ m).
Qed.


(** ** The language of a domain *)

Lemma language_le_refl l : language_le l l.
Proof. by repeat split. Qed.

Lemma language_le_trans l1 l2 l3 :
  language_le l1 l2 -> language_le l2 l3 -> language_le l1 l3.
Proof.
  intros (A1 & A2 & A3 & A4 & A5 & A6) (B1 & B2 & B3 & B4 & B5 & B6).
  repeat split; eauto.
Qed.

Lemma domain_le_refl d : domain_le d d.
Proof. by repeat split. Qed.

Lemma domain_le_trans d1 d2 d3 :
  domain_le d1 d2 -> domain_le d2 d3 -> domain_le d1 d3.
Proof.
  intros (A1 & A2 & A3 & A4) (B1 & B2 & B3 & B4).
  split; [by eapply language_le_trans|]. repeat split; eauto.
Qed.

Lemma language_has_task_mono l l' task :
  language_le l l' -> language_has_task l task -> language_has_task l' task.
Proof.
  intros (A1 & A2 & A3 & A4 & A5 & A6) (B1 & B2 & B3 & B4).
  repeat split; eauto. destruct task; eauto.
Qed.

Lemma domain_has_task_mono d d' task :
  domain_le d d' -> domain_has_task d task -> domain_has_task d' task.
Proof. intros (_ & A2 & A3 & _). destruct task; simpl; eauto. Qed.

Lemma language_add_task_le l task : language_le l (language_add_task l task).
Proof.
  destruct task; simpl; repeat split; simpl; intros x Hx;
    auto using set_in_update_mono, set_in_add_mono.
Qed.

(** Only the name of a symbol matters when it is looked up. *)
Lemma set_in_symbol_name a b s :
  sym_name a = sym_name b ->
  set_in symbol_key a s = true -> set_in symbol_key b s = true.
Proof.
  intros Hab Ha. unfold set_in in *.
  apply existsb_exists in Ha as (stored & Hs & Hm). apply existsb_exists.
  exists stored. split; [done|].
  unfold key_match in *; simpl in *.
  apply andb_true_iff in Hm as [Hh He]. apply andb_true_iff.
  unfold symbol_hash, symbol_eq in *. rewrite <- Hab. split; [done|].
  apply orb_true_iff. right.
  apply orb_true_iff in He as [He|He]; [|done].
  apply bool_decide_eq_true_1 in He as ->. apply String.eqb_refl.
Qed.

Lemma state_variable_match_symbol stored sv :
  key_match state_variable_key stored sv = true ->
  sym_name (sv_symbol stored) = sym_name (sv_symbol sv).
Proof.
  unfold key_match; simpl. intros Hm.
  apply andb_true_iff in Hm as [_ He].
  apply orb_true_iff in He as [He|He].
  - by apply bool_decide_eq_true_1 in He as ->.
  - unfold state_variable_eq, symbol_eq in He.
    apply andb_true_iff in He as [He _]. apply andb_true_iff in He as [He _].
    by apply String.eqb_eq.
Qed.

Section Closure.
(** Iterating over a set visits every element of it. *)
Hypothesis sv_iteration_complete :
  forall (s : list HtnStateVariable) x, x ∈ s -> x ∈ sv_iteration s.

Lemma state_variable_symbols_registered svs sv stvars :
  sv ∈ svs ->
  set_in symbol_key (sv_symbol sv)
    (set_update symbol_key
       (map sv_symbol (sv_iteration (set_of state_variable_key svs))) stvars)
  = true.
Proof.
  intros Hin.
  destruct (set_update_represented state_variable_key sv svs [] Hin)
    as (stored & Hs & Hm).
  apply sv_iteration_complete in Hs.
  apply (set_in_symbol_name (sv_symbol stored));
    [by apply state_variable_match_symbol|].
  apply set_in_update_elem, list_elem_of_fmap. by exists stored.
Qed.

Lemma language_add_task_has l task :
  language_has_task (language_add_task l task) task.
Proof.
  destruct task as [p|c]; simpl; repeat split; simpl.
  - apply set_in_add_same.
  - intros x Hx Hv. apply set_in_update_elem.
    unfold param_variables. by apply list_elem_of_filter.
  - intros x Hx Hc. apply set_in_update_elem.
    unfold param_constants. by apply list_elem_of_filter.
  - intros p' [= <-] sv Hsv. unfold pt_state_variables.
    by apply state_variable_symbols_registered.
  - apply set_in_add_same.
  - intros x Hx Hv. apply set_in_update_elem.
    unfold param_variables. by apply list_elem_of_filter.
  - intros x Hx Hc. apply set_in_update_elem.
    unfold param_constants. by apply list_elem_of_filter.
  - done.
Qed.

Lemma domain_add_task_le d task : domain_le d (domain_add_task d task).
Proof.
  destruct task as [p|c]; unfold domain_le; simpl.
  - split; [apply (language_add_task_le _ (Primitive p))|].
    repeat split; try done. intros x Hx. by apply set_in_add_mono.
  - split; [apply (language_add_task_le _ (Compound c))|].
    repeat split; try done. intros x Hx. by apply set_in_add_mono.
Qed.

Lemma domain_add_task_has d task :
  language_has_task (L (domain_add_task d task)) task
  /\ domain_has_task (domain_add_task d task) task.
Proof.
  destruct task as [p|c].
  - split; [apply (language_add_task_has _ (Primitive p))|].
    simpl. apply set_in_add_same.
  - split; [apply (language_add_task_has _ (Compound c))|].
    simpl. apply set_in_add_same.
Qed.

Lemma domain_add_tasks_le lms d :
  domain_le d
    (fold_left (fun self lmp => domain_add_task self (lmp_task lmp)) lms d).
Proof.
  revert d. induction lms as [|lmp lms IH]; intros d; simpl.
  - apply domain_le_refl.
  - eapply domain_le_trans; [apply domain_add_task_le | apply IH].
Qed.

Lemma domain_add_tasks_has lms d lmp :
  lmp ∈ lms ->
  let d' :=
    fold_left (fun self lmp => domain_add_task self (lmp_task lmp)) lms d in
  language_has_task (L d') (lmp_task lmp) /\ domain_has_task d' (lmp_task lmp).
Proof.
  revert d. induction lms as [|lmp0 lms IH]; intros d Hin; simpl.
  - by apply elem_of_nil in Hin.
  - apply elem_of_cons in Hin as [->|Hin]; [|by apply IH].
    destruct (domain_add_task_has d (lmp_task lmp0)) as [Hl Hd].
    pose proof (domain_add_tasks_le lms (domain_add_task d (lmp_task lmp0)))
      as Hle.
    split; [eapply language_has_task_mono; [apply Hle | done]|].
    by eapply domain_has_task_mono.
Qed.

(** The loop of [HtnLanguage.add_method] *)
Lemma language_add_labels_le lms l :
  language_le l
    (fold_left
       (fun self lmp =>
          language_add_task
            (mkLanguage (Vars self) (Csts self) (StVars self) (Prims self)
               (Comps self) (set_add label_key (lmp_label lmp) (Labs self)))
            (lmp_task lmp))
       lms l).
Proof.
  revert l. induction lms as [|lmp lms IH]; intros l; simpl.
  - apply language_le_refl.
  - eapply language_le_trans; [|apply IH].
    eapply language_le_trans; [|apply language_add_task_le].
    repeat split; simpl; try done. intros x Hx. by apply set_in_add_mono.
Qed.

Lemma language_add_labels_has lms l lmp :
  lmp ∈ lms ->
  set_in label_key (lmp_label lmp)
    (Labs (fold_left
       (fun self lmp =>
          language_add_task
            (mkLanguage (Vars self) (Csts self) (StVars self) (Prims self)
               (Comps self) (set_add label_key (lmp_label lmp) (Labs self)))
            (lmp_task lmp))
       lms l)) = true.
Proof.
  revert l. induction lms as [|lmp0 lms IH]; intros l Hin; simpl.
  - by apply elem_of_nil in Hin.
  - apply elem_of_cons in Hin as [->|Hin]; [|by apply IH].
    apply language_add_labels_le.
    apply (language_add_task_le _ (lmp_task lmp0)). simpl.
    apply set_in_add_same.
Qed.

Lemma language_add_method_has l m :
  let l' := language_add_method l m in
  language_has_task l' (Compound (m_task m))
  /\ (forall c, c ∈ m_conditions m ->
        set_in symbol_key (sv_symbol (cond_sv c)) (StVars l') = true)
  /\ (forall lmp, lmp ∈ label_mapping (m_task_network m) ->
        set_in label_key (lmp_label lmp) (Labs l') = true).
Proof.
  unfold language_add_method. simpl. split; [|split].
  - eapply language_has_task_mono; [apply language_add_labels_le|].
    eapply language_has_task_mono;
      [|apply (language_add_task_has l (Compound (m_task m)))].
    repeat split; simpl; try done. intros x Hx. by apply set_in_update_mono.
  - intros c Hc. apply language_add_labels_le. simpl.
    unfold m_state_variables. apply state_variable_symbols_registered.
    apply list_elem_of_fmap. by exists c.
  - intros lmp Hin. by apply language_add_labels_has.
Qed.

End Closure.

(** ** Further properties of [htn.py] *)

(** *** Equality *)

Lemma type_eq_chain t u : type_eq t u = true <-> type_chain t = type_chain u.
Proof.
  rewrite type_eq_eq. split; [by intros ->|].
  revert u.
  induction t as [n|n p IH] using HtnType_chain_ind; intros [m [q|]]; simpl.
  - destruct q as [? [?|]]; discriminate.
  - by intros [= ->].
  - intros [= -> H]. by rewrite (IH _ H).
  - destruct p as [? [?|]]; discriminate.
Qed.

(** X1.  [HtnType.__eq__] holds exactly when the two types have the same
    name and the same names of ancestors, up to the root; it is reflexive,
    symmetric and transitive. *)
Theorem X1_type_equality :
  (forall t u, type_eq t u = true <-> type_chain t = type_chain u)
  /\ (forall t, type_eq t t = true)
  /\ (forall t u, type_eq t u = type_eq u t)
  /\ (forall t u v, type_eq t u = true -> type_eq u v = true ->
                    type_eq t v = true).
Proof.
  split; [apply type_eq_chain|]. split; [apply type_eq_refl|]. split.
  - intros t u. destruct (type_eq t u) eqn:Htu, (type_eq u t) eqn:Hut; try done.
    + apply type_eq_eq in Htu as ->. by rewrite type_eq_refl in Hut.
    + apply type_eq_eq in Hut as ->. by rewrite type_eq_refl in Htu.
  - intros t u v Htu Huv. apply type_eq_eq in Htu as ->. done.
Qed.

Lemma value_eq_sym a b : value_eq a b = value_eq b a.
Proof.
  destruct a as [s|x|c], b as [t|y|d]; simpl; try reflexivity.
  - apply String.eqb_sym.
  - apply Z.eqb_sym.
  - apply Z.eqb_sym.
  - apply Z.eqb_sym.
  - by destruct c, d.
Qed.

Lemma type_eq_sym t u : type_eq t u = type_eq u t.
Proof.
  destruct (type_eq t u) eqn:Htu, (type_eq u t) eqn:Hut; try done.
  - apply type_eq_eq in Htu as ->. by rewrite type_eq_refl in Hut.
  - apply type_eq_eq in Hut as ->. by rewrite type_eq_refl in Htu.
Qed.

Lemma typed_object_eq_sym x y : typed_object_eq x y = typed_object_eq y x.
Proof.
  unfold typed_object_eq.
  by rewrite (value_eq_sym (obj_value y)), (type_eq_sym (obj_tpe y)).
Qed.

(** X2.  [==] on typed objects is symmetric as long as neither side is a
    direct instance of [HtnTimepoint]. *)
Theorem X2_typed_object_equality_symmetric (x y : HtnTypedObject) :
  class_of x <> CTimepoint -> class_of y <> CTimepoint ->
  py_eq x y = py_eq y x.
Proof.
  intros Hx Hy.
  destruct x as [kx vx tx|[kx vx tx dx]], y as [ky vy ty|[ky vy ty dy]].
  - unfold py_eq, eq_method.
    rewrite (typed_object_eq_sym (Plain ky vy ty)).
    by destruct kx, ky.
  - destruct ky; [done| |];
      unfold py_eq, eq_method; simpl;
      rewrite (typed_object_eq_sym (Plain kx vx tx)); by destruct kx.
  - destruct kx; [done| |];
      unfold py_eq, eq_method; simpl;
      rewrite (typed_object_eq_sym (Plain ky vy ty)); by destruct ky.
  - destruct kx, ky; try done; unfold py_eq, eq_method; simpl;
      rewrite ?(value_eq_sym vy), ?(type_eq_sym ty), ?(SFeqb_sym dy);
      try reflexivity;
      unfold PyFloat.eqb; rewrite ?(SFeqb_sym dy); try reflexivity;
      apply bool_decide_ext; split; congruence.
Qed.

(** *** The interval factory *)

Lemma string_of_Z_inj a b : string_of_Z a = string_of_Z b -> a = b.
Proof.
  assert (Hnil : forall z, Z.to_int z <> Decimal.Pos Decimal.Nil
                           /\ Z.to_int z <> Decimal.Neg Decimal.Nil).
  { intros z. split; intros H; pose proof (f_equal Z.of_int H) as H';
      rewrite DecimalZ.of_to in H'; simpl in H'; subst z; discriminate. }
  unfold string_of_Z. intros H.
  apply (f_equal NilZero.int_of_string) in H.
  rewrite !NilZero.isi in H by apply Hnil.
  injection H as H. by apply DecimalZ.to_int_inj.
Qed.

Lemma made_timepoints_differ a b (n m : Z) :
  n <> m ->
  py_eq (TP (mkTimepoint KTimepoint
               (VStr ("__" +:+ String a "__" +:+ string_of_Z n))
               HTN_TIMEPOINT PyFloat.zero))
        (TP (mkTimepoint KTimepoint
               (VStr ("__" +:+ String b "__" +:+ string_of_Z m))
               HTN_TIMEPOINT PyFloat.zero)) = false.
Proof.
  intros Hne. cbv -[string_of_Z String.eqb Ascii.eqb].
  destruct (String.eqb_spec
              (String "_" (String "_" (String b (String "_" (String "_"
                 (string_of_Z m))))))
              (String "_" (String "_" (String a (String "_" (String "_"
                 (string_of_Z n))))))) as [Heq|_]; [|reflexivity].
  injection Heq as _ Heq. apply string_of_Z_inj in Heq. congruence.
Qed.

Lemma make_single a b (n : Z) :
  HtnTemporalIntervalFactory._make (String a "") (String b "") n
  = (mkInterval
       (mkTimepoint KTimepoint (VStr ("__" +:+ String a "__" +:+ string_of_Z n))
          HTN_TIMEPOINT PyFloat.zero)
       (mkTimepoint KTimepoint
          (VStr ("__" +:+ String b "__" +:+ string_of_Z (n + 1)))
          HTN_TIMEPOINT PyFloat.zero),
     n + 2).
Proof.
  unfold HtnTemporalIntervalFactory._make. f_equal. lia.
Qed.

Lemma factory_constructor_single (make : Z -> HtnTemporalInterval * Z) :
  make ∈ [HtnTemporalIntervalFactory.default; HtnTemporalIntervalFactory.at_start;
          HtnTemporalIntervalFactory.at_end; HtnTemporalIntervalFactory.over_all] ->
  exists a b,
    make = HtnTemporalIntervalFactory._make (String a "") (String b "").
Proof.
  intros H.
  repeat (apply elem_of_cons in H as [->|H]; [by eexists _, _|]).
  by apply elem_of_nil in H.
Qed.

(** X3.  Each of [default], [at_start], [at_end] and [over_all] moves the
    counter on by two and returns an interval whose two timepoints are
    different; the timepoints of two intervals made at counters at least two
    apart, as two calls in a row are, are all different. *)
Theorem X3_factory_timepoints_are_fresh :
  forall make make' : Z -> HtnTemporalInterval * Z,
    let constructors :=
      [HtnTemporalIntervalFactory.default; HtnTemporalIntervalFactory.at_start;
       HtnTemporalIntervalFactory.at_end; HtnTemporalIntervalFactory.over_all] in
    make ∈ constructors -> make' ∈ constructors ->
    forall n m : Z,
      n + 2 <= m ->
      (make n).2 = n + 2
      /\ py_eq (TP (iv_start (make n).1)) (TP (iv_end (make n).1)) = false
      /\ forall a b,
          a ∈ [iv_start (make n).1; iv_end (make n).1] ->
          b ∈ [iv_start (make' m).1; iv_end (make' m).1] ->
          py_eq (TP a) (TP b) = false /\ py_eq (TP b) (TP a) = false.
Proof.
  intros make make' constructors Hmake Hmake' n m Hnm.
  apply factory_constructor_single in Hmake as (a & b & ->).
  apply factory_constructor_single in Hmake' as (a' & b' & ->).
  rewrite !make_single. simpl. split; [reflexivity|]. split.
  - apply made_timepoints_differ. lia.
  - intros x y Hx Hy.
    apply elem_of_cons in Hx as [->|Hx];
      [|apply elem_of_cons in Hx as [->|Hx]; [|by apply elem_of_nil in Hx]];
      (apply elem_of_cons in Hy as [->|Hy];
       [|apply elem_of_cons in Hy as [->|Hy]; [|by apply elem_of_nil in Hy]]);
      split; apply made_timepoints_differ; lia.
Qed.

Lemma substring_0_0 s : String.substring 0 0 s = "".
Proof. by destruct s. Qed.

(** X4.  The intervals of the factory print as the PDDL keywords, whatever
    the counter, and keep printing so once a number is added to them:
    nothing for [default], [at-start], [at-end] and [over-all] with a
    trailing space for the other three. *)
Theorem X4_factory_intervals_print_as_keywords :
  forall (n : Z) (d : PyNum) (f : float),
    to_float d = Ok f ->
    let printed make := interval_str (make n).1 in
    let shifted make :=
      i ← interval_add (make n).1 d; interval_str i in
    (printed HtnTemporalIntervalFactory.default = Ok ""
     /\ shifted HtnTemporalIntervalFactory.default = Ok "")
    /\ (printed HtnTemporalIntervalFactory.at_start = Ok "at-start "
        /\ shifted HtnTemporalIntervalFactory.at_start = Ok "at-start ")
    /\ (printed HtnTemporalIntervalFactory.at_end = Ok "at-end "
        /\ shifted HtnTemporalIntervalFactory.at_end = Ok "at-end ")
    /\ (printed HtnTemporalIntervalFactory.over_all = Ok "over-all "
        /\ shifted HtnTemporalIntervalFactory.over_all = Ok "over-all ").
Proof.
  intros n d f Hf printed shifted. subst printed shifted.
  unfold HtnTemporalIntervalFactory.default, HtnTemporalIntervalFactory.at_start,
    HtnTemporalIntervalFactory.at_end, HtnTemporalIntervalFactory.over_all,
    HtnTemporalIntervalFactory._make, interval_add, timepoint_add.
  rewrite Hf. simpl. unfold interval_str, timepoint_str. simpl.
  repeat match goal with
         | |- context [PyFloat.eqb ?x PyFloat.zero] =>
             destruct (PyFloat.eqb x PyFloat.zero)
         end; simpl; rewrite ?substring_0_0; repeat split; reflexivity.
Qed.
(** X5.  On a boolean state variable, the first effect of [dirac_at_start]
    holds on the at-start interval moved back by epsilon and the second on
    the at-start interval itself, while the first effect of [dirac_at_end]
    holds on the at-end interval itself, its delay being back at zero, and
    the second on the at-end interval moved on by epsilon.  On any other
    state variable both raise [TypeError].  The counter moves on by two in
    every case. *)
Theorem X5_dirac_at_start_and_at_end :
  forall (sv : HtnStateVariable) (value : HtnTypedObject) (n : Z),
    let made id (delay : float) :=
      mkInterval
        (mkTimepoint KTimepoint (VStr ("__" +:+ id +:+ "__" +:+ string_of_Z n))
           HTN_TIMEPOINT delay)
        (mkTimepoint KTimepoint
           (VStr ("__" +:+ id +:+ "__" +:+ string_of_Z (n + 1)))
           HTN_TIMEPOINT delay) in
    let opposition := if py_eq value HTN_FALSE then HTN_TRUE else HTN_FALSE in
    (type_eq (sv_tpe sv) HTN_BOOLEAN = true ->
     dirac_at_start sv value n
     = (Ok (mkEffect sv value (made "s" (PyFloat.neg HTN_EPSILON)),
            mkEffect sv opposition (made "s" PyFloat.zero)),
        n + 2)
     /\ dirac_at_end sv value n
        = (Ok (mkEffect sv value (made "e" PyFloat.zero),
               mkEffect sv opposition (made "e" HTN_EPSILON)),
           n + 2))
    /\ (type_eq (sv_tpe sv) HTN_BOOLEAN = false ->
        dirac_at_start sv value n = (Raise TypeError, n + 2)
        /\ dirac_at_end sv value n = (Raise TypeError, n + 2)).
Proof.
  intros sv value n made opposition. subst made opposition.
  assert (Hback : PyFloat.add PyFloat.zero (PyFloat.neg HTN_EPSILON)
                  = PyFloat.neg HTN_EPSILON) by (vm_compute; reflexivity).
  assert (Hon : PyFloat.add PyFloat.zero HTN_EPSILON = HTN_EPSILON)
    by (vm_compute; reflexivity).
  assert (Hround : PyFloat.add HTN_EPSILON (PyFloat.neg HTN_EPSILON)
                   = PyFloat.zero) by (vm_compute; reflexivity).
  assert (Hn : n + 1 + 1 = n + 2) by lia.
  unfold dirac_at_start, dirac_at_end, HtnTemporalIntervalFactory.at_start,
    HtnTemporalIntervalFactory.at_end, HtnTemporalIntervalFactory._make, dirac,
    interval_add, interval_sub, timepoint_sub, timepoint_add.
  cbn [to_float num_neg mbind result_bind rbind iv_start iv_end tp_class
         tp_value tp_tpe tp_delay].
  rewrite Hn, Hon.
  split; intros ->; cbn [negb mbind result_bind rbind iv_start iv_end tp_class
         tp_value tp_tpe tp_delay]; [|done].
  by rewrite Hback, Hround.
Qed.

(** *** Hidden parameters *)

Lemma list_contains_app {A : Type} `{EqDecision A} (eq : A -> A -> bool)
    (x : A) (l1 l2 : list A) :
  list_contains eq x (l1 ++ l2) = list_contains eq x l1 || list_contains eq x l2.
Proof. apply existsb_app. Qed.

Lemma list_contains_last {A : Type} `{EqDecision A} (eq : A -> A -> bool)
    (x : A) (l : list A) :
  list_contains eq x (l ++ [x]) = true.
Proof.
  rewrite list_contains_app. apply orb_true_iff. right. simpl.
  by rewrite bool_decide_eq_true_2.
Qed.

Lemma append_missing_spec sv_params :
  forall all_params,
  exists hidden,
    append_missing all_params sv_params = all_params ++ hidden
    /\ (forall before x after,
           hidden = before ++ x :: after ->
           list_contains py_eq x (all_params ++ before) = false
           /\ x ∈ sv_params)
    /\ (forall y, y ∈ sv_params ->
                  list_contains py_eq y (all_params ++ hidden) = true).
Proof.
  induction sv_params as [|y ys IH]; intros acc.
  - exists []. split; [by rewrite app_nil_r|]. split.
    + intros [|]; discriminate.
    + intros y Hy. by apply elem_of_nil in Hy.
  - unfold append_missing. simpl.
    destruct (list_contains py_eq y acc) eqn:Hy; simpl.
    + destruct (IH acc) as (hidden & Heq & Hnew & Hall).
      exists hidden. split; [exact Heq|]. split.
      * intros before x after Hsplit.
        destruct (Hnew _ _ _ Hsplit) as [Hx Hin]. split; [done|].
        by apply list_elem_of_further.
      * intros z Hz. apply elem_of_cons in Hz as [->|Hz]; [|by apply Hall].
        rewrite list_contains_app, Hy. done.
    + destruct (IH (acc ++ [y])) as (hidden & Heq & Hnew & Hall).
      exists (y :: hidden). split; [|split].
      * unfold append_missing in Heq. rewrite Heq.
        by rewrite <- app_assoc.
      * intros [|b before] x after Hsplit; simpl in Hsplit.
        -- injection Hsplit as <- _. rewrite app_nil_r. split; [done|].
           apply list_elem_of_here.
        -- injection Hsplit as <- Hsplit.
           destruct (Hnew _ _ _ Hsplit) as [Hx Hin].
           rewrite <- app_assoc in Hx. split; [exact Hx|].
           by apply list_elem_of_further.
      * intros z Hz.
        replace (acc ++ y :: hidden) with ((acc ++ [y]) ++ hidden)
          by (by rewrite <- app_assoc).
        apply elem_of_cons in Hz as [->|Hz]; [|by apply Hall].
        rewrite list_contains_app, list_contains_last. done.
Qed.

(** X6.  [HtnPrimitiveTask.all_params] is the explicit [params], in their
    order, followed by hidden ones: each hidden parameter is a parameter of
    a state variable of the task and was appended because no element before
    it equals it; and every parameter of every state variable of the task
    is found in the result. *)
Theorem X6_all_params_of_primitive_task (p : HtnPrimitiveTask) :
  exists hidden,
    pt_all_params p = pt_params p ++ hidden
    /\ (forall before x after,
           hidden = before ++ x :: after ->
           list_contains py_eq x (pt_params p ++ before) = false
           /\ exists sv, sv ∈ sv_iteration (pt_state_variables p)
                         /\ x ∈ sv_params sv)
    /\ (forall sv x,
           sv ∈ sv_iteration (pt_state_variables p) -> x ∈ sv_params sv ->
           list_contains py_eq x (pt_all_params p) = true).
Proof.
  unfold pt_all_params.
  destruct (append_missing_spec
              (flat_map sv_params (sv_iteration (pt_state_variables p)))
              (pt_params p)) as (hidden & Heq & Hnew & Hall).
  exists hidden. split; [exact Heq|]. split.
  - intros before x after Hsplit.
    destruct (Hnew _ _ _ Hsplit) as [Hx Hin]. split; [exact Hx|].
    apply list_elem_of_In, in_flat_map in Hin as (sv & Hsv & Hin).
    exists sv. split; by apply list_elem_of_In.
  - intros sv x Hsv Hx. rewrite Heq. apply Hall.
    apply list_elem_of_In, in_flat_map. exists sv.
    split; by apply list_elem_of_In.
Qed.

(** *** Languages and domains only grow *)

Lemma set_update_absorb {A : Type} `{EqDecision A} (K : Key A) (ys s : list A) :
  (forall y, y ∈ ys -> set_in K y s = true) -> set_update K ys s = s.
Proof.
  unfold set_update. induction ys as [|y ys IH]; intros Hall; [done|]. simpl.
  rewrite set_add_member by (apply Hall, list_elem_of_here).
  apply IH. intros z Hz. by apply Hall, list_elem_of_further.
Qed.

Lemma set_update_twice {A : Type} `{EqDecision A} (K : Key A) (ys s : list A) :
  set_update K ys (set_update K ys s) = set_update K ys s.
Proof. apply set_update_absorb. intros y Hy. by apply set_in_update_elem. Qed.

Lemma set_in_add_keeps {A : Type} `{EqDecision A} (K : Key A) (x y : A) s :
  set_in K x s = true -> set_in K x (set_add K y s) = true.
Proof. apply set_in_add_mono. Qed.

Lemma language_merge_le l other : language_le l (language_merge l other).
Proof. repeat split; simpl; intros x Hx; by apply set_in_update_mono. Qed.

Lemma language_add_typed_object_le l o :
  language_le l (language_add_typed_object l o).1.
Proof.
  unfold language_add_typed_object.
  destruct (is_constant o); [|destruct (is_variable o)];
    repeat split; simpl; intros x Hx; auto using set_in_add_mono.
Qed.

Lemma language_add_method_le l m : language_le l (language_add_method l m).
Proof.
  unfold language_add_method.
  eapply language_le_trans; [|apply language_add_labels_le].
  eapply language_le_trans; [apply (language_add_task_le _ (Compound (m_task m)))|].
  repeat split; simpl; intros x Hx; auto using set_in_update_mono.
Qed.

Lemma domain_add_method_le d m : domain_le d (domain_add_method d m).
Proof.
  unfold domain_add_method.
  eapply domain_le_trans; [|apply domain_add_tasks_le].
  split; [apply language_add_method_le|].
  repeat split; simpl; try done. intros x Hx. by apply set_in_add_mono.
Qed.

(** X7.  Nothing that is found in a language or in a domain is lost:
    [add_typed_object], [add_task], [add_method] and [merge] leave every
    element that was found in one of the sets found in it afterwards. *)
Theorem X7_language_and_domain_only_grow :
  (forall l o, language_le l (language_add_typed_object l o).1)
  /\ (forall l task, language_le l (language_add_task l task))
  /\ (forall l m, language_le l (language_add_method l m))
  /\ (forall l other, language_le l (language_merge l other))
  /\ (forall d task, domain_le d (domain_add_task d task))
  /\ (forall d m, domain_le d (domain_add_method d m))
  /\ (forall d other, domain_le d (domain_merge d other)).
Proof.
  split; [apply language_add_typed_object_le|].
  split; [apply language_add_task_le|].
  split; [apply language_add_method_le|].
  split; [apply language_merge_le|].
  split; [apply domain_add_task_le|].
  split; [apply domain_add_method_le|].
  intros d other. split; [apply language_merge_le|].
  repeat split; simpl; intros x Hx; by apply set_in_update_mono.
Qed.

Lemma language_merge_twice l other :
  language_merge (language_merge l other) other = language_merge l other.
Proof.
  unfold language_merge. simpl. by rewrite !set_update_twice.
Qed.

(** X8.  Merging the same language, or the same domain, a second time
    changes nothing; and a language merged into itself is unchanged, when
    iterating a set yields only elements of the set. *)
Theorem X8_merge_is_idempotent :
  (forall l other,
      language_merge (language_merge l other) other = language_merge l other)
  /\ (forall d other,
         domain_merge (domain_merge d other) other = domain_merge d other)
  /\ ((forall s x, x ∈ obj_iteration s -> x ∈ s) ->
      (forall s x, x ∈ symbol_iteration s -> x ∈ s) ->
      (forall s x, x ∈ label_iteration s -> x ∈ s) ->
      forall l, language_merge l l = l).
Proof.
  split; [apply language_merge_twice|]. split.
  - intros d other. unfold domain_merge. simpl.
    by rewrite language_merge_twice, !set_update_twice.
  - intros Hobj Hsym Hlab [vars csts stvars prims comps labs].
    unfold language_merge. simpl.
    rewrite !set_update_absorb; [done|..];
      intros y Hy; apply set_in_elem; auto.
Qed.

(** ** Further properties of [lcp_converter.py] *)

(** *** The pipeline only grows *)

Lemma pipeline_le_refl self : pipeline_le self self.
Proof. repeat split; try done. exists []. by rewrite app_nil_r. Qed.

Lemma pipeline_le_trans s1 s2 s3 :
  pipeline_le s1 s2 -> pipeline_le s2 s3 -> pipeline_le s1 s3.
Proof.
  intros (Hn & [c Hc] & H1 & H2 & H3 & H4 & H5 & H6 & H7 & H8 & H9 & H10 & H11)
         (Hn' & [c' Hc'] & H1' & H2' & H3' & H4' & H5' & H6' & H7' & H8' & H9'
          & H10' & H11').
  split; [congruence|]. split.
  { exists (c ++ c'). by rewrite Hc', Hc, app_assoc. }
  repeat split; auto. congruence.
Qed.

Lemma grows_ret {A : Type} (a : A) : grows (mret a).
Proof. intros self. apply pipeline_le_refl. Qed.

Lemma grows_bind {A B : Type} (m : Conv A) (k : A -> Conv B) :
  grows m -> (forall a, grows (k a)) -> grows (m ≫= k).
Proof.
  intros Hm Hk self. unfold mbind, Conv_bind, conv_bind.
  specialize (Hm self). destruct (m self) as [self' [a|e]]; simpl in *; [|done].
  eapply pipeline_le_trans; [exact Hm | apply Hk].
Qed.

Lemma grows_reading {A : Type} (f : ChroniclesProblem -> result A) :
  grows (reading f).
Proof. intros self. apply pipeline_le_refl. Qed.

Lemma grows_call_builder c : grows (call_builder c).
Proof.
  intros self. unfold call_builder.
  destruct (accepts _ _); simpl; [|apply pipeline_le_refl].
  repeat split; try done. by exists [c].
Qed.

Lemma grows_skip (m : Conv unit) (b : bool) :
  grows m -> grows (fun self => if b then (self, Ok tt) else m self).
Proof. intros Hm self. destruct b; [apply pipeline_le_refl | apply Hm]. Qed.

(** An [update] that adds one element to one registry, or sets a flag *)
Ltac solve_grows_update :=
  let self := fresh "self" in
  intros self; unfold update; simpl;
  repeat split; simpl; try done;
  try (exists []; by rewrite app_nil_r);
  intros; by apply set_in_add_mono.

Ltac grows_step :=
  first
    [ apply grows_bind; [|intros ?]
    | apply grows_reading
    | apply grows_call_builder
    | apply grows_ret
    | solve_grows_update ].

Lemma add_type_grows t : grows (add_type t).
Proof.
  induction t as [n|n p IH] using HtnType_chain_ind; intros self; simpl;
    destruct (set_in type_key _ (types self)); try apply pipeline_le_refl.
  - revert self. repeat grows_step.
  - revert self. repeat grows_step. exact IH.
Qed.

Lemma add_symbol_grows symbol symbol_type htn_type :
  grows (add_symbol symbol symbol_type htn_type).
Proof.
  intros self. unfold add_symbol.
  destruct (set_in symbol_key symbol (symbols self));
    [apply pipeline_le_refl|].
  revert self. grows_step; [grows_step|].
  destruct symbol_type; try destruct htn_type; grows_step.
Qed.

Lemma add_constant_grows c : grows (add_constant c).
Proof.
  intros self. unfold add_constant.
  destruct (set_in obj_key c (constants self)); [apply pipeline_le_refl|].
  revert self. grows_step; [grows_step|]. grows_step; [apply add_type_grows|].
  apply add_symbol_grows.
Qed.

Lemma add_variable_grows v : grows (add_variable v).
Proof.
  intros self. unfold add_variable.
  destruct (set_in obj_key v (variables self)); [apply pipeline_le_refl|].
  revert self. grows_step; [grows_step|]. apply add_type_grows.
Qed.

Lemma add_state_variable_grows sv : grows (add_state_variable sv).
Proof.
  intros self. unfold add_state_variable.
  destruct (set_in state_variable_key sv (state_variables self));
    [apply pipeline_le_refl|].
  revert self. repeat grows_step.
  destruct (type_eq _ HTN_BOOLEAN); [grows_step|].
  destruct (type_eq _ HTN_INTEGER); grows_step.
Qed.

Lemma add_action_grows a : grows (add_action a).
Proof.
  intros self. unfold add_action.
  destruct (set_in primitive_task_key a (actions self));
    [apply pipeline_le_refl|].
  revert self. repeat grows_step.
Qed.

Lemma add_method_grows m : grows (add_method m).
Proof.
  intros self. unfold add_method.
  destruct (set_in method_key m (methods self)); [apply pipeline_le_refl|].
  revert self. repeat grows_step.
Qed.

Lemma add_initial_effect_grows e : grows (add_initial_effect e).
Proof.
  intros self. unfold add_initial_effect.
  destruct (set_in effect_key e (initial_effects self));
    [apply pipeline_le_refl|].
  revert self. repeat grows_step.
Qed.

Lemma create_context_grows : grows create_context.
Proof. unfold create_context. repeat grows_step. Qed.

Lemma create_symbol_table_grows : grows create_symbol_table.
Proof. unfold create_symbol_table. repeat grows_step. Qed.

Lemma set_goal_grows tn : grows (set_goal tn).
Proof. destruct tn; simpl; repeat grows_step. Qed.

(** X9.  Every method of the pipeline ends, whether it returns or raises,
    in a later state: the name is kept, the builder's log is continued and
    never rewritten, a flag that was set stays set, every element found in
    a registry is still found in it, and the registry [tasks] is never
    written. *)
Theorem X9_pipeline_only_grows :
  (forall t, grows (add_type t))
  /\ (forall s symbol_type htn_type, grows (add_symbol s symbol_type htn_type))
  /\ (forall c, grows (add_constant c))
  /\ (forall v, grows (add_variable v))
  /\ (forall sv, grows (add_state_variable sv))
  /\ (forall a, grows (add_action a))
  /\ (forall m, grows (add_method m))
  /\ (forall e, grows (add_initial_effect e))
  /\ grows create_symbol_table
  /\ grows create_context
  /\ (forall tn, grows (set_goal tn)).
Proof.
  split; [apply add_type_grows|]. split; [apply add_symbol_grows|].
  split; [apply add_constant_grows|]. split; [apply add_variable_grows|].
  split; [apply add_state_variable_grows|]. split; [apply add_action_grows|].
  split; [apply add_method_grows|]. split; [apply add_initial_effect_grows|].
  split; [apply create_symbol_table_grows|].
  split; [apply create_context_grows | apply set_goal_grows].
Qed.

(** *** Types and their ancestors *)

Lemma set_in_type t s : set_in type_key t s = true <-> t ∈ s.
Proof.
  split; [|apply set_in_elem].
  unfold set_in. intros H. apply existsb_exists in H as (u & Hu & Hm).
  unfold key_match in Hm. apply andb_true_iff in Hm as [_ Hm].
  apply orb_true_iff in Hm as [Hm|Hm].
  - apply bool_decide_eq_true in Hm as ->. by apply list_elem_of_In.
  - simpl in Hm. apply type_eq_eq in Hm as ->. by apply list_elem_of_In.
Qed.

Lemma elem_of_set_add_type t u s :
  t ∈ set_add type_key u s <-> t = u \/ t ∈ s.
Proof.
  unfold set_add. destruct (set_in type_key u s) eqn:Hu.
  - apply set_in_type in Hu. split; [by right|]. by intros [->|].
  - rewrite elem_of_app, list_elem_of_singleton. tauto.
Qed.

Lemma closed_types_hold_ancestry self :
  types_closed self ->
  forall t u, t ∈ types self -> u ∈ type_ancestry t -> u ∈ types self.
Proof.
  intros Hclosed t.
  induction t as [m|m q IH] using HtnType_chain_ind; simpl; intros u Ht Hu.
  - by apply list_elem_of_singleton in Hu as ->.
  - apply elem_of_cons in Hu as [->|Hu]; [done|].
    apply IH; [|done]. by eapply Hclosed.
Qed.

(** The registry is closed but for the parent [t], about to be added. *)
Lemma add_type_closes t :
  forall self self',
    (forall u parent, u ∈ types self -> type_parent u = Some parent ->
                      parent ∈ types self \/ parent = t) ->
    add_type t self = (self', Ok tt) ->
    types_closed self'
    /\ (forall u, u ∈ types self -> u ∈ types self')
    /\ t ∈ types self'.
Proof.
  induction t as [n|n p IH] using HtnType_chain_ind; intros self self' Hclosed;
    rewrite add_type_step;
    destruct (set_in type_key _ (types self)) eqn:Hin.
  - intros [= <-]. apply set_in_type in Hin. split; [|done].
    intros u parent Hu Hp. by destruct (Hclosed _ _ Hu Hp) as [?| ->].
  - simpl. destruct (accepts _ _); [|done]. intros [= <-]. simpl.
    split; [|split].
    + intros u parent Hu Hp. apply elem_of_set_add_type.
      apply elem_of_set_add_type in Hu as [->|Hu]; [done|].
      destruct (Hclosed _ _ Hu Hp) as [?| ->]; [by right | by left].
    + intros u Hu. apply elem_of_set_add_type. by right.
    + apply elem_of_set_add_type. by left.
  - intros [= <-]. apply set_in_type in Hin. split; [|done].
    intros u parent Hu Hp. by destruct (Hclosed _ _ Hu Hp) as [?| ->].
  - simpl. destruct (accepts _ _) eqn:Hacc; [|done]. intros Hrun.
    apply IH in Hrun as (Hc & Hmono & Hp).
    + split; [exact Hc|]. split.
      * intros u Hu. apply Hmono. simpl. apply elem_of_set_add_type. by right.
      * apply Hmono. simpl. apply elem_of_set_add_type. by left.
    + simpl. intros u parent Hu Hparent.
      apply elem_of_set_add_type in Hu as [->|Hu].
      * right. simpl in Hparent. by injection Hparent as <-.
      * left. apply elem_of_set_add_type.
        destruct (Hclosed _ _ Hu Hparent) as [?| ->]; [by right | by left].
Qed.

(** X10.  When the registry of types holds the parent of every type it
    holds, a call of [add_type] that returns leaves it so, loses no type,
    and has the type and all its ancestors registered. *)
Theorem X10_add_type_registers_ancestors :
  forall (t : HtnType) (self self' : ChroniclesProblem),
    types_closed self ->
    add_type t self = (self', Ok tt) ->
    types_closed self'
    /\ (forall u, u ∈ types self -> u ∈ types self')
    /\ (forall u, u ∈ type_ancestry t ->
                  set_in type_key u (types self') = true).
Proof.
  intros t self self' Hclosed Hrun.
  apply add_type_closes in Hrun as (Hc & Hmono & Ht).
  - split; [exact Hc|]. split; [exact Hmono|].
    intros u Hu. apply set_in_type. by eapply closed_types_hold_ancestry.
  - intros u parent Hu Hp. left. by eapply Hclosed.
Qed.

(** *** Registration that raises *)

Lemma add_state_variable_registers sv self :
  check_symbol self (sv_symbol sv) = Ok tt ->
  set_in state_variable_key sv
    (state_variables (add_state_variable sv self).1) = true.
Proof.
  intros Hsym. unfold add_state_variable.
  destruct (set_in state_variable_key sv (state_variables self)) eqn:Hin;
    [done|].
  unfold mbind at 1, Conv_bind, conv_bind, reading. rewrite Hsym.
  unfold mbind at 1, Conv_bind, conv_bind, update.
  match goal with
  | |- context [(?m ?s).1] =>
      assert (Hgrows : grows m);
      [|apply (Hgrows s); simpl; apply set_in_add_same]
  end.
  grows_step; [grows_step|].
  destruct (type_eq _ HTN_BOOLEAN); [grows_step|].
  destruct (type_eq _ HTN_INTEGER); grows_step.
Qed.

Lemma add_action_registers a self :
  check_symbol self (pt_symbol a) = Ok tt ->
  check_context self = Ok tt ->
  set_in primitive_task_key a (actions (add_action a self).1) = true.
Proof.
  intros Hsym Hctx. unfold add_action.
  destruct (set_in primitive_task_key a (actions self)) eqn:Hin; [done|].
  unfold mbind at 1, Conv_bind, conv_bind, reading. rewrite Hsym.
  unfold mbind at 1, Conv_bind, conv_bind. rewrite Hctx.
  unfold mbind at 1, Conv_bind, conv_bind, update.
  match goal with
  | |- context [(?m ?s).1] =>
      assert (Hgrows : grows m);
      [|apply (Hgrows s); simpl; apply set_in_add_same]
  end.
  repeat grows_step.
Qed.

Lemma add_method_registers m self :
  check_symbol self (m_symbol m) = Ok tt ->
  check_context self = Ok tt ->
  set_in method_key m (methods (add_method m self).1) = true.
Proof.
  intros Hsym Hctx. unfold add_method.
  destruct (set_in method_key m (methods self)) eqn:Hin; [done|].
  unfold mbind at 1, Conv_bind, conv_bind, reading. rewrite Hsym.
  unfold mbind at 1, Conv_bind, conv_bind. rewrite Hctx.
  unfold mbind at 1, Conv_bind, conv_bind, update.
  match goal with
  | |- context [(?k ?s).1] =>
      assert (Hgrows : grows k);
      [|apply (Hgrows s); simpl; apply set_in_add_same]
  end.
  repeat grows_step.
Qed.

Lemma add_initial_effect_registers e self :
  check_symbol self (sv_symbol (eff_sv e)) = Ok tt ->
  check_context self = Ok tt ->
  set_in effect_key e (initial_effects (add_initial_effect e self).1) = true.
Proof.
  intros Hsym Hctx. unfold add_initial_effect.
  destruct (set_in effect_key e (initial_effects self)) eqn:Hin; [done|].
  unfold mbind at 1, Conv_bind, conv_bind, reading. rewrite Hsym.
  unfold mbind at 1, Conv_bind, conv_bind. rewrite Hctx.
  unfold mbind at 1, Conv_bind, conv_bind, update.
  match goal with
  | |- context [(?k ?s).1] =>
      assert (Hgrows : grows k);
      [|apply (Hgrows s); simpl; apply set_in_add_same]
  end.
  repeat grows_step.
Qed.

(** X11.  A registration that raises sticks.  Once its guards are passed,
    [add_state_variable], [add_action], [add_method] and
    [add_initial_effect] register their argument before anything else can
    fail: whatever the first call does, a second call with the same
    argument returns at once and changes nothing.  A state variable whose
    type is neither boolean nor integer is registered in this way without
    any call to the builder. *)
Theorem X11_failed_registration_sticks :
  (forall sv self self' r,
      check_symbol self (sv_symbol sv) = Ok tt ->
      add_state_variable sv self = (self', r) ->
      add_state_variable sv self' = (self', Ok tt))
  /\ (forall a self self' r,
         check_symbol self (pt_symbol a) = Ok tt ->
         check_context self = Ok tt ->
         add_action a self = (self', r) ->
         add_action a self' = (self', Ok tt))
  /\ (forall m self self' r,
         check_symbol self (m_symbol m) = Ok tt ->
         check_context self = Ok tt ->
         add_method m self = (self', r) ->
         add_method m self' = (self', Ok tt))
  /\ (forall e self self' r,
         check_symbol self (sv_symbol (eff_sv e)) = Ok tt ->
         check_context self = Ok tt ->
         add_initial_effect e self = (self', r) ->
         add_initial_effect e self' = (self', Ok tt))
  /\ (forall sv self self' r,
         check_symbol self (sv_symbol sv) = Ok tt ->
         set_in state_variable_key sv (state_variables self) = false ->
         type_eq (sv_tpe sv) HTN_BOOLEAN = false ->
         type_eq (sv_tpe sv) HTN_INTEGER = false ->
         add_state_variable sv self = (self', r) ->
         r <> Ok tt
         /\ problem self' = problem self
         /\ set_in state_variable_key sv (state_variables self') = true).
Proof.
  split; [|split; [|split; [|split]]].
  - intros sv self self' r Hsym Hrun.
    pose proof (add_state_variable_registers sv self Hsym) as Hin.
    rewrite Hrun in Hin. simpl in Hin. unfold add_state_variable. by rewrite Hin.
  - intros a self self' r Hsym Hctx Hrun.
    pose proof (add_action_registers a self Hsym Hctx) as Hin.
    rewrite Hrun in Hin. simpl in Hin. unfold add_action. by rewrite Hin.
  - intros m self self' r Hsym Hctx Hrun.
    pose proof (add_method_registers m self Hsym Hctx) as Hin.
    rewrite Hrun in Hin. simpl in Hin. unfold add_method. by rewrite Hin.
  - intros e self self' r Hsym Hctx Hrun.
    pose proof (add_initial_effect_registers e self Hsym Hctx) as Hin.
    rewrite Hrun in Hin. simpl in Hin. unfold add_initial_effect. by rewrite Hin.
  - intros sv self self' r Hsym Hnew Hbool Hint Hrun.
    pose proof (add_state_variable_registers sv self Hsym) as Hin.
    rewrite Hrun in Hin. simpl in Hin.
    unfold add_state_variable in Hrun. rewrite Hnew in Hrun.
    unfold mbind, Conv_bind, conv_bind, reading, update in Hrun.
    rewrite Hsym in Hrun. simpl in Hrun.
    destruct (state_variable_signature _ sv) as [signature|e];
      [rewrite Hbool, Hint in Hrun|]; injection Hrun as <- <-; done.
Qed.

(** *** What each method tells the builder *)

Lemma appends_ret {A : Type} kind (a : A) : appends kind (mret a).
Proof. intros self. exists []. by rewrite app_nil_r. Qed.

Lemma appends_bind {A B : Type} kind (m : Conv A) (k : A -> Conv B) :
  appends kind m -> (forall a, appends kind (k a)) -> appends kind (m ≫= k).
Proof.
  intros Hm Hk self. unfold mbind, Conv_bind, conv_bind.
  destruct (Hm self) as (c1 & H1 & Hk1).
  destruct (m self) as [self' [a|e]]; simpl in *; [|by exists c1].
  destruct (Hk a self') as (c2 & H2 & Hk2).
  exists (c1 ++ c2). split; [by rewrite H2, H1, app_assoc|].
  by rewrite forallb_app, Hk1, Hk2.
Qed.

Lemma appends_reading {A : Type} kind (f : ChroniclesProblem -> result A) :
  appends kind (reading f).
Proof. intros self. exists []. by rewrite app_nil_r. Qed.

Lemma appends_call_builder (kind : BuilderCall -> bool) c :
  kind c = true -> appends kind (call_builder c).
Proof.
  intros Hc self. unfold call_builder. destruct (accepts _ _); simpl.
  - exists [c]. simpl. by rewrite Hc.
  - exists []. by rewrite app_nil_r.
Qed.

Lemma appends_weaken {A : Type} (kind kind' : BuilderCall -> bool) (m : Conv A) :
  (forall c, kind c = true -> kind' c = true) ->
  appends kind m -> appends kind' m.
Proof.
  intros Hk Hm self. destruct (Hm self) as (calls & Heq & Hall).
  exists calls. split; [done|].
  apply forallb_forall. intros c Hc. apply Hk.
  by eapply forallb_forall in Hall.
Qed.

(** An [update] that leaves the builder alone *)
Ltac solve_appends_update :=
  let self := fresh "self" in
  intros self; exists []; unfold update; simpl; by rewrite app_nil_r.

Ltac appends_step :=
  first
    [ apply appends_bind; [|intros ?]
    | apply appends_reading
    | apply appends_ret
    | apply appends_call_builder; reflexivity
    | solve_appends_update ].

Lemma add_type_appends t :
  appends (fun c => match c with BAddType _ _ => true | _ => false end)
    (add_type t).
Proof.
  induction t as [n|n p IH] using HtnType_chain_ind; intros self; simpl;
    destruct (set_in type_key _ (types self));
    try (exists []; by rewrite app_nil_r).
  - revert self. repeat appends_step.
  - revert self. repeat appends_step. exact IH.
Qed.

Lemma add_symbol_appends symbol symbol_type htn_type :
  appends (fun c => match c with
                    | BAddActionSymbol _ | BAddConstantSymbol _ _
                    | BAddMethodSymbol _ | BAddPredicateSymbol _
                    | BAddFunctionSymbol _ | BAddTaskSymbol _ => true
                    | _ => false
                    end)
    (add_symbol symbol symbol_type htn_type).
Proof.
  intros self. unfold add_symbol.
  destruct (set_in symbol_key symbol (symbols self));
    [exists []; by rewrite app_nil_r|].
  revert self. appends_step; [appends_step|].
  destruct symbol_type; try destruct htn_type; appends_step.
Qed.

Lemma add_constant_appends c :
  appends (fun c => match c with
                    | BAddType _ _ | BAddConstantSymbol _ _ => true
                    | _ => false
                    end)
    (add_constant c).
Proof.
  intros self. unfold add_constant.
  destruct (set_in obj_key c (constants self));
    [exists []; by rewrite app_nil_r|].
  revert self. appends_step; [appends_step|]. appends_step.
  - eapply appends_weaken; [|apply add_type_appends]. by intros [].
  - unfold add_symbol. intros self.
    destruct (set_in symbol_key _ (symbols self));
      [exists []; by rewrite app_nil_r|].
    revert self. repeat appends_step.
Qed.

Lemma add_variable_appends v :
  appends (fun c => match c with BAddType _ _ => true | _ => false end)
    (add_variable v).
Proof.
  intros self. unfold add_variable.
  destruct (set_in obj_key v (variables self));
    [exists []; by rewrite app_nil_r|].
  revert self. appends_step; [appends_step|]. apply add_type_appends.
Qed.

Lemma add_state_variable_appends sv :
  appends is_state_variable_call (add_state_variable sv).
Proof.
  intros self. unfold add_state_variable.
  destruct (set_in state_variable_key sv (state_variables self));
    [exists []; by rewrite app_nil_r|].
  revert self. repeat appends_step.
  destruct (type_eq _ HTN_BOOLEAN); [appends_step|].
  destruct (type_eq _ HTN_INTEGER); appends_step.
Qed.

Lemma lower_action_is_action self a call :
  lower_action self a = Ok call ->
  match call with BAddAction _ _ _ _ => True | _ => False end.
Proof.
  unfold lower_action. intros H.
  repeat match type of H with
         | (?m ≫= _) = Ok _ => destruct m; simpl in H; [|discriminate]
         end.
  by injection H as <-.
Qed.

Lemma lower_method_is_method self m call :
  lower_method self m = Ok call ->
  match call with BAddMethod _ _ _ _ _ _ => True | _ => False end.
Proof.
  unfold lower_method. intros H.
  repeat match type of H with
         | (?m ≫= _) = Ok _ => destruct m; simpl in H; [|discriminate]
         end.
  by injection H as <-.
Qed.

Lemma lower_goal_is_goal self tn call :
  lower_goal self tn = Ok call ->
  match call with BAddGoal _ _ => True | _ => False end.
Proof.
  unfold lower_goal. intros H.
  repeat match type of H with
         | (?m ≫= _) = Ok _ => destruct m; simpl in H; [|discriminate]
         end.
  by injection H as <-.
Qed.

(** A call prepared from the state, then handed to the builder *)
Lemma appends_lowered (kind : BuilderCall -> bool)
    (lower : ChroniclesProblem -> result BuilderCall) :
  (forall self call, lower self = Ok call -> kind call = true) ->
  appends kind (call ← reading lower; call_builder call).
Proof.
  intros Hk self. unfold mbind, Conv_bind, conv_bind, reading.
  destruct (lower self) as [call|e] eqn:Hlow; simpl;
    [|exists []; by rewrite app_nil_r].
  apply appends_call_builder. by eapply Hk.
Qed.

Lemma add_action_appends a :
  appends (fun c => match c with BAddAction _ _ _ _ => true | _ => false end)
    (add_action a).
Proof.
  intros self. unfold add_action.
  destruct (set_in primitive_task_key a (actions self));
    [exists []; by rewrite app_nil_r|].
  revert self. do 3 (appends_step; [appends_step|]).
  apply appends_lowered. intros self call Hlow.
  apply lower_action_is_action in Hlow. by destruct call.
Qed.

Lemma add_method_appends m :
  appends (fun c => match c with
                    | BAddMethod _ _ _ _ _ _ => true
                    | _ => false
                    end)
    (add_method m).
Proof.
  intros self. unfold add_method.
  destruct (set_in method_key m (methods self));
    [exists []; by rewrite app_nil_r|].
  revert self. do 3 (appends_step; [appends_step|]).
  apply appends_lowered. intros self call Hlow.
  apply lower_method_is_method in Hlow. by destruct call.
Qed.

Lemma add_initial_effect_appends e :
  appends (fun c => match c with BAddInitialEffect _ => true | _ => false end)
    (add_initial_effect e).
Proof.
  intros self. unfold add_initial_effect.
  destruct (set_in effect_key e (initial_effects self));
    [exists []; by rewrite app_nil_r|].
  revert self. repeat appends_step.
Qed.

Lemma set_goal_appends tn :
  appends (fun c => match c with BAddGoal _ _ => true | _ => false end)
    (set_goal tn).
Proof.
  destruct tn as [tn|]; simpl; [|apply appends_ret].
  do 2 (appends_step; [appends_step|]).
  apply appends_lowered. intros self call Hlow.
  apply lower_goal_is_goal in Hlow. by destruct call.
Qed.

Lemma create_symbol_table_appends :
  appends (fun c => match c with BCreateSymbolTable => true | _ => false end)
    create_symbol_table.
Proof. unfold create_symbol_table. repeat appends_step. Qed.

Lemma create_context_appends :
  appends (fun c => match c with BCreateContext => true | _ => false end)
    create_context.
Proof. unfold create_context. repeat appends_step. Qed.

(** X12.  Each method of the pipeline tells the builder only about its own
    kind of element, whether it returns or raises: [add_type] and
    [add_variable] send [add_type] calls only, [add_symbol] the six symbol
    calls, [add_constant] [add_type] and [add_constant_symbol],
    [add_state_variable] [add_predicate] and [add_function], and
    [add_action], [add_method], [set_goal], [add_initial_effect],
    [create_symbol_table] and [create_context] their namesake. *)
Theorem X12_calls_of_each_method :
  (forall t,
      appends (fun c => match c with BAddType _ _ => true | _ => false end)
        (add_type t))
  /\ (forall v,
         appends (fun c => match c with BAddType _ _ => true | _ => false end)
           (add_variable v))
  /\ (forall s symbol_type htn_type,
         appends (fun c => match c with
                           | BAddActionSymbol _ | BAddConstantSymbol _ _
                           | BAddMethodSymbol _ | BAddPredicateSymbol _
                           | BAddFunctionSymbol _ | BAddTaskSymbol _ => true
                           | _ => false
                           end)
           (add_symbol s symbol_type htn_type))
  /\ (forall c,
         appends (fun c => match c with
                           | BAddType _ _ | BAddConstantSymbol _ _ => true
                           | _ => false
                           end)
           (add_constant c))
  /\ (forall sv,
         appends (fun c => match c with
                           | BAddPredicate _ | BAddFunction _ => true
                           | _ => false
                           end)
           (add_state_variable sv))
  /\ (forall a,
         appends (fun c => match c with
                           | BAddAction _ _ _ _ => true
                           | _ => false
                           end)
           (add_action a))
  /\ (forall m,
         appends (fun c => match c with
                           | BAddMethod _ _ _ _ _ _ => true
                           | _ => false
                           end)
           (add_method m))
  /\ (forall tn,
         appends (fun c => match c with BAddGoal _ _ => true | _ => false end)
           (set_goal tn))
  /\ (forall e,
         appends (fun c => match c with
                           | BAddInitialEffect _ => true
                           | _ => false
                           end)
           (add_initial_effect e))
  /\ appends (fun c => match c with BCreateSymbolTable => true | _ => false end)
       create_symbol_table
  /\ appends (fun c => match c with BCreateContext => true | _ => false end)
       create_context.
Proof.
  split; [apply add_type_appends|]. split; [apply add_variable_appends|].
  split; [apply add_symbol_appends|]. split; [apply add_constant_appends|].
  split; [apply add_state_variable_appends|].
  split; [apply add_action_appends|]. split; [apply add_method_appends|].
  split; [apply set_goal_appends|].
  split; [apply add_initial_effect_appends|].
  split; [apply create_symbol_table_appends | apply create_context_appends].
Qed.

(** *** Guards *)

Lemma no_ordering_error_raise {A : Type} (e : PyError) :
  ordering_error e = false -> no_ordering_error (Raise e : result A).
Proof. intros He e'. by intros [= <-]. Qed.

Lemma orderly_ret {A : Type} ready (a : A) : orderly ready (mret a).
Proof. intros self _. apply no_ordering_error_ok. Qed.

Lemma orderly_bind {A B : Type} (ready : ChroniclesProblem -> Prop)
    (m : Conv A) (k : A -> Conv B) :
  orderly ready m -> (forall a, orderly ready (k a)) ->
  (forall self, ready self -> ready (m self).1) ->
  orderly ready (m ≫= k).
Proof.
  intros Hm Hk Hkeep self Hready. unfold mbind, Conv_bind, conv_bind.
  specialize (Hm self Hready). specialize (Hkeep self Hready).
  destruct (m self) as [self' [a|e]]; simpl in *; [by apply Hk|].
  intros e' [= <-]. by apply Hm.
Qed.

Lemma orderly_call_builder ready c : orderly ready (call_builder c).
Proof.
  intros self _. unfold call_builder. destruct (accepts _ _); simpl.
  - apply no_ordering_error_ok.
  - by apply no_ordering_error_raise.
Qed.

Lemma orderly_update ready f : orderly ready (update f).
Proof. intros self _. apply no_ordering_error_ok. Qed.

Lemma orderly_reading {A : Type} (ready : ChroniclesProblem -> Prop)
    (f : ChroniclesProblem -> result A) :
  (forall self, ready self -> no_ordering_error (f self)) ->
  orderly ready (reading f).
Proof. intros Hf self Hready. by apply Hf. Qed.

Lemma orderly_weaken {A : Type} (ready ready' : ChroniclesProblem -> Prop)
    (m : Conv A) :
  (forall self, ready' self -> ready self) ->
  orderly ready m -> orderly ready' m.
Proof. intros Himp Hm self Hready. by apply Hm, Himp. Qed.

Lemma grows_keeps_table {A : Type} (m : Conv A) :
  grows m -> forall self, table_ready self -> table_ready (m self).1.
Proof. intros Hm self Hready. by apply (Hm self). Qed.

Lemma grows_keeps_context {A : Type} (m : Conv A) :
  grows m -> forall self, context_ready self -> context_ready (m self).1.
Proof.
  intros Hm self [Ht Hc]. split; [by apply (Hm self) | by apply (Hm self)].
Qed.

Lemma get_signature_temporal_no_ordering_error self symbol all_params i l :
  symbol_table_created self = true ->
  no_ordering_error (get_signature_temporal self symbol all_params i l).
Proof.
  intros Hst. unfold get_signature_temporal.
  apply no_ordering_error_bind; [by apply get_signature_no_ordering_error|].
  intros ?. apply no_ordering_error_bind;
    [apply get_interval_no_ordering_error|].
  intros ?. apply no_ordering_error_ok.
Qed.

Lemma lower_label_mapping_no_ordering_error self lms :
  symbol_table_created self = true ->
  no_ordering_error (lower_label_mapping self lms).
Proof.
  intros Hst. unfold lower_label_mapping.
  apply no_ordering_error_rmap. intros lmp.
  by apply get_signature_temporal_no_ordering_error.
Qed.

Lemma lower_method_no_ordering_error self m :
  symbol_table_created self = true ->
  no_ordering_error (lower_method self m).
Proof.
  intros Hst. unfold lower_method.
  apply no_ordering_error_bind;
    [by apply get_signature_temporal_no_ordering_error|].
  intros ?. apply no_ordering_error_bind;
    [apply no_ordering_error_rmap, get_constraint_no_ordering_error|].
  intros ?. apply no_ordering_error_bind;
    [apply no_ordering_error_rmap; intros c;
     by apply get_condition_no_ordering_error|].
  intros ?. apply no_ordering_error_bind;
    [by apply get_signature_no_ordering_error|].
  intros ?. apply no_ordering_error_bind;
    [by apply lower_label_mapping_no_ordering_error|].
  intros ?. apply no_ordering_error_bind;
    [apply no_ordering_error_rmap, get_constraint_no_ordering_error|].
  intros ?. apply no_ordering_error_ok.
Qed.

Lemma lower_goal_no_ordering_error self tn :
  symbol_table_created self = true ->
  no_ordering_error (lower_goal self tn).
Proof.
  intros Hst. unfold lower_goal.
  apply no_ordering_error_bind;
    [by apply lower_label_mapping_no_ordering_error|].
  intros ?. apply no_ordering_error_bind;
    [apply no_ordering_error_rmap, get_constraint_no_ordering_error|].
  intros ?. apply no_ordering_error_ok.
Qed.

Lemma check_context_no_ordering_error self :
  context_created self = true -> no_ordering_error (check_context self).
Proof.
  intros Hc. unfold check_context. rewrite Hc. apply no_ordering_error_ok.
Qed.

Lemma check_symbol_table_no_ordering_error self :
  symbol_table_created self = true ->
  no_ordering_error (check_symbol_table self).
Proof.
  intros Hc. unfold check_symbol_table. rewrite Hc. apply no_ordering_error_ok.
Qed.

(** The goal [forall self, ready self -> no_ordering_error (m self).2] as
    [orderly ready m] *)
Ltac as_orderly ready :=
  match goal with
  | |- forall self, _ -> no_ordering_error (?m self).2 =>
      change (orderly ready m)
  end.

Ltac orderly_unguarded :=
  repeat first
    [ apply orderly_bind; [ | intros ? | done ]
    | apply orderly_update
    | apply orderly_call_builder
    | apply orderly_ret ].

Lemma add_type_unguarded t : orderly (fun _ => True) (add_type t).
Proof.
  induction t as [n|n p IH] using HtnType_chain_ind; intros self Hready; simpl;
    destruct (set_in type_key _ (types self));
    try apply no_ordering_error_ok;
    revert self Hready; as_orderly (fun _ : ChroniclesProblem => True);
    orderly_unguarded.
  exact IH.
Qed.

Lemma add_symbol_unguarded symbol symbol_type htn_type :
  orderly (fun _ => True) (add_symbol symbol symbol_type htn_type).
Proof.
  intros self Hready. unfold add_symbol.
  destruct (set_in symbol_key symbol (symbols self));
    [apply no_ordering_error_ok|].
  revert self Hready. as_orderly (fun _ : ChroniclesProblem => True).
  apply orderly_bind; [apply orderly_update| |done]. intros _.
  destruct symbol_type; try destruct htn_type; try apply orderly_call_builder.
  apply orderly_reading. intros self _. by apply no_ordering_error_raise.
Qed.

Lemma add_constant_unguarded c : orderly (fun _ => True) (add_constant c).
Proof.
  intros self Hready. unfold add_constant.
  destruct (set_in obj_key c (constants self)); [apply no_ordering_error_ok|].
  revert self Hready. as_orderly (fun _ : ChroniclesProblem => True).
  apply orderly_bind; [apply orderly_update| |done]. intros _.
  apply orderly_bind; [apply add_type_unguarded| |done]. intros _.
  apply add_symbol_unguarded.
Qed.

Lemma add_variable_unguarded v : orderly (fun _ => True) (add_variable v).
Proof.
  intros self Hready. unfold add_variable.
  destruct (set_in obj_key v (variables self)); [apply no_ordering_error_ok|].
  revert self Hready. as_orderly (fun _ : ChroniclesProblem => True).
  apply orderly_bind; [apply orderly_update| |done]. intros _.
  apply add_type_unguarded.
Qed.

Lemma create_symbol_table_unguarded : orderly (fun _ => True) create_symbol_table.
Proof. unfold create_symbol_table. orderly_unguarded. Qed.

Lemma create_context_unguarded' : orderly (fun _ => True) create_context.
Proof. unfold create_context. orderly_unguarded. Qed.

Lemma add_state_variable_orderly sv :
  orderly table_ready (add_state_variable sv).
Proof.
  intros self Hready. unfold add_state_variable.
  destruct (set_in state_variable_key sv (state_variables self));
    [apply no_ordering_error_ok|].
  revert self Hready. as_orderly table_ready.
  apply orderly_bind;
    [apply orderly_reading; intros; by apply check_symbol_no_ordering_error
    | intros _ | apply grows_keeps_table, grows_reading].
  apply orderly_bind;
    [apply orderly_update | intros _
    | apply grows_keeps_table; solve_grows_update].
  apply orderly_bind;
    [apply orderly_reading; intros;
     by apply get_signature_no_ordering_error
    | intros signature | apply grows_keeps_table, grows_reading].
  destruct (type_eq _ HTN_BOOLEAN); [apply orderly_call_builder|].
  destruct (type_eq _ HTN_INTEGER); [apply orderly_call_builder|].
  apply orderly_reading. intros self _. by apply no_ordering_error_raise.
Qed.

(** The registering methods that check the symbol, then the context, then
    register, lower and call the builder *)
Lemma guarded_orderly (symbol : HtnSymbol)
    (register : ChroniclesProblem -> ChroniclesProblem)
    (lower : ChroniclesProblem -> result BuilderCall) :
  grows (update register) ->
  (forall self, symbol_table_created self = true ->
                no_ordering_error (lower self)) ->
  orderly context_ready
    (reading (fun self => check_symbol self symbol);;
     reading check_context;;
     update register;;
     call ← reading lower;
     call_builder call).
Proof.
  intros Hreg Hlow.
  apply orderly_bind;
    [apply orderly_reading; intros self [Ht _];
     by apply check_symbol_no_ordering_error
    | intros _ | apply grows_keeps_context, grows_reading].
  apply orderly_bind;
    [apply orderly_reading; intros self [_ Hc];
     by apply check_context_no_ordering_error
    | intros _ | apply grows_keeps_context, grows_reading].
  apply orderly_bind;
    [apply orderly_update | intros _ | by apply grows_keeps_context].
  apply orderly_bind;
    [apply orderly_reading; intros self [Ht _]; by apply Hlow
    | intros call | apply grows_keeps_context, grows_reading].
  apply orderly_call_builder.
Qed.

Lemma add_action_orderly a : orderly context_ready (add_action a).
Proof.
  intros self Hready. unfold add_action.
  destruct (set_in primitive_task_key a (actions self));
    [apply no_ordering_error_ok|].
  revert self Hready. as_orderly context_ready.
  apply guarded_orderly; [solve_grows_update|].
  intros self Ht. by apply lower_action_no_ordering_error.
Qed.

Lemma add_method_orderly m : orderly context_ready (add_method m).
Proof.
  intros self Hready. unfold add_method.
  destruct (set_in method_key m (methods self));
    [apply no_ordering_error_ok|].
  revert self Hready. as_orderly context_ready.
  apply guarded_orderly; [solve_grows_update|].
  intros self Ht. by apply lower_method_no_ordering_error.
Qed.

Lemma add_initial_effect_orderly e :
  orderly context_ready (add_initial_effect e).
Proof.
  intros self Hready. unfold add_initial_effect.
  destruct (set_in effect_key e (initial_effects self));
    [apply no_ordering_error_ok|].
  revert self Hready. as_orderly context_ready.
  apply orderly_bind;
    [apply orderly_reading; intros self [Ht _];
     by apply check_symbol_no_ordering_error
    | intros _ | apply grows_keeps_context, grows_reading].
  apply orderly_bind;
    [apply orderly_reading; intros self [_ Hc];
     by apply check_context_no_ordering_error
    | intros _ | apply grows_keeps_context, grows_reading].
  apply orderly_bind;
    [apply orderly_update | intros _
    | apply grows_keeps_context; solve_grows_update].
  apply orderly_bind;
    [apply orderly_reading; intros self [Ht _];
     by apply get_effect_no_ordering_error
    | intros signature | apply grows_keeps_context, grows_reading].
  apply orderly_call_builder.
Qed.

Lemma set_goal_orderly tn : orderly context_ready (set_goal tn).
Proof.
  destruct tn as [tn|]; simpl; [|apply orderly_ret].
  apply orderly_bind;
    [apply orderly_reading; intros self [Ht _];
     by apply check_symbol_table_no_ordering_error
    | intros _ | apply grows_keeps_context, grows_reading].
  apply orderly_bind;
    [apply orderly_reading; intros self [_ Hc];
     by apply check_context_no_ordering_error
    | intros _ | apply grows_keeps_context, grows_reading].
  apply orderly_bind;
    [apply orderly_reading; intros self [Ht _];
     by apply lower_goal_no_ordering_error
    | intros call | apply grows_keeps_context, grows_reading].
  apply orderly_call_builder.
Qed.

(** X13.  The guards of the pipeline.  [add_type], [add_symbol],
    [add_constant] and [add_variable] have none and never raise an
    ordering error.  [add_state_variable] wants the symbol table and a
    registered symbol, never the context; [add_method] and
    [add_initial_effect] want the symbol table, a registered symbol and the
    context, in this order, and [set_goal] with a task network the symbol
    table and the context.  A call on a new element whose guard fails
    raises the guard's error and changes nothing; a call made with what it
    wants created raises no ordering error; [set_goal] without a task
    network returns at once. *)
Theorem X13_guards_of_the_pipeline :
  let table self :=
    if negb (symbol_table_created self) then Some UncreatedSymbolTableError
    else None in
  let registered self symbol :=
    if negb (set_in symbol_key symbol (symbols self))
    then Some (UnregisteredSymbolError (sym_name symbol)) else None in
  let context self :=
    if negb (context_created self) then Some UncreatedContextError else None in
  let first (a b : option PyError) :=
    match a with Some e => Some e | None => b end in
  ((forall t, orderly (fun _ => True) (add_type t))
   /\ (forall s symbol_type htn_type,
          orderly (fun _ => True) (add_symbol s symbol_type htn_type))
   /\ (forall c, orderly (fun _ => True) (add_constant c))
   /\ (forall v, orderly (fun _ => True) (add_variable v)))
  /\ ((forall sv, orderly table_ready (add_state_variable sv))
      /\ (forall m, orderly context_ready (add_method m))
      /\ (forall e, orderly context_ready (add_initial_effect e))
      /\ (forall tn, orderly context_ready (set_goal tn)))
  /\ ((forall sv self e,
          set_in state_variable_key sv (state_variables self) = false ->
          first (table self) (registered self (sv_symbol sv)) = Some e ->
          add_state_variable sv self = (self, Raise e))
      /\ (forall m self e,
             set_in method_key m (methods self) = false ->
             first (table self)
               (first (registered self (m_symbol m)) (context self)) = Some e ->
             add_method m self = (self, Raise e))
      /\ (forall eff self e,
             set_in effect_key eff (initial_effects self) = false ->
             first (table self)
               (first (registered self (sv_symbol (eff_sv eff))) (context self))
             = Some e ->
             add_initial_effect eff self = (self, Raise e))
      /\ (forall tn self e,
             first (table self) (context self) = Some e ->
             set_goal (Some tn) self = (self, Raise e))
      /\ (forall self, set_goal None self = (self, Ok tt))).
Proof.
  intros table registered context first. subst table registered context first.
  split; [|split].
  - split; [apply add_type_unguarded|]. split; [apply add_symbol_unguarded|].
    split; [apply add_constant_unguarded | apply add_variable_unguarded].
  - split; [apply add_state_variable_orderly|].
    split; [apply add_method_orderly|].
    split; [apply add_initial_effect_orderly | apply set_goal_orderly].
  - split; [|split; [|split; [|split]]].
    + intros sv self e Hnew Hguard. unfold add_state_variable. rewrite Hnew.
      unfold mbind, Conv_bind, conv_bind, reading, check_symbol,
        check_symbol_table.
      destruct (symbol_table_created self); simpl in *;
        [|by injection Hguard as <-].
      destruct (set_in symbol_key _ _); simpl in *; [done|].
      by injection Hguard as <-.
    + intros m self e Hnew Hguard. unfold add_method. rewrite Hnew.
      unfold mbind, Conv_bind, conv_bind, reading, check_symbol,
        check_symbol_table, check_context.
      destruct (symbol_table_created self); simpl in *;
        [|by injection Hguard as <-].
      destruct (set_in symbol_key _ _); simpl in *;
        [|by injection Hguard as <-].
      destruct (context_created self); simpl in *; [done|].
      by injection Hguard as <-.
    + intros eff self e Hnew Hguard. unfold add_initial_effect. rewrite Hnew.
      unfold mbind, Conv_bind, conv_bind, reading, check_symbol,
        check_symbol_table, check_context.
      destruct (symbol_table_created self); simpl in *;
        [|by injection Hguard as <-].
      destruct (set_in symbol_key _ _); simpl in *;
        [|by injection Hguard as <-].
      destruct (context_created self); simpl in *; [done|].
      by injection Hguard as <-.
    + intros tn self e Hguard. unfold set_goal.
      unfold mbind, Conv_bind, conv_bind, reading, check_symbol_table,
        check_context.
      destruct (symbol_table_created self); simpl in *;
        [|by injection Hguard as <-].
      destruct (context_created self); simpl in *; [done|].
      by injection Hguard as <-.
    + done.
Qed.

(** *** The conversion of a problem *)

Lemma log_phase_app ph log1 log2 :
  log_phase ph (log1 ++ log2) = ph' ← log_phase ph log1; log_phase ph' log2.
Proof.
  revert ph. induction log1 as [|c log1 IH]; intros ph; [done|].
  simpl. destruct ph, c; simpl; try done; apply IH.
Qed.

Lemma log_phase_declarations calls :
  forallb is_declaration calls = true ->
  log_phase Declaring calls = Some Declaring.
Proof.
  induction calls as [|c calls IH]; [done|]. simpl.
  intros H. apply andb_true_iff in H as [Hc Hall].
  destruct c; try done; by apply IH.
Qed.

Lemma log_phase_state_variables calls :
  forallb is_state_variable_call calls = true ->
  log_phase Describing calls = Some Describing.
Proof.
  induction calls as [|c calls IH]; [done|]. simpl.
  intros H. apply andb_true_iff in H as [Hc Hall].
  destruct c; try done; by apply IH.
Qed.

Lemma log_phase_content calls :
  forallb is_content calls = true -> log_phase Filling calls = Some Filling.
Proof.
  induction calls as [|c calls IH]; [done|]. simpl.
  intros H. apply andb_true_iff in H as [Hc Hall].
  destruct c; try done; by apply IH.
Qed.

Lemma moves_stay ph (kind : BuilderCall -> bool) (m : Conv unit) :
  (forall calls, forallb kind calls = true -> log_phase ph calls = Some ph) ->
  appends kind m -> moves ph ph (step m).
Proof.
  intros Hkind Hm self Hlog. destruct (Hm self) as (calls & Heq & Hall).
  exists ph. unfold step. destruct (m self) as [self' [[]|e]]; simpl in *;
    (split; [|done]); rewrite Heq, log_phase_app, Hlog; simpl; by apply Hkind.
Qed.

Lemma moves_and_then a b c first next :
  (phase_rank b <= phase_rank c)%nat ->
  moves a b first -> moves b c next -> moves a c (and_then first next).
Proof.
  intros Hbc Hf Hn self Hlog. unfold and_then.
  destruct (Hf self Hlog) as (ph & Hph & Hrange & Hto).
  destruct (first self) as [self' [e|]]; simpl in *.
  - exists ph. split; [done|]. split; [lia | done].
  - specialize (Hto eq_refl). subst ph.
    destruct (Hn self' Hph) as (ph' & Hph' & Hrange' & Hto').
    exists ph'. split; [done|]. split; [lia | done].
Qed.

Lemma moves_nothing ph : moves ph ph (fun self => (self, None)).
Proof. intros self Hlog. exists ph. simpl. split; [done|]. split; [lia|done]. Qed.

Lemma moves_raise ph e : moves ph ph (fun self => (self, Some e)).
Proof. intros self Hlog. exists ph. simpl. split; [done|]. split; [lia|done]. Qed.

Lemma moves_sequence ph steps :
  Forall (moves ph ph) steps -> moves ph ph (sequence steps).
Proof.
  induction 1 as [|c steps Hc Hsteps IH]; simpl; [apply moves_nothing|].
  by apply (moves_and_then ph ph ph).
Qed.

Lemma moves_for_each {A : Type} ph (body : A -> Conversion) xs :
  (forall x, moves ph ph (body x)) -> moves ph ph (for_each body xs).
Proof.
  intros Hbody. apply moves_sequence, Forall_map, Forall_forall. auto.
Qed.

Lemma moves_create_symbol_table :
  moves Declaring Describing (step create_symbol_table).
Proof.
  intros self Hlog.
  unfold step, create_symbol_table, mbind, Conv_bind, conv_bind, call_builder,
    update.
  destruct (accepts _ _); simpl.
  - exists Describing. rewrite log_phase_app, Hlog. simpl.
    split; [done|]. split; [lia | done].
  - exists Declaring. split; [done|]. split; [simpl; lia | done].
Qed.

Lemma moves_create_context : moves Describing Filling (step create_context).
Proof.
  intros self Hlog.
  unfold step, create_context, mbind, Conv_bind, conv_bind, call_builder,
    update.
  destruct (accepts _ _); simpl.
  - exists Filling. rewrite log_phase_app, Hlog. simpl.
    split; [done|]. split; [lia | done].
  - exists Describing. split; [done|]. split; [simpl; lia | done].
Qed.

Lemma moves_declaring (kind : BuilderCall -> bool) (m : Conv unit) :
  (forall c, kind c = true -> is_declaration c = true) ->
  appends kind m -> moves Declaring Declaring (step m).
Proof.
  intros Hk Hm. apply (moves_stay _ is_declaration).
  - apply log_phase_declarations.
  - by eapply appends_weaken.
Qed.

Lemma moves_filling (kind : BuilderCall -> bool) (m : Conv unit) :
  (forall c, kind c = true -> is_content c = true) ->
  appends kind m -> moves Filling Filling (step m).
Proof.
  intros Hk Hm. apply (moves_stay _ is_content).
  - apply log_phase_content.
  - by eapply appends_weaken.
Qed.

Lemma moves_declare_state_variable_symbol sv_map sv_sym :
  moves Declaring Declaring (declare_state_variable_symbol sv_map sv_sym).
Proof.
  unfold declare_state_variable_symbol.
  destruct (sv_map_get sv_sym sv_map) as [tpe|]; [|apply moves_raise].
  destruct (type_eq tpe HTN_BOOLEAN);
    [|destruct (type_eq tpe HTN_INTEGER); [|apply moves_raise]];
    (eapply moves_declaring; [|apply add_symbol_appends]); by intros [].
Qed.

Lemma from_htn_moves htn_problem :
  exists ph,
    log_phase Declaring (problem (from_htn htn_problem).1) = Some ph
    /\ ((from_htn htn_problem).2 = None -> ph = Filling).
Proof.
  unfold from_htn.
  match goal with
  | |- context [sequence ?steps ?s] =>
      assert (Hmoves : moves Declaring Filling (sequence steps))
  end.
  { simpl.
    repeat (apply (moves_and_then Declaring Declaring Filling);
            [simpl; lia
            |first
               [ apply moves_for_each; intros x;
                 first [ apply moves_declare_state_variable_symbol
                       | eapply moves_declaring;
                         [|first [apply add_constant_appends
                                 |apply add_variable_appends
                                 |apply add_symbol_appends]];
                         by intros [] ]
               | fail ]
            |]).
    apply (moves_and_then Declaring Describing Filling);
      [simpl; lia | apply moves_create_symbol_table |].
    apply (moves_and_then Describing Describing Filling); [simpl; lia | |].
    { apply moves_for_each. intros sv.
      apply (moves_stay _ is_state_variable_call);
        [apply log_phase_state_variables | apply add_state_variable_appends]. }
    apply (moves_and_then Describing Filling Filling);
      [simpl; lia | apply moves_create_context |].
    apply (moves_and_then Filling Filling Filling); [simpl; lia | |].
    { apply moves_for_each. intros a.
      eapply moves_filling; [|apply add_action_appends]. by intros []. }
    apply (moves_and_then Filling Filling Filling); [simpl; lia | |].
    { apply moves_for_each. intros m.
      eapply moves_filling; [|apply add_method_appends]. by intros []. }
    apply (moves_and_then Filling Filling Filling); [simpl; lia | |].
    { eapply moves_filling; [|apply set_goal_appends]. by intros []. }
    apply (moves_and_then Filling Filling Filling);
      [simpl; lia | | apply moves_nothing].
    apply moves_for_each. intros e.
    eapply moves_filling; [|apply add_initial_effect_appends]. by intros []. }
  destruct (Hmoves (new_problem (problem_name htn_problem)) eq_refl)
    as (ph & Hph & _ & Hto).
  by exists ph.
Qed.

Lemma establishes_and_then pre mid post first next :
  establishes pre mid first -> establishes mid post next ->
  establishes pre post (and_then first next).
Proof.
  intros Hf Hn self Hpre. unfold and_then.
  destruct (Hf self Hpre) as [Hin Hmid].
  destruct (first self) as [self' [e|]]; simpl in *; [done|].
  by apply Hn, Hmid.
Qed.

Lemma establishes_nothing pre : establishes pre pre (fun self => (self, None)).
Proof. by intros self Hpre. Qed.

Lemma establishes_sequence pre steps :
  Forall (establishes pre pre) steps -> establishes pre pre (sequence steps).
Proof.
  induction 1 as [|c steps Hc Hsteps IH]; simpl; [apply establishes_nothing|].
  by apply (establishes_and_then pre pre pre).
Qed.

Lemma establishes_for_each {A : Type} pre (body : A -> Conversion) xs :
  (forall x, establishes pre pre (body x)) ->
  establishes pre pre (for_each body xs).
Proof.
  intros Hbody. apply establishes_sequence, Forall_map, Forall_forall. auto.
Qed.

Lemma establishes_step (pre : ChroniclesProblem -> Prop) (m : Conv unit) :
  orderly pre m -> (forall self, pre self -> pre (m self).1) ->
  establishes pre pre (step m).
Proof.
  intros Hm Hkeep self Hpre. unfold step.
  specialize (Hm self Hpre). specialize (Hkeep self Hpre).
  destruct (m self) as [self' [[]|e]]; simpl in *; [done|].
  split; [by apply Hm | done].
Qed.

Lemma establishes_unguarded (m : Conv unit) :
  orderly (fun _ => True) m -> establishes (fun _ => True) (fun _ => True) (step m).
Proof. intros Hm. by apply establishes_step. Qed.

Lemma establishes_create_symbol_table :
  establishes (fun _ => True) table_ready (step create_symbol_table).
Proof.
  intros self _.
  unfold step, create_symbol_table, mbind, Conv_bind, conv_bind, call_builder,
    update.
  by destruct (accepts _ _).
Qed.

Lemma establishes_create_context :
  establishes table_ready context_ready (step create_context).
Proof.
  intros self Ht.
  unfold step, create_context, mbind, Conv_bind, conv_bind, call_builder,
    update.
  by destruct (accepts _ _).
Qed.

Lemma establishes_declare_state_variable_symbol sv_map sv_sym :
  establishes (fun _ => True) (fun _ => True)
    (declare_state_variable_symbol sv_map sv_sym).
Proof.
  unfold declare_state_variable_symbol.
  destruct (sv_map_get sv_sym sv_map) as [tpe|]; [|done].
  destruct (type_eq tpe HTN_BOOLEAN);
    [|destruct (type_eq tpe HTN_INTEGER); [|done]];
    apply establishes_unguarded, add_symbol_unguarded.
Qed.

Lemma from_htn_in_order htn_problem :
  in_order (from_htn htn_problem).2
  /\ ((from_htn htn_problem).2 = None ->
      context_ready (from_htn htn_problem).1).
Proof.
  unfold from_htn.
  match goal with
  | |- context [sequence ?steps ?s] =>
      assert (H : establishes (fun _ => True) context_ready (sequence steps));
      [|by apply H]
  end.
  simpl.
  repeat (apply (establishes_and_then (fun _ => True) (fun _ => True));
          [first
             [ apply establishes_for_each; intros x;
               first [ apply establishes_declare_state_variable_symbol
                     | apply establishes_unguarded;
                       first [apply add_constant_unguarded
                             |apply add_variable_unguarded
                             |apply add_symbol_unguarded] ]
             | fail ]
          |]).
  apply (establishes_and_then _ table_ready);
    [apply establishes_create_symbol_table|].
  apply (establishes_and_then _ table_ready).
  { apply establishes_for_each. intros sv.
    apply establishes_step; [apply add_state_variable_orderly|].
    apply grows_keeps_table, add_state_variable_grows. }
  apply (establishes_and_then _ context_ready);
    [apply establishes_create_context|].
  apply (establishes_and_then _ context_ready).
  { apply establishes_for_each. intros a.
    apply establishes_step; [apply add_action_orderly|].
    apply grows_keeps_context, add_action_grows. }
  apply (establishes_and_then _ context_ready).
  { apply establishes_for_each. intros m.
    apply establishes_step; [apply add_method_orderly|].
    apply grows_keeps_context, add_method_grows. }
  apply (establishes_and_then _ context_ready).
  { apply establishes_step; [apply set_goal_orderly|].
    apply grows_keeps_context, set_goal_grows. }
  apply (establishes_and_then _ context_ready);
    [|apply establishes_nothing].
  apply establishes_for_each. intros e.
  apply establishes_step; [apply add_initial_effect_orderly|].
  apply grows_keeps_context, add_initial_effect_grows.
Qed.

Lemma and_then_grows first next :
  (forall self, pipeline_le self (first self).1) ->
  (forall self, pipeline_le self (next self).1) ->
  forall self, pipeline_le self (and_then first next self).1.
Proof.
  intros Hf Hn self. unfold and_then. specialize (Hf self).
  destruct (first self) as [self' [e|]]; simpl in *; [done|].
  eapply pipeline_le_trans; [exact Hf | apply Hn].
Qed.

Lemma sequence_grows steps :
  Forall (fun c : Conversion => forall self, pipeline_le self (c self).1) steps ->
  forall self, pipeline_le self (sequence steps self).1.
Proof.
  induction 1 as [|c steps Hc Hsteps IH]; simpl;
    [intros self; apply pipeline_le_refl|].
  by apply and_then_grows.
Qed.

Lemma for_each_grows {A : Type} (body : A -> Conversion) xs :
  (forall x self, pipeline_le self (body x self).1) ->
  forall self, pipeline_le self (for_each body xs self).1.
Proof.
  intros Hbody. apply sequence_grows, Forall_map, Forall_forall. auto.
Qed.

Lemma step_grows (m : Conv unit) :
  grows m -> forall self, pipeline_le self (step m self).1.
Proof.
  intros Hm self. unfold step. specialize (Hm self).
  by destruct (m self) as [self' [[]|e]].
Qed.

Lemma declare_state_variable_symbol_grows sv_map sv_sym self :
  pipeline_le self (declare_state_variable_symbol sv_map sv_sym self).1.
Proof.
  unfold declare_state_variable_symbol.
  destruct (sv_map_get sv_sym sv_map) as [tpe|]; [|apply pipeline_le_refl].
  destruct (type_eq tpe HTN_BOOLEAN);
    [|destruct (type_eq tpe HTN_INTEGER); [|apply pipeline_le_refl]];
    apply step_grows, add_symbol_grows.
Qed.

Lemma from_htn_grows htn_problem :
  pipeline_le (new_problem (problem_name htn_problem)) (from_htn htn_problem).1.
Proof.
  unfold from_htn. apply sequence_grows.
  repeat apply List.Forall_cons; try apply List.Forall_nil;
    try (apply for_each_grows; intros x);
    first [ apply declare_state_variable_symbol_grows
          | apply step_grows;
            first [ apply add_constant_grows | apply add_variable_grows
                  | apply add_symbol_grows | apply create_symbol_table_grows
                  | apply add_state_variable_grows | apply create_context_grows
                  | apply add_action_grows | apply add_method_grows
                  | apply set_goal_grows | apply add_initial_effect_grows ] ].
Qed.

(** X14.  [from_htn] keeps the order of the pipeline.  Whether it returns
    or raises, it raises neither [UncreatedSymbolTableError] nor
    [UncreatedContextError]; the builder has received declarations of types
    and symbols, then [create_symbol_table], then predicates and functions,
    then [create_context], then actions, methods, the goal and initial
    effects, up to the point where the conversion stopped; and when it
    returns, the pipeline bears the name of the problem, both flags are set
    and the builder is in the last phase. *)
Theorem X14_from_htn_keeps_the_order (htn_problem : HtnProblem) :
  let self := (from_htn htn_problem).1 in
  let outcome := (from_htn htn_problem).2 in
  name self = problem_name htn_problem
  /\ in_order outcome
  /\ (exists ph,
         log_phase Declaring (problem self) = Some ph
         /\ (outcome = None -> ph = Filling))
  /\ (outcome = None ->
      symbol_table_created self = true /\ context_created self = true).
Proof.
  intros self outcome. subst self outcome.
  split; [apply (from_htn_grows htn_problem)|].
  split; [apply from_htn_in_order|].
  split; [apply from_htn_moves | apply from_htn_in_order].
Qed.

(** *** The map from symbols to types *)

Lemma sv_map_set_keeps k k' v d :
  sv_map_get k d <> None -> sv_map_get k (sv_map_set k' v d) <> None.
Proof.
  induction d as [|[k0 v0] d IH]; simpl; [done|].
  destruct (key_match symbol_key k0 k') eqn:Hk'; simpl;
    destruct (key_match symbol_key k0 k); auto.
Qed.

Lemma sv_map_set_found k v d : sv_map_get k (sv_map_set k v d) = Some v.
Proof.
  induction d as [|[k0 v0] d IH]; simpl.
  - by rewrite key_match_same.
  - destruct (key_match symbol_key k0 k) eqn:Hk; simpl; by rewrite Hk.
Qed.

Lemma sv_map_holds_symbols svs :
  forall d sv,
    sv ∈ svs \/ sv_map_get (sv_symbol sv) d <> None ->
    sv_map_get (sv_symbol sv)
      (fold_left (fun d sv => sv_map_set (sv_symbol sv) (sv_tpe sv) d) svs d)
    <> None.
Proof.
  induction svs as [|sv0 svs IH]; intros d sv [Hin|Hd]; simpl.
  - by apply elem_of_nil in Hin.
  - done.
  - apply IH. apply elem_of_cons in Hin as [->|Hin]; [right|by left].
    by rewrite sv_map_set_found.
  - apply IH. right. by apply sv_map_set_keeps.
Qed.

Lemma elem_of_set_intersection {A : Type} `{EqDecision A} (K : Key A)
    (so other : list A) x :
  x ∈ set_intersection K so other -> x ∈ other.
Proof.
  unfold set_intersection.
  assert (Hgen : forall result,
             x ∈ fold_left
                   (fun result key =>
                      if set_in K key so then set_add K key result else result)
                   other result ->
             x ∈ result \/ x ∈ other).
  { induction other as [|y other IH]; intros result Hx; simpl in Hx;
      [by left|].
    apply IH in Hx as [Hx|Hx]; [|right; by apply list_elem_of_further].
    destruct (set_in K y so); [|by left].
    unfold set_add in Hx. destruct (set_in K y result); [by left|].
    apply elem_of_app in Hx as [Hx|Hx]; [by left|].
    apply list_elem_of_singleton in Hx as ->. right. apply list_elem_of_here. }
  intros Hx. apply Hgen in Hx as [Hx|Hx]; [by apply elem_of_nil in Hx | done].
Qed.

Lemma and_then_no_key_error (first next : Conversion) :
  (forall self key, (first self).2 <> Some (KeyError key)) ->
  (forall self key, (next self).2 <> Some (KeyError key)) ->
  forall self key, (and_then first next self).2 <> Some (KeyError key).
Proof.
  intros Hf Hn self key. unfold and_then. specialize (Hf self key).
  destruct (first self) as [self' [e|]]; simpl in *; [done | apply Hn].
Qed.

Lemma sequence_no_key_error steps :
  Forall (fun c : Conversion =>
            forall self key, (c self).2 <> Some (KeyError key)) steps ->
  forall self key, (sequence steps self).2 <> Some (KeyError key).
Proof.
  induction 1 as [|c steps Hc Hsteps IH]; simpl; [done|].
  by apply and_then_no_key_error.
Qed.

Lemma for_each_no_key_error {A : Type} (body : A -> Conversion) xs :
  (forall x, x ∈ xs ->
             forall self key, (body x self).2 <> Some (KeyError key)) ->
  forall self key, (for_each body xs self).2 <> Some (KeyError key).
Proof.
  intros Hbody. apply sequence_no_key_error, Forall_map, Forall_forall. auto.
Qed.

Lemma step_no_key_error (m : Conv unit) self key :
  (step m self).2 <> Some (KeyError key).
Proof. unfold step. by destruct (m self) as [self' [[]|e]]. Qed.

(** X15.  When iterating a set of symbols yields only symbols of the set,
    every symbol that [from_htn] looks up in [sv_map] is one of its keys:
    the conversion never raises [KeyError]. *)
Theorem X15_from_htn_finds_every_symbol :
  (forall s x, x ∈ symbol_iteration s -> x ∈ s) ->
  forall htn_problem key, (from_htn htn_problem).2 <> Some (KeyError key).
Proof.
  intros Hiter htn_problem. unfold from_htn. apply sequence_no_key_error.
  repeat apply List.Forall_cons; try apply List.Forall_nil;
    try apply step_no_key_error;
    apply for_each_no_key_error; intros x Hx;
    try apply step_no_key_error.
  intros self key. unfold declare_state_variable_symbol.
  apply Hiter, elem_of_set_intersection, list_elem_of_fmap in Hx
    as (sv & -> & Hsv).
  pose proof (sv_map_holds_symbols
                (sv_iteration (problem_state_variables htn_problem)) [] sv
                (or_introl Hsv)) as Hfound.
  destruct (sv_map_get _ _) as [tpe|]; [|done].
  destruct (type_eq tpe HTN_BOOLEAN);
    [|destruct (type_eq tpe HTN_INTEGER); [|done]];
    apply step_no_key_error.
Qed.

(** *** What a conversion that returns has registered *)

Lemma add_state_variable_ok_registers sv self self' :
  add_state_variable sv self = (self', Ok tt) ->
  set_in state_variable_key sv (state_variables self') = true.
Proof.
  intros Hrun.
  destruct (check_symbol self (sv_symbol sv)) as [[]|e] eqn:Hs.
  - pose proof (add_state_variable_registers sv self Hs) as H.
    by rewrite Hrun in H.
  - unfold add_state_variable in Hrun.
    destruct (set_in state_variable_key sv (state_variables self)) eqn:Hin;
      [by injection Hrun as <-|].
    unfold mbind, Conv_bind, conv_bind, reading in Hrun.
    by rewrite Hs in Hrun.
Qed.

Lemma add_action_ok_registers a self self' :
  add_action a self = (self', Ok tt) ->
  set_in primitive_task_key a (actions self') = true.
Proof.
  intros Hrun.
  destruct (check_symbol self (pt_symbol a)) as [[]|e] eqn:Hs;
    [destruct (check_context self) as [[]|e] eqn:Hc|].
  - pose proof (add_action_registers a self Hs Hc) as H. by rewrite Hrun in H.
  - unfold add_action in Hrun.
    destruct (set_in primitive_task_key a (actions self)) eqn:Hin;
      [by injection Hrun as <-|].
    unfold mbind, Conv_bind, conv_bind, reading in Hrun.
    by rewrite Hs, Hc in Hrun.
  - unfold add_action in Hrun.
    destruct (set_in primitive_task_key a (actions self)) eqn:Hin;
      [by injection Hrun as <-|].
    unfold mbind, Conv_bind, conv_bind, reading in Hrun.
    by rewrite Hs in Hrun.
Qed.

Lemma add_method_ok_registers m self self' :
  add_method m self = (self', Ok tt) ->
  set_in method_key m (methods self') = true.
Proof.
  intros Hrun.
  destruct (check_symbol self (m_symbol m)) as [[]|e] eqn:Hs;
    [destruct (check_context self) as [[]|e] eqn:Hc|].
  - pose proof (add_method_registers m self Hs Hc) as H. by rewrite Hrun in H.
  - unfold add_method in Hrun.
    destruct (set_in method_key m (methods self)) eqn:Hin;
      [by injection Hrun as <-|].
    unfold mbind, Conv_bind, conv_bind, reading in Hrun.
    by rewrite Hs, Hc in Hrun.
  - unfold add_method in Hrun.
    destruct (set_in method_key m (methods self)) eqn:Hin;
      [by injection Hrun as <-|].
    unfold mbind, Conv_bind, conv_bind, reading in Hrun.
    by rewrite Hs in Hrun.
Qed.

Lemma add_initial_effect_ok_registers e self self' :
  add_initial_effect e self = (self', Ok tt) ->
  set_in effect_key e (initial_effects self') = true.
Proof.
  intros Hrun.
  destruct (check_symbol self (sv_symbol (eff_sv e))) as [[]|err] eqn:Hs;
    [destruct (check_context self) as [[]|err] eqn:Hc|].
  - pose proof (add_initial_effect_registers e self Hs Hc) as H.
    by rewrite Hrun in H.
  - unfold add_initial_effect in Hrun.
    destruct (set_in effect_key e (initial_effects self)) eqn:Hin;
      [by injection Hrun as <-|].
    unfold mbind, Conv_bind, conv_bind, reading in Hrun.
    by rewrite Hs, Hc in Hrun.
  - unfold add_initial_effect in Hrun.
    destruct (set_in effect_key e (initial_effects self)) eqn:Hin;
      [by injection Hrun as <-|].
    unfold mbind, Conv_bind, conv_bind, reading in Hrun.
    by rewrite Hs in Hrun.
Qed.

Lemma step_none (m : Conv unit) self :
  (step m self).2 = None -> m self = ((step m self).1, Ok tt).
Proof. unfold step. by destruct (m self) as [self' [[]|e]]. Qed.

(** A loop that went through has, for each item, what its body gives and
    later states keep. *)
Lemma for_each_post {A : Type} (body : A -> Conversion)
    (Q : A -> ChroniclesProblem -> Prop) xs :
  (forall x self, (body x self).2 = None -> Q x (body x self).1) ->
  (forall x s s', pipeline_le s s' -> Q x s -> Q x s') ->
  (forall x self, pipeline_le self (body x self).1) ->
  forall self,
    (for_each body xs self).2 = None ->
    forall x, x ∈ xs -> Q x (for_each body xs self).1.
Proof.
  intros Hpost Hkeep Hgrows. unfold for_each.
  induction xs as [|y xs IH]; intros self Hnone x Hx;
    [by apply elem_of_nil in Hx|].
  simpl in *. unfold and_then in *.
  pose proof (Hpost y self) as Hy.
  destruct (body y self) as [self' [e|]] eqn:Hbody; simpl in *; [done|].
  apply elem_of_cons in Hx as [->|Hx]; [|by apply IH].
  eapply Hkeep; [|by apply Hy].
  apply (for_each_grows body xs Hgrows self').
Qed.

(** Steps paired with what each leaves behind *)
Lemma sequence_posts
    (steps : list (Conversion * (ChroniclesProblem -> Prop))) :
  Forall (fun cq =>
            (forall self, (cq.1 self).2 = None -> cq.2 (cq.1 self).1)
            /\ (forall s s', pipeline_le s s' -> cq.2 s -> cq.2 s')
            /\ (forall self, pipeline_le self (cq.1 self).1)) steps ->
  forall self,
    (sequence (map fst steps) self).2 = None ->
    Forall (fun cq => cq.2 (sequence (map fst steps) self).1) steps.
Proof.
  induction 1 as [|[c Q] steps (Hpost & Hkeep & Hgrows) Hsteps IH];
    intros self Hnone; [apply List.Forall_nil|].
  simpl in *. unfold and_then in *.
  specialize (Hpost self).
  destruct (c self) as [self' [e|]] eqn:Hc; simpl in *; [done|].
  apply List.Forall_cons; [|by apply IH]. simpl.
  eapply Hkeep; [|by apply Hpost].
  apply sequence_grows.
  apply Forall_map. eapply Forall_impl; [exact Hsteps|].
  by intros [c' Q'] (_ & _ & H).
Qed.

Lemma loop_registers {A B : Type} `{EqDecision B} (op : A -> Conv unit)
    (key : Key B) (registry : ChroniclesProblem -> list B) (f : A -> B) xs :
  (forall x self self',
      op x self = (self', Ok tt) -> set_in key (f x) (registry self') = true) ->
  (forall y s s', pipeline_le s s' ->
                  set_in key y (registry s) = true ->
                  set_in key y (registry s') = true) ->
  (forall x, grows (op x)) ->
  let c := for_each (fun x => step (op x)) xs in
  let Q := fun s => forall x, x ∈ xs -> set_in key (f x) (registry s) = true in
  (forall self, (c self).2 = None -> Q (c self).1)
  /\ (forall s s', pipeline_le s s' -> Q s -> Q s')
  /\ (forall self, pipeline_le self (c self).1).
Proof.
  intros Hop Hreg Hgrows c Q. subst c Q. split; [|split].
  - intros self Hnone x Hx.
    apply (for_each_post (fun x => step (op x))
             (fun x s => set_in key (f x) (registry s) = true) xs);
      try done.
    + intros y s Hy. eapply Hop. by apply step_none.
    + intros y s s'. apply Hreg.
    + intros y s. by apply step_grows.
  - intros s s' Hle HQ x Hx. eapply Hreg; [exact Hle | by apply HQ].
  - apply for_each_grows. intros x self. by apply step_grows.
Qed.

Lemma step_leaves_nothing (c : Conversion) :
  (forall self, pipeline_le self (c self).1) ->
  (forall self, (c self).2 = None -> (fun _ => True) (c self).1)
  /\ (forall s s', pipeline_le s s' -> (fun _ : ChroniclesProblem => True) s ->
                   (fun _ : ChroniclesProblem => True) s')
  /\ (forall self, pipeline_le self (c self).1).
Proof. done. Qed.

(** X16.  When [from_htn] returns, everything it went through is
    registered in the pipeline: the constants and variables of the
    language, the symbols of its primitive and compound tasks and of the
    methods, the state variables of the problem, the actions, the methods
    and the initial effects. *)
Theorem X16_from_htn_registers_everything (htn_problem : HtnProblem) :
  (from_htn htn_problem).2 = None ->
  let self := (from_htn htn_problem).1 in
  let language := L (D htn_problem) in
  (forall c, c ∈ obj_iteration (Csts language) ->
             set_in obj_key c (constants self) = true)
  /\ (forall v, v ∈ obj_iteration (Vars language) ->
                set_in obj_key v (variables self) = true)
  /\ (forall s, s ∈ symbol_iteration (Prims language) ->
                set_in symbol_key s (symbols self) = true)
  /\ (forall s, s ∈ symbol_iteration (Comps language) ->
                set_in symbol_key s (symbols self) = true)
  /\ (forall m, m ∈ method_iteration (M (D htn_problem)) ->
                set_in symbol_key (m_symbol m) (symbols self) = true
                /\ set_in method_key m (methods self) = true)
  /\ (forall sv, sv ∈ sv_iteration (problem_state_variables htn_problem) ->
                 set_in state_variable_key sv (state_variables self) = true)
  /\ (forall a, a ∈ primitive_iteration (Tp (D htn_problem)) ->
                set_in primitive_task_key a (actions self) = true)
  /\ (forall e, e ∈ effect_iteration (s_I htn_problem) ->
                set_in effect_key e (initial_effects self) = true).
Proof.
  intros Hnone self language. subst self. revert Hnone. unfold from_htn.
  set (svs := sv_iteration (problem_state_variables htn_problem)).
  set (sv_map := fold_left _ svs []).
  set (sv_syms := symbol_iteration _).
  set (start := new_problem _).
  fold language.
  set (c1 := for_each (fun constant => step (add_constant constant)) _).
  set (c2 := for_each (fun variable => step (add_variable variable)) _).
  set (c3 := for_each (declare_state_variable_symbol sv_map) sv_syms).
  set (c4 := for_each (fun action_sym => step (add_symbol action_sym ACTION None)) _).
  set (c5 := for_each (fun task_sym => step (add_symbol task_sym TASK None)) _).
  set (c6 := for_each (fun method => step (add_symbol (m_symbol method) METHOD None)) _).
  set (c8 := for_each (fun sv => step (add_state_variable sv)) svs).
  set (c10 := for_each (fun action => step (add_action action)) _).
  set (c11 := for_each (fun method => step (add_method method)) _).
  set (c13 := for_each (fun init_effect => step (add_initial_effect init_effect)) _).
  intros Hnone.
  pose proof (sequence_posts
    [ (c1, fun s => forall x, x ∈ obj_iteration (Csts language) ->
                              set_in obj_key x (constants s) = true);
      (c2, fun s => forall x, x ∈ obj_iteration (Vars language) ->
                              set_in obj_key x (variables s) = true);
      (c3, fun _ => True);
      (c4, fun s => forall x, x ∈ symbol_iteration (Prims language) ->
                              set_in symbol_key x (symbols s) = true);
      (c5, fun s => forall x, x ∈ symbol_iteration (Comps language) ->
                              set_in symbol_key x (symbols s) = true);
      (c6, fun s => forall x, x ∈ method_iteration (M (D htn_problem)) ->
                              set_in symbol_key (m_symbol x) (symbols s) = true);
      (step create_symbol_table, fun _ => True);
      (c8, fun s => forall x, x ∈ svs ->
                              set_in state_variable_key x (state_variables s)
                              = true);
      (step create_context, fun _ => True);
      (c10, fun s => forall x, x ∈ primitive_iteration (Tp (D htn_problem)) ->
                               set_in primitive_task_key x (actions s) = true);
      (c11, fun s => forall x, x ∈ method_iteration (M (D htn_problem)) ->
                               set_in method_key x (methods s) = true);
      (step (set_goal (tn_I htn_problem)), fun _ => True);
      (c13, fun s => forall x, x ∈ effect_iteration (s_I htn_problem) ->
                               set_in effect_key x (initial_effects s) = true)
    ]) as Hposts.
  match type of Hposts with
  | ?P -> _ => assert (Hsteps : P)
  end.
  { repeat apply List.Forall_cons; try apply List.Forall_nil; simpl.
    - apply (loop_registers add_constant obj_key constants (fun x => x));
        [|intros y s s' Hle; apply Hle | apply add_constant_grows].
      intros x s s' Hrun. pose proof (add_constant_registers x s) as H.
      by rewrite Hrun in H.
    - apply (loop_registers add_variable obj_key variables (fun x => x));
        [|intros y s s' Hle; apply Hle | apply add_variable_grows].
      intros x s s' Hrun. pose proof (add_variable_registers x s) as H.
      by rewrite Hrun in H.
    - apply step_leaves_nothing. apply for_each_grows.
      intros x s. apply declare_state_variable_symbol_grows.
    - apply (loop_registers (fun x => add_symbol x ACTION None) symbol_key
               symbols (fun x => x));
        [|intros y s s' Hle; apply Hle | intros x; apply add_symbol_grows].
      intros x s s' Hrun.
      pose proof (add_symbol_frame x ACTION None s) as [_ H].
      by rewrite Hrun in H.
    - apply (loop_registers (fun x => add_symbol x TASK None) symbol_key
               symbols (fun x => x));
        [|intros y s s' Hle; apply Hle | intros x; apply add_symbol_grows].
      intros x s s' Hrun.
      pose proof (add_symbol_frame x TASK None s) as [_ H].
      by rewrite Hrun in H.
    - apply (loop_registers (fun x => add_symbol (m_symbol x) METHOD None)
               symbol_key symbols m_symbol);
        [|intros y s s' Hle; apply Hle | intros x; apply add_symbol_grows].
      intros x s s' Hrun.
      pose proof (add_symbol_frame (m_symbol x) METHOD None s) as [_ H].
      by rewrite Hrun in H.
    - apply step_leaves_nothing, step_grows, create_symbol_table_grows.
    - apply (loop_registers add_state_variable state_variable_key
               state_variables (fun x => x));
        [|intros y s s' Hle; apply Hle | apply add_state_variable_grows].
      intros x s s'. apply add_state_variable_ok_registers.
    - apply step_leaves_nothing, step_grows, create_context_grows.
    - apply (loop_registers add_action primitive_task_key actions
               (fun x => x));
        [|intros y s s' Hle; apply Hle | apply add_action_grows].
      intros x s s'. apply add_action_ok_registers.
    - apply (loop_registers add_method method_key methods (fun x => x));
        [|intros y s s' Hle; apply Hle | apply add_method_grows].
      intros x s s'. apply add_method_ok_registers.
    - apply step_leaves_nothing, step_grows, set_goal_grows.
    - apply (loop_registers add_initial_effect effect_key initial_effects
               (fun x => x));
        [|intros y s s' Hle; apply Hle | apply add_initial_effect_grows].
      intros x s s'. apply add_initial_effect_ok_registers. }
  specialize (Hposts Hsteps start Hnone). simpl in Hposts.
  repeat match goal with
         | H : Forall _ (_ :: _) |- _ =>
             apply Forall_cons_1 in H; destruct H as [? H]
         end.
  simpl in *. repeat split; auto.
Qed.

(** *** The parameters of a method *)

Lemma elem_of_set_update {A : Type} `{EqDecision A} (K : Key A) (y : A) ys s :
  y ∈ set_update K ys s -> y ∈ s \/ y ∈ ys.
Proof.
  revert s. induction ys as [|x ys IH]; intros s; simpl; [by left|].
  intros Hin. destruct (IH _ Hin) as [Hs|Hys]; [|right; by right].
  unfold set_add in Hs. destruct (set_in K x s); [by left|].
  apply elem_of_app in Hs as [Hs|Hx]; [by left|].
  apply list_elem_of_singleton in Hx as ->. right. by left.
Qed.

(** The loop [for t in ts: s.update(f(t))] *)
Section Gathered.
Context {A B : Type} `{EqDecision A} (K : Key A) (f : B -> list A).

Lemma set_in_gather_mono x ts s :
  set_in K x s = true ->
  set_in K x (fold_left (fun acc t => set_update K (f t) acc) ts s) = true.
Proof.
  revert s. induction ts as [|t ts IH]; intros s Hx; simpl; [done|].
  apply IH. by apply set_in_update_mono.
Qed.

Lemma set_in_gather_elem x t ts s :
  t ∈ ts -> x ∈ f t ->
  set_in K x (fold_left (fun acc t => set_update K (f t) acc) ts s) = true.
Proof.
  revert s. induction ts as [|t' ts IH]; intros s Ht Hx; simpl.
  - by apply elem_of_nil in Ht.
  - apply elem_of_cons in Ht as [->|Ht].
    + apply set_in_gather_mono. by apply set_in_update_elem.
    + by apply IH.
Qed.

Lemma elem_of_gather y ts s :
  y ∈ fold_left (fun acc t => set_update K (f t) acc) ts s ->
  y ∈ s \/ exists t, t ∈ ts /\ y ∈ f t.
Proof.
  revert s. induction ts as [|t ts IH]; intros s; simpl; [by left|].
  intros Hin. destruct (IH _ Hin) as [Hs|(t' & Ht' & Hy)].
  - apply elem_of_set_update in Hs as [Hs|Hy]; [by left|].
    right. exists t. split; [by left|done].
  - right. exists t'. split; [by right|done].
Qed.
End Gathered.

(** What [x in s] finds in a set, [x in t] finds in the tuple made of an
    iteration that leaves no element out. *)
Lemma set_in_list_contains (x : HtnTypedObject) s t :
  (forall y, y ∈ s -> y ∈ t) ->
  set_in obj_key x s = true -> list_contains py_eq x t = true.
Proof.
  intros Hsub Hin. unfold set_in in Hin.
  apply existsb_exists in Hin as (stored & Hs & Hk).
  unfold list_contains. apply existsb_exists. exists stored.
  split; [by apply list_elem_of_In, Hsub, list_elem_of_In|].
  unfold key_match in Hk. apply andb_true_iff in Hk as [_ Hk]. exact Hk.
Qed.

Lemma task_params_all_params (t : HtnTask) x :
  x ∈ task_params t -> x ∈ task_all_params t.
Proof.
  destruct t as [p|c]; simpl; [|done]. intros Hx. unfold pt_all_params.
  destruct (append_missing_spec
              (flat_map sv_params (sv_iteration (pt_state_variables p)))
              (pt_params p)) as (hidden & -> & _).
  apply elem_of_app. by left.
Qed.

(** X19.  When iterating a set of typed objects yields the elements of the
    set and only them, [HtnMethod.all_params] is made of the parameters of
    the task of the method, of [all_params] of the subtasks of its task
    network and of the parameters of the state variables of its conditions:
    each of these is found in it, and each of its elements is one of
    these.  Every element of [HtnMethod.params] is found in
    [HtnMethod.all_params]. *)
Theorem X19_all_params_of_method (m : HtnMethod) :
  (forall s x, x ∈ obj_iteration s <-> x ∈ s) ->
  let found x := list_contains py_eq x (m_all_params m) = true in
  (forall x, x ∈ ct_params (m_task m) -> found x)
  /\ (forall task x,
         task ∈ tn_tasks (m_task_network m) -> x ∈ task_all_params task ->
         found x)
  /\ (forall sv x,
         sv ∈ sv_iteration (m_state_variables m) -> x ∈ sv_params sv ->
         found x)
  /\ (forall y,
         y ∈ m_all_params m ->
         y ∈ ct_params (m_task m)
         \/ (exists task,
                task ∈ tn_tasks (m_task_network m) /\ y ∈ task_all_params task)
         \/ (exists sv,
                sv ∈ sv_iteration (m_state_variables m) /\ y ∈ sv_params sv))
  /\ (forall x, x ∈ m_params m -> found x).
Proof.
  intros Hiter found. subst found. unfold m_all_params.
  set (own := set_of obj_key (ct_params (m_task m))).
  set (gathered := fold_left _ (tn_tasks (m_task_network m)) own).
  set (hidden := flat_map sv_params (sv_iteration (m_state_variables m))).
  assert (Hfound : forall x,
             set_in obj_key x (set_update obj_key hidden gathered) = true ->
             list_contains py_eq x
               (obj_iteration (set_update obj_key hidden gathered)) = true).
  { intros x. apply set_in_list_contains. intros y Hy. by apply Hiter. }
  assert (Hown : forall x, x ∈ ct_params (m_task m) ->
                           set_in obj_key x gathered = true).
  { intros x Hx. apply set_in_gather_mono. by apply set_in_update_elem. }
  assert (Htasks : forall task x,
             task ∈ tn_tasks (m_task_network m) -> x ∈ task_all_params task ->
             set_in obj_key x gathered = true).
  { intros task x Ht Hx.
    by apply (set_in_gather_elem obj_key task_all_params x task). }
  split; [|split; [|split; [|split]]].
  - intros x Hx. by apply Hfound, set_in_update_mono, Hown.
  - intros task x Ht Hx. apply Hfound, set_in_update_mono. by eapply Htasks.
  - intros sv x Hsv Hx. apply Hfound, set_in_update_elem.
    apply list_elem_of_In, in_flat_map. exists sv.
    split; by apply list_elem_of_In.
  - intros y Hy. apply Hiter, elem_of_set_update in Hy as [Hy|Hy].
    + apply (elem_of_gather obj_key task_all_params) in Hy
        as [Hy|(task & Ht & Hy)].
      * left. unfold own, set_of in Hy.
        apply elem_of_set_update in Hy as [Hy|Hy]; [|done].
        by apply elem_of_nil in Hy.
      * right. left. by exists task.
    + right. right.
      apply list_elem_of_In, in_flat_map in Hy as (sv & Hsv & Hy).
      exists sv. split; by apply list_elem_of_In.
  - intros x Hx. unfold m_params in Hx.
    apply Hiter, (elem_of_gather obj_key task_params) in Hx
      as [Hx|(task & Ht & Hx)].
    + unfold set_of in Hx. apply elem_of_set_update in Hx as [Hx|Hx];
        [by apply elem_of_nil in Hx|].
      by apply Hfound, set_in_update_mono, Hown.
    + apply Hfound, set_in_update_mono.
      eapply Htasks; [done|]. by apply task_params_all_params.
Qed.

End Runtime.

(** ** Copies of entities *)

Section EntityFacts.
Import Entity.

Variable set_iteration : gset HashKey -> list HashKey.
Variable post_init : string -> list (string * option PyObj) -> result unit.

Lemma extends_refl σ : extends σ σ.
Proof. exists []. by rewrite app_nil_r. Qed.

Lemma extends_trans σ1 σ2 σ3 : extends σ1 σ2 -> extends σ2 σ3 -> extends σ1 σ3.
Proof. intros [m1 ->] [m2 ->]. exists (m1 ++ m2). by rewrite app_assoc. Qed.

Lemma extends_lookup σ σ' (l : loc) o :
  extends σ σ' -> σ !! l = Some o -> σ' !! l = Some o.
Proof. intros [more ->] H. by apply lookup_app_l_Some. Qed.

Lemma extends_agrees σ σ' : extends σ σ' -> agrees σ σ'.
Proof. intros [more ->] l Hl. by apply lookup_app_l. Qed.

Lemma extends_length σ σ' : extends σ σ' -> (List.length σ <= List.length σ')%nat.
Proof. intros [more ->]. rewrite length_app. lia. Qed.

(** *** [deepcopy] of a [__dict__] *)

Lemma copy_of_mono σ0 memo memo' (l l' : loc) :
  memo ⊆ memo' -> copy_of σ0 memo l l' -> copy_of σ0 memo' l l'.
Proof.
  intros Hsub [H|H]; [by left | right]. by eapply lookup_weaken.
Qed.

Lemma deepcopy_ref_spec σ0 σ memo (l l' : loc) memo' σ' :
  extends σ0 σ -> memo_inv σ0 σ memo -> (l < List.length σ0)%nat ->
  deepcopy_ref l memo σ = (l', memo', σ') ->
  extends σ σ' /\ memo_inv σ0 σ' memo' /\ memo ⊆ memo'
  /\ copy_of σ0 memo' l l'.
Proof.
  intros Hext Hmi Hl. unfold deepcopy_ref.
  destruct (lookup_lt_is_Some_2 σ0 l Hl) as [o Ho].
  rewrite (extends_lookup _ _ _ _ Hext Ho).
  destruct (is_rebuilt o) eqn:Hr.
  - destruct (memo !! l) as [l0|] eqn:Hml.
    + intros [= <- <- <-]. split; [apply extends_refl|].
      split; [done|]. split; [done|]. by right.
    + intros [= <- <- <-]. destruct Hmi as [Hm Hinj].
      assert (Hfresh : forall l3, memo !! l3 = Some (List.length σ) -> False).
      { intros l3 H3. destruct (Hm _ _ H3) as (_ & o3 & _ & _ & Hl3).
        apply lookup_lt_Some in Hl3. lia. }
      split; [by exists [o]|]. split; [split|split].
      * intros l1 l1' H1. destruct (decide (l1 = l)) as [->|Hne].
        -- rewrite lookup_insert_eq in H1. injection H1 as <-.
           split; [by apply extends_length|]. exists o.
           split; [done|]. split; [done|]. by apply list_lookup_middle.
        -- rewrite lookup_insert_ne in H1 by done.
           destruct (Hm _ _ H1) as (Hge & o1 & Ho1 & Hr1 & Hl1).
           split; [done|]. exists o1.
           split; [done|]. split; [done|]. by apply lookup_app_l_Some.
      * intros l1 l2 l'' H1 H2.
        destruct (decide (l1 = l)) as [->|Hne1], (decide (l2 = l)) as [->|Hne2];
          try done.
        -- rewrite lookup_insert_eq in H1. injection H1 as <-.
           rewrite lookup_insert_ne in H2 by done. by destruct (Hfresh l2).
        -- rewrite lookup_insert_eq in H2. injection H2 as <-.
           rewrite lookup_insert_ne in H1 by done. by destruct (Hfresh l1).
        -- rewrite lookup_insert_ne in H1, H2 by done. by eapply Hinj.
      * by apply insert_subseteq.
      * right. by rewrite lookup_insert_eq.
  - intros [= <- <- <-]. split; [apply extends_refl|].
    split; [done|]. split; [done|]. left. split; [done|]. by exists o.
Qed.

Lemma deepcopy_items_spec σ0 items :
  forall memo σ items' σ',
    extends σ0 σ -> memo_inv σ0 σ memo -> valid_refs σ0 items ->
    deepcopy_items items memo σ = (items', σ') ->
    exists memo',
      extends σ σ' /\ memo_inv σ0 σ' memo' /\ memo ⊆ memo'
      /\ Forall2 (fun a b => b.1 = a.1 /\ copy_of σ0 memo' a.2 b.2) items items'.
Proof.
  induction items as [|[k l] items IH]; intros memo σ items' σ' Hext Hm Hv Hc;
    simpl in Hc.
  - injection Hc as <- <-. exists memo. split; [apply extends_refl|].
    split; [done|]. split; [done|]. constructor.
  - destruct (deepcopy_ref l memo σ) as [[l1 memo1] σ1] eqn:Hr.
    destruct (deepcopy_items items memo1 σ1) as [rest' σ2] eqn:Hrest.
    injection Hc as <- <-.
    assert (Hl : (l < List.length σ0)%nat) by (apply (Hv k); left).
    destruct (deepcopy_ref_spec _ _ _ _ _ _ _ Hext Hm Hl Hr)
      as (Hext1 & Hm1 & Hsub1 & Hcopy1).
    destruct (IH memo1 σ1 rest' σ2) as (memo2 & Hext2 & Hm2 & Hsub2 & Hall);
      try done.
    { by eapply extends_trans. }
    { intros k' l' Hin. apply (Hv k'). by right. }
    exists memo2. split; [by eapply extends_trans|]. split; [done|].
    split; [by etrans|]. constructor; [|done]. split; [done|].
    by eapply copy_of_mono.
Qed.

Lemma memo_inv_empty σ0 : memo_inv σ0 σ0 ∅.
Proof. split; intros *; by rewrite lookup_empty. Qed.

(** The copy of a [__dict__]: the same keys; under each key the same
    object, or a copy with the same contents when the object is rebuilt. *)
Lemma get_attributes_spec self σ0 attributes σ1 :
  valid_refs σ0 (inst_dict self) ->
  get_attributes self σ0 = (attributes, σ1) ->
  exists memo,
    extends σ0 σ1 /\ memo_inv σ0 σ1 memo
    /\ Forall2 (fun a b => b.1 = a.1 /\ copy_of σ0 memo a.2 b.2)
         (inst_dict self) attributes.
Proof.
  intros Hv Hc. unfold get_attributes in Hc.
  destruct (deepcopy_items_spec σ0 _ _ _ _ _ (extends_refl σ0)
              (memo_inv_empty σ0) Hv Hc) as (memo & He & Hm & _ & Hall).
  by exists memo.
Qed.

Lemma copy_of_contents σ0 σ1 memo (l l' : loc) :
  extends σ0 σ1 -> memo_inv σ0 σ1 memo -> copy_of σ0 memo l l' ->
  exists o, σ0 !! l = Some o /\ σ1 !! l' = Some o.
Proof.
  intros Hext [Hm _] [[-> (o & Ho & _)]|H].
  - exists o. split; [done|]. by eapply extends_lookup.
  - destruct (Hm _ _ H) as (_ & o & Ho & _ & Hl'). by exists o.
Qed.

(** *** [copy_with] *)

Lemma deepcopy_items_extends items memo σ :
  extends σ (deepcopy_items items memo σ).2.
Proof.
  revert memo σ. induction items as [|[k l] items IH]; intros memo σ; simpl.
  - apply extends_refl.
  - destruct (deepcopy_ref l memo σ) as [[l1 memo1] σ1] eqn:Hr.
    specialize (IH memo1 σ1).
    destruct (deepcopy_items items memo1 σ1) as [rest' σ2]. simpl in *.
    eapply extends_trans; [|done].
    unfold deepcopy_ref in Hr.
    destruct (σ !! l) as [o|]; [|injection Hr as _ _ <-; apply extends_refl].
    destruct (is_rebuilt o); [|injection Hr as _ _ <-; apply extends_refl].
    destruct (memo !! l); injection Hr as _ _ <-;
      [apply extends_refl | by exists [o]].
Qed.

Lemma obj_eq_refl o : obj_eq o o = true.
Proof. destruct o; simpl; unfold atom_eq; by apply bool_decide_eq_true_2. Qed.

Lemma dict_set_same_contents σ1 σ2 k (v : loc) d1 d2 :
  (exists o, σ1 !! v = Some o /\ σ2 !! v = Some o) ->
  Forall2 (same_contents σ1 σ2) d1 d2 ->
  Forall2 (same_contents σ1 σ2) (dict_set k v d1) (dict_set k v d2).
Proof.
  intros Hv Hall. induction Hall as [|[k1 l1] [k2 l2] d1 d2 [Hk Hc] Hall IH];
    simpl.
  - by repeat constructor.
  - simpl in Hk. subst k2. destruct (String.eqb k1 k).
    + constructor; [by split|done].
    + constructor; [by split|done].
Qed.

Lemma dict_update_same_contents σ1 σ2 kwargs d1 d2 :
  (forall k v, (k, v) ∈ kwargs -> exists o, σ1 !! v = Some o /\ σ2 !! v = Some o) ->
  Forall2 (same_contents σ1 σ2) d1 d2 ->
  Forall2 (same_contents σ1 σ2) (dict_update kwargs d1) (dict_update kwargs d2).
Proof.
  unfold dict_update. revert d1 d2.
  induction kwargs as [|[k v] kwargs IH]; intros d1 d2 Hv Hall; simpl; [done|].
  apply IH.
  - intros k' v' Hin. apply (Hv k'). by right.
  - apply dict_set_same_contents; [|done]. apply (Hv k). by left.
Qed.

Lemma same_contents_forallb σ1 σ2 (f : string -> bool) d1 d2 :
  Forall2 (same_contents σ1 σ2) d1 d2 ->
  forallb (fun kv : string * loc => f kv.1) d1
  = forallb (fun kv : string * loc => f kv.1) d2.
Proof.
  induction 1 as [|a b d1 d2 [Hk _] _ IH]; simpl; [done|]. by rewrite Hk, IH.
Qed.

Lemma same_contents_values σ1 σ2 d1 d2 :
  Forall2 (same_contents σ1 σ2) d1 d2 ->
  (fun kv : string * loc => (kv.1, σ1 !! kv.2)) <$> d1
  = (fun kv : string * loc => (kv.1, σ2 !! kv.2)) <$> d2.
Proof.
  induction 1 as [|a b d1 d2 [Hk (o & H1 & H2)] _ IH]; [done|].
  rewrite !fmap_cons. f_equal; [|done]. by rewrite Hk, H1, H2.
Qed.

Lemma same_contents_fields_eq σ1 σ2 d1 d2 :
  extends σ1 σ2 ->
  Forall2 (same_contents σ1 σ2) d1 d2 -> fields_eq σ2 d1 d2 = true.
Proof.
  intros Hext.
  induction 1 as [|[k1 l1] [k2 l2] d1 d2 [Hk (o & H1 & H2)] _ IH]; simpl;
    [done|].
  simpl in *. subst k2. rewrite String.eqb_refl, IH. simpl.
  unfold ref_eq. rewrite (extends_lookup _ _ _ _ Hext H1), H2, obj_eq_refl.
  by rewrite orb_true_r.
Qed.

Lemma copies_same_contents σ0 σ1 σ2 memo1 memo2 d a1 a2 :
  extends σ0 σ1 -> memo_inv σ0 σ1 memo1 ->
  extends σ1 σ2 -> memo_inv σ1 σ2 memo2 ->
  Forall2 (fun a b : string * loc => b.1 = a.1 /\ copy_of σ0 memo1 a.2 b.2) d a1 ->
  Forall2 (fun a b : string * loc => b.1 = a.1 /\ copy_of σ1 memo2 a.2 b.2) d a2 ->
  Forall2 (same_contents σ1 σ2) a1 a2.
Proof.
  intros Hext1 Hm1 Hext2 Hm2 Hall1. revert a2.
  induction Hall1 as [|[k l] [k1 l1] d a1 [Hk1 Hc1] _ IH]; intros a2 Hall2.
  - inversion Hall2. constructor.
  - inversion Hall2 as [|? [k2 l2] ? a2' [Hk2 Hc2] Hrest]; subst.
    simpl in *. subst. constructor; [|by apply IH].
    split; [done|]. simpl.
    destruct (copy_of_contents _ _ _ _ _ Hext1 Hm1 Hc1) as (o & Ho & Ho1).
    destruct (copy_of_contents _ _ _ _ _ Hext2 Hm2 Hc2) as (o' & Ho' & Ho2).
    rewrite (extends_lookup _ _ _ _ Hext1 Ho) in Ho'. injection Ho' as <-.
    by exists o.
Qed.

Lemma copy_with_extends self overrides σ :
  extends σ (copy_with post_init self overrides σ).1.
Proof.
  unfold copy_with, get_attributes.
  pose proof (deepcopy_items_extends (inst_dict self) ∅ σ) as H.
  by destruct (deepcopy_items _ _ _).
Qed.

Lemma copy_with_twice self overrides σ σ1 e1 :
  valid_refs σ (inst_dict self) -> valid_refs σ overrides ->
  copy_with post_init self overrides σ = (σ1, Ok e1) ->
  exists σ2 e2,
    copy_with post_init self overrides σ1 = (σ2, Ok e2)
    /\ entity_eq σ2 e1 e2 = true.
Proof.
  intros Hself Hov. unfold copy_with.
  destruct (get_attributes self σ) as [attrs1 σ1'] eqn:H1.
  intros [= <- Hc1].
  destruct (get_attributes_spec _ _ _ _ Hself H1) as (memo1 & Hext1 & Hm1 & Hall1).
  destruct (get_attributes self σ1') as [attrs2 σ2] eqn:H2.
  assert (Hself1 : valid_refs σ1' (inst_dict self)).
  { intros k l Hin. specialize (Hself k l Hin).
    apply extends_length in Hext1. lia. }
  destruct (get_attributes_spec _ _ _ _ Hself1 H2) as (memo2 & Hext2 & Hm2 & Hall2).
  pose proof (copies_same_contents _ _ _ _ _ _ _ _ Hext1 Hm1 Hext2 Hm2
                Hall1 Hall2) as Hsame.
  assert (Hupd : Forall2 (same_contents σ1' σ2)
                   (dict_update overrides attrs1) (dict_update overrides attrs2)).
  { apply dict_update_same_contents; [|done]. intros k v Hin.
    destruct (lookup_lt_is_Some_2 σ v (Hov k v Hin)) as [o Ho].
    exists o. split; [by eapply extends_lookup|].
    eapply extends_lookup; [done|]. by eapply extends_lookup. }
  unfold construct in *.
  pose proof (same_contents_forallb _ _
                (fun k => bool_decide (k ∈ (inst_dict self).*1)) _ _ Hupd) as Hkeys.
  simpl in Hkeys. rewrite <- Hkeys.
  rewrite <- (same_contents_values _ _ _ _ Hupd).
  destruct (forallb _ (dict_update overrides attrs1)); [|done].
  destruct (post_init _ _) as [[]|]; [|done]. simpl in Hc1.
  injection Hc1 as <-. eexists _, _. split; [done|].
  unfold entity_eq; simpl. rewrite String.eqb_refl. simpl.
  by apply (same_contents_fields_eq σ1').
Qed.

(** *** [copy_and_extend_with] *)

Lemma dict_get_elem k (l : loc) d : dict_get k d = Some l -> (k, l) ∈ d.
Proof.
  induction d as [|[k' v] d IH]; simpl; [done|].
  destruct (String.eqb_spec k' k) as [->|Hne].
  - intros [= ->]. by left.
  - intros H. right. by apply IH.
Qed.

Lemma dict_get_set_eq k (v : loc) d : dict_get k (dict_set k v d) = Some v.
Proof.
  induction d as [|[k' v'] d IH]; simpl.
  - by rewrite String.eqb_refl.
  - destruct (String.eqb k' k) eqn:E; simpl; by rewrite E.
Qed.

Lemma dict_get_set_ne k k' (v : loc) d :
  k' <> k -> dict_get k' (dict_set k v d) = dict_get k' d.
Proof.
  intros Hne. induction d as [|[k0 v0] d IH]; simpl.
  - destruct (String.eqb_spec k k'); [by subst|done].
  - destruct (String.eqb_spec k0 k) as [->|Hk]; simpl.
    + destruct (String.eqb_spec k k'); [by subst|done].
    + by rewrite IH.
Qed.

Lemma dict_get_copy (P : loc -> loc -> Prop) k d d' :
  Forall2 (fun a b : string * loc => b.1 = a.1 /\ P a.2 b.2) d d' ->
  match dict_get k d with
  | Some l => exists l', dict_get k d' = Some l' /\ P l l'
  | None => dict_get k d' = None
  end.
Proof.
  induction 1 as [|[k1 l1] [k2 l2] d d' [Hk HP] _ IH]; simpl; [done|].
  simpl in *. subst k2. destruct (String.eqb k1 k); [|done]. by exists l2.
Qed.

Section ExtendLoop.
(** The store before the call, the store and the memo once
    [__get_attributes] has returned, and the [__dict__] copied *)
Variables (σ0 σ1 : Store) (memo : gmap loc loc) (dict : list (string * loc)).
Hypothesis memo_ok : memo_inv σ0 σ1 memo.
Hypothesis store_grew : (List.length σ0 <= List.length σ1)%nat.
Hypothesis dict_valid :
  forall k (l : loc), dict_get k dict = Some l -> (l < List.length σ0)%nat.
(** No set or dict is held by two fields. *)
Hypothesis not_shared :
  forall k1 k2 (l : loc),
    k1 <> k2 -> dict_get k1 dict = Some l -> dict_get k2 dict = Some l ->
    is_updated_in_place (σ0 !! l) = false.

Local Abbreviation field_ok := (Entity.field_ok set_iteration σ0 σ1 memo).
Local Abbreviation extend_inv := (Entity.extend_inv set_iteration σ0 σ1 memo dict).

Lemma extend_inv_ext attributes σ given given' :
  (forall k, given k = given' k) ->
  extend_inv attributes σ given -> extend_inv attributes σ given'.
Proof.
  intros Heq (Ha & Hlen & Hf & Hn). split; [done|]. split; [done|]. split.
  - intros k l Hk. destruct (Hf k l Hk) as (l' & Hl' & Hok).
    exists l'. by rewrite <- Heq.
  - intros k Hk Hg. apply Hn; [done|]. by rewrite Heq.
Qed.

Lemma memo_image_bounds (l l' : loc) :
  memo !! l = Some l' -> (List.length σ0 <= l' < List.length σ1)%nat.
Proof.
  intros H. destruct memo_ok as [Hm _].
  destruct (Hm _ _ H) as (Hge & o & _ & _ & Hl'). split; [done|].
  by apply lookup_lt_Some in Hl'.
Qed.

(** Turning to a field not met yet that holds a set or a dict: its object
    is a copy, and no other field of the copy holds it. *)
Lemma updated_cell_private attributes σ given name l current :
  extend_inv attributes σ given ->
  given name = None ->
  dict_get name dict = Some l ->
  dict_get name attributes = Some current ->
  is_updated_in_place (σ !! current) = true ->
  memo !! l = Some current
  /\ σ !! current = σ0 !! l
  /\ (forall k lk l'k,
        k <> name -> dict_get k dict = Some lk ->
        dict_get k attributes = Some l'k -> l'k <> current).
Proof.
  intros (Ha & Hlen & Hf & Hn) Hg Hl Hcur Hupd.
  destruct (Hf name l Hl) as (l' & Hl' & Hlt & Hok).
  rewrite Hcur in Hl'. injection Hl' as <-. rewrite Hg in Hok.
  destruct Hok as [Hcopy Hsame].
  assert (Hmemo : memo !! l = Some current).
  { destruct Hcopy as [[-> (o & Ho & Hr)]|H]; [|done].
    rewrite Hsame, Ho in Hupd. by destruct o. }
  split; [done|]. split; [done|].
  intros k lk l'k Hne Hk Hk' ->.
  destruct (memo_image_bounds _ _ Hmemo) as [Hge Hlt1].
  assert (Hshared : memo !! lk = Some current -> False).
  { intros H. destruct memo_ok as [_ Hinj].
    rewrite (Hinj _ _ _ H Hmemo) in Hk.
    pose proof (not_shared k name l Hne Hk Hl) as Hns.
    rewrite <- Hsame in Hns. congruence. }
  destruct (Hf k lk Hk) as (l'' & Hl'' & _ & Hok').
  rewrite Hk' in Hl''. injection Hl'' as <-.
  destruct (given k) as [v|].
  - destruct Hok' as [_ [Ho|[Ho|Ho]]]; [lia|lia|done].
  - destruct Hok' as [[[Heq _]|Ho] _]; [|done].
    pose proof (dict_valid _ _ Hk). lia.
Qed.

Lemma field_ok_transfer σ σ' (l l' : loc) given :
  (List.length σ <= List.length σ')%nat ->
  σ' !! l' = σ !! l' ->
  field_ok σ l l' given -> field_ok σ' l l' given.
Proof.
  intros Hlen Hsame [Hlt Hok]. split; [lia|]. by rewrite Hsame.
Qed.

(** A turn that leaves the dict and the addresses in use as they are *)
Lemma extend_inv_update attributes σ given name (v l current : loc) o :
  extend_inv attributes σ given ->
  given name = None ->
  dict_get name dict = Some l ->
  dict_get name attributes = Some current ->
  is_updated_in_place (σ !! current) = true ->
  extended_with set_iteration (σ0 !! l) (σ0 !! v) (Some o) ->
  extend_inv attributes (<[current := o]> σ)
    (fun k => if String.eqb name k then Some v else given k).
Proof.
  intros Hinv Hg Hl Hcur Hupd Hext.
  destruct (updated_cell_private _ _ _ _ _ _ Hinv Hg Hl Hcur Hupd)
    as (Hmemo & Hsame & Hpriv).
  destruct (memo_image_bounds _ _ Hmemo) as [Hge Hlt1].
  destruct Hinv as (Ha & Hlen & Hf & Hn).
  assert (Hcurlt : (current < List.length σ)%nat).
  { destruct (σ !! current) eqn:E; [by apply lookup_lt_Some in E|done]. }
  split; [|split; [|split]].
  - intros l0 Hl0. rewrite list_lookup_insert_ne by lia. by apply Ha.
  - by rewrite length_insert.
  - intros k lk Hk. destruct (Hf k lk Hk) as (l'k & Hk' & Hok).
    exists l'k. split; [done|].
    destruct (String.eqb_spec name k) as [<-|Hne].
    + rewrite Hl in Hk. injection Hk as <-.
      rewrite Hcur in Hk'. injection Hk' as <-.
      split; [by rewrite length_insert|].
      rewrite list_lookup_insert_eq by done. split; [done|]. by right; right.
    + apply (field_ok_transfer σ); [by rewrite length_insert| |done].
      apply list_lookup_insert_ne. intros Heq.
      by apply (Hpriv k lk l'k).
  - intros k Hk Hgk. destruct (String.eqb_spec name k); [done|]. by apply Hn.
Qed.

(** A turn that binds the field to another address, without touching any
    object *)
Lemma extend_inv_rebind attributes σ σ' given name (v l l' : loc) :
  extend_inv attributes σ given ->
  given name = None ->
  dict_get name dict = Some l ->
  extends σ σ' ->
  (l' < List.length σ')%nat ->
  extended_with set_iteration (σ0 !! l) (σ0 !! v) (σ' !! l') ->
  ((l' < List.length σ0)%nat \/ (List.length σ1 <= l')%nat) ->
  extend_inv (dict_set name l' attributes) σ'
    (fun k => if String.eqb name k then Some v else given k).
Proof.
  intros (Ha & Hlen & Hf & Hn) Hg Hl Hext Hlt Hres Horigin.
  pose proof (extends_length _ _ Hext) as Hlen'.
  split; [|split; [|split]].
  - intros l0 Hl0. rewrite <- (Ha l0 Hl0).
    apply (extends_agrees _ _ Hext). lia.
  - lia.
  - intros k lk Hk.
    destruct (String.eqb_spec name k) as [<-|Hne].
    + rewrite Hl in Hk. injection Hk as <-. exists l'.
      split; [apply dict_get_set_eq|]. split; [done|]. split; [done|].
      destruct Horigin; auto.
    + destruct (Hf k lk Hk) as (l'k & Hk' & Hok). exists l'k.
      split; [by rewrite dict_get_set_ne|].
      apply (field_ok_transfer σ); [done| |done].
      apply (extends_agrees _ _ Hext). by destruct Hok.
  - intros k Hk Hgk. destruct (String.eqb_spec name k) as [<-|Hne]; [done|].
    rewrite dict_get_set_ne by done. by apply Hn.
Qed.

(** A keyword that names no field is added to the dict. *)
Lemma extend_inv_unknown attributes σ given name (v : loc) :
  extend_inv attributes σ given ->
  dict_get name dict = None ->
  extend_inv (dict_set name v attributes) σ
    (fun k => if String.eqb name k then Some v else given k).
Proof.
  intros (Ha & Hlen & Hf & Hn) Hnone. split; [done|]. split; [done|]. split.
  - intros k lk Hk.
    destruct (String.eqb_spec name k) as [<-|Hne]; [congruence|].
    destruct (Hf k lk Hk) as (l'k & Hk' & Hok). exists l'k.
    by rewrite dict_get_set_ne.
  - intros k Hk Hgk. destruct (String.eqb_spec name k) as [<-|Hne]; [done|].
    rewrite dict_get_set_ne by done. by apply Hn.
Qed.

Lemma extend_one_inv attributes σ given name (v : loc) σ' attributes' :
  extend_inv attributes σ given ->
  given name = None ->
  (v < List.length σ0)%nat ->
  extend_one set_iteration name v attributes σ = (σ', Ok attributes') ->
  extend_inv attributes' σ'
    (fun k => if String.eqb name k then Some v else given k).
Proof.
  intros Hinv Hg Hv. unfold extend_one.
  destruct (dict_get name dict) as [l|] eqn:Hl; cycle 1.
  { destruct Hinv as (Ha & Hlen & Hf & Hn). rewrite (Hn name Hl Hg).
    intros [= <- <-]. by apply extend_inv_unknown. }
  pose proof Hinv as (Ha & Hlen & Hf & Hn).
  destruct (Hf name l Hl) as (current & Hcur & Hlt & Hok).
  rewrite Hg in Hok. destruct Hok as [Hcopy Hsame]. rewrite Hcur.
  assert (Hgiven : σ !! v = σ0 !! v) by (by apply Ha).
  destruct (lookup_lt_is_Some_2 σ0 v Hv) as [g Hg0].
  rewrite Hgiven, Hg0.
  assert (Hvlt : (v < List.length σ)%nat).
  { apply (lookup_lt_Some σ v g). by rewrite Hgiven. }
  destruct (σ !! current) as [[a|xs|xs|s|d]|] eqn:Hc.
  - intros [= <- <-].
    apply (extend_inv_rebind _ σ σ _ _ _ l);
      [done | done | done | apply extends_refl | done | | by left].
    rewrite <- Hsame. simpl. by rewrite Hgiven.
  - destruct g as [| ys | | |]; try done. intros [= <- <-].
    apply (extend_inv_rebind _ σ (σ ++ [OTuple (xs ++ ys)]) _ _ _ l);
      [done | done | done | by exists [OTuple (xs ++ ys)]
      | rewrite length_app; simpl; lia | | right; lia].
    rewrite <- Hsame, Hg0. exists ys. split; [done|].
    by apply list_lookup_middle.
  - destruct g as [| | ys | |]; try done. intros [= <- <-].
    apply (extend_inv_rebind _ σ (σ ++ [OList (xs ++ ys)]) _ _ _ l);
      [done | done | done | by exists [OList (xs ++ ys)]
      | rewrite length_app; simpl; lia | | right; lia].
    rewrite <- Hsame, Hg0. exists ys. split; [done|].
    by apply list_lookup_middle.
  - destruct (set_update_arg g) as [t|] eqn:Ht; [|done]. intros [= <- <-].
    apply (extend_inv_update _ _ _ _ _ l);
      [done | done | done | done | by rewrite Hc |].
    rewrite <- Hsame, Hg0. by exists g, t.
  - destruct (dict_update_arg set_iteration g) as [e|] eqn:He; [|done].
    intros [= <- <-].
    apply (extend_inv_update _ _ _ _ _ l);
      [done | done | done | done | by rewrite Hc |].
    rewrite <- Hsame, Hg0. by exists g, e.
  - apply lookup_ge_None in Hc. lia.
Qed.

Lemma dict_get_not_key k (d : list (string * loc)) :
  k ∉ d.*1 -> dict_get k d = None.
Proof.
  induction d as [|[k' v] d IH]; simpl; [done|]. intros Hnot.
  destruct (String.eqb_spec k' k) as [->|Hne].
  - destruct Hnot. by left.
  - apply IH. intros Hin. apply Hnot. by right.
Qed.

Lemma extend_loop_inv rest :
  forall attributes σ given σ' attributes',
    NoDup rest.*1 -> valid_refs σ0 rest ->
    (forall k, k ∈ rest.*1 -> given k = None) ->
    extend_inv attributes σ given ->
    extend set_iteration rest attributes σ = (σ', Ok attributes') ->
    extend_inv attributes' σ'
      (fun k => match dict_get k rest with Some v => Some v | None => given k end).
Proof.
  induction rest as [|[name v] rest IH];
    intros attributes σ given σ' attributes' Hnd Hvalid Hgiven Hinv Hrun;
    simpl in Hrun.
  - injection Hrun as <- <-. by apply (extend_inv_ext _ _ given).
  - destruct (extend_one set_iteration name v attributes σ)
      as [σ2 [attributes2|e]] eqn:Hstep; [|done].
    rewrite fmap_cons in Hnd. apply NoDup_cons in Hnd as [Hnotin Hnd].
    assert (Hv : (v < List.length σ0)%nat) by (apply (Hvalid name); left).
    pose proof (extend_one_inv _ _ _ _ _ _ _ Hinv
                  (Hgiven name ltac:(left)) Hv Hstep) as Hinv2.
    assert (Hvalid' : valid_refs σ0 rest).
    { intros k' l' Hin. apply (Hvalid k'). by right. }
    assert (Hgiven' : forall k, k ∈ rest.*1 ->
               (if String.eqb name k then Some v else given k) = None).
    { intros k Hin. destruct (String.eqb_spec name k) as [<-|Hne]; [done|].
      apply Hgiven. by right. }
    eapply extend_inv_ext;
      [|exact (IH _ _ _ _ _ Hnd Hvalid' Hgiven' Hinv2 Hrun)].
    intros k. simpl. destruct (String.eqb_spec name k) as [<-|Hne].
    + by rewrite (dict_get_not_key name rest Hnotin).
    + done.
Qed.
End ExtendLoop.

(** *** The original is left alone *)

Lemma is_rebuilt_updated (o : PyObj) :
  is_rebuilt o = false -> is_updated_in_place (Some o) = false.
Proof. by destruct o. Qed.

Lemma extend_one_frame σ0 name (v : loc) attributes σ σ' r :
  agrees σ0 σ ->
  (forall current : loc,
      dict_get name attributes = Some current ->
      (current < List.length σ0)%nat ->
      is_updated_in_place (σ0 !! current) = false) ->
  extend_one set_iteration name v attributes σ = (σ', r) ->
  agrees σ0 σ'
  /\ (forall attributes', r = Ok attributes' ->
        forall k, k <> name -> dict_get k attributes' = dict_get k attributes).
Proof.
  intros Ha Hfresh. unfold extend_one.
  assert (Happ : forall o, agrees σ0 (σ ++ [o])).
  { intros o l Hl. rewrite <- (Ha l Hl).
    destruct (lookup_lt_is_Some_2 σ0 l Hl) as [o' Ho'].
    rewrite <- (Ha l Hl) in Ho'. rewrite Ho'. by apply lookup_app_l_Some. }
  assert (Hins : forall (current : loc) o,
             dict_get name attributes = Some current ->
             is_updated_in_place (σ !! current) = true ->
             agrees σ0 (<[current := o]> σ)).
  { intros current o Hcur Hupd l Hl.
    destruct (decide (l = current)) as [->|Hne].
    - rewrite (Ha current Hl), (Hfresh current Hcur Hl) in Hupd. done.
    - rewrite list_lookup_insert_ne by done. by apply Ha. }
  destruct (dict_get name attributes) as [current|] eqn:Hcur; cycle 1.
  { intros [= <- <-]. split; [done|]. intros ? [= <-] k Hk.
    by apply dict_get_set_ne. }
  destruct (σ !! current) as [[a|xs|xs|s|d]|] eqn:Hc.
  - intros [= <- <-]. split; [done|]. intros ? [= <-] k Hk.
    by apply dict_get_set_ne.
  - destruct (σ !! v) as [[| ys | | |]|]; intros [= <- <-];
      (split; [done || apply Happ|]); intros ? [= <-] k Hk;
      by apply dict_get_set_ne.
  - destruct (σ !! v) as [[| | ys | |]|]; intros [= <- <-];
      (split; [done || apply Happ|]); intros ? [= <-] k Hk;
      by apply dict_get_set_ne.
  - destruct (σ !! v) as [g|]; [|by intros [= <- <-]].
    destruct (set_update_arg g); intros [= <- <-]; [|done].
    split; [apply Hins; [done | by rewrite Hc]|]. by intros ? [= <-].
  - destruct (σ !! v) as [g|]; [|by intros [= <- <-]].
    destruct (dict_update_arg set_iteration g); intros [= <- <-]; [|done].
    split; [apply Hins; [done | by rewrite Hc]|]. by intros ? [= <-].
  - intros [= <- <-]. split; [done|]. intros ? [= <-] k Hk.
    by apply dict_get_set_ne.
Qed.

Lemma extend_frame σ0 rest :
  forall attributes σ σ' r,
    NoDup rest.*1 ->
    agrees σ0 σ ->
    (forall k (current : loc),
        k ∈ rest.*1 -> dict_get k attributes = Some current ->
        (current < List.length σ0)%nat ->
        is_updated_in_place (σ0 !! current) = false) ->
    extend set_iteration rest attributes σ = (σ', r) ->
    agrees σ0 σ'.
Proof.
  induction rest as [|[name v] rest IH]; intros attributes σ σ' r Hnd Ha Hfresh;
    simpl.
  - by intros [= <- _].
  - rewrite fmap_cons in Hnd. apply NoDup_cons in Hnd as [Hnotin Hnd].
    destruct (extend_one set_iteration name v attributes σ) as [σ2 r2] eqn:Hstep.
    destruct (extend_one_frame σ0 _ _ _ _ _ _ Ha
                (fun c => Hfresh name c ltac:(left)) Hstep) as [Ha2 Hkeep].
    destruct r2 as [attributes2|e]; [|by intros [= <- _]].
    apply IH; [done|done|].
    intros k current Hin Hk. rewrite (Hkeep _ eq_refl) in Hk.
    + apply (Hfresh k); [by right | done].
    + intros ->. done.
Qed.

Lemma dict_get_copy_inv (P : loc -> loc -> Prop) k d d' (l' : loc) :
  Forall2 (fun a b : string * loc => b.1 = a.1 /\ P a.2 b.2) d d' ->
  dict_get k d' = Some l' -> exists l, dict_get k d = Some l /\ P l l'.
Proof.
  induction 1 as [|[k1 l1] [k2 l2] d d' [Hk HP] _ IH]; simpl; [done|].
  simpl in *. subst k2. destruct (String.eqb k1 k); [|done].
  intros [= <-]. by exists l1.
Qed.

Lemma copy_and_extend_with_frame self attrs_to_extend σ :
  valid_refs σ (inst_dict self) -> NoDup attrs_to_extend.*1 ->
  agrees σ (copy_and_extend_with set_iteration post_init self attrs_to_extend σ).1.
Proof.
  intros Hvalid Hnd. unfold copy_and_extend_with.
  destruct (get_attributes self σ) as [attributes σ1] eqn:Hget.
  destruct (get_attributes_spec _ _ _ _ Hvalid Hget) as (memo & Hext & Hm & Hall).
  destruct (extend set_iteration attrs_to_extend attributes σ1) as [σ2 r] eqn:Hrun.
  assert (Ha : agrees σ σ2).
  { eapply extend_frame; [done|by apply extends_agrees| |done].
    intros k current _ Hk Hlt.
    destruct (dict_get_copy_inv _ _ _ _ _ Hall Hk) as (l & _ & [[-> Ho]|Hmemo]).
    - destruct Ho as (o & -> & Hr). by apply is_rebuilt_updated.
    - destruct Hm as [Hm _]. destruct (Hm _ _ Hmemo) as [Hge _]. lia. }
  by destruct r.
Qed.

(** *** What the copy holds *)

Lemma copy_and_extend_with_fields self attrs_to_extend σ σ' e' :
  valid_refs σ (inst_dict self) -> valid_refs σ attrs_to_extend ->
  NoDup attrs_to_extend.*1 ->
  no_shared_updated σ (inst_dict self) ->
  copy_and_extend_with set_iteration post_init self attrs_to_extend σ
  = (σ', Ok e') ->
  inst_class e' = inst_class self
  /\ forall name (l : loc),
      dict_get name (inst_dict self) = Some l ->
      exists l' : loc,
        dict_get name (inst_dict e') = Some l'
        /\ match dict_get name attrs_to_extend with
           | Some v => extended_with set_iteration (σ !! l) (σ !! v) (σ' !! l')
           | None => σ' !! l' = σ !! l
           end.
Proof.
  intros Hvalid Hext_valid Hnd Hns. unfold copy_and_extend_with.
  destruct (get_attributes self σ) as [attributes σ1] eqn:Hget.
  destruct (get_attributes_spec _ _ _ _ Hvalid Hget) as (memo & Hext & Hm & Hall).
  destruct (extend set_iteration attrs_to_extend attributes σ1)
    as [σ2 [attributes2|e]] eqn:Hrun; [|done].
  intros [= <- Hc]. unfold construct in Hc.
  destruct (forallb _ attributes2); [|done].
  destruct (post_init _ _) as [[]|]; [|done]. simpl in Hc. injection Hc as <-.
  split; [done|]. simpl.
  assert (Hdict : forall k (l : loc),
             dict_get k (inst_dict self) = Some l -> (l < List.length σ)%nat).
  { intros k l Hk. apply (Hvalid k). by apply dict_get_elem. }
  assert (Hinit : extend_inv set_iteration σ σ1 memo (inst_dict self) attributes σ1
                    (fun _ => None)).
  { split; [by apply extends_agrees|]. split; [done|]. split.
    - intros k l Hk. pose proof (dict_get_copy (copy_of σ memo) k _ _ Hall) as H.
      rewrite Hk in H. destruct H as (l' & Hl' & Hcopy). exists l'.
      split; [done|].
      destruct (copy_of_contents _ _ _ _ _ Hext Hm Hcopy) as (o & Ho & Ho').
      split; [by apply lookup_lt_Some in Ho'|]. split; [done|]. congruence.
    - intros k Hk _. pose proof (dict_get_copy (copy_of σ memo) k _ _ Hall) as H.
      by rewrite Hk in H. }
  pose proof (extend_loop_inv σ σ1 memo (inst_dict self) Hm
                (extends_length _ _ Hext) Hdict Hns _ _ _ _ _ _ Hnd Hext_valid
                (fun _ _ => eq_refl) Hinit Hrun) as (_ & _ & Hfields & _).
  intros name l Hname. destruct (Hfields name l Hname) as (l' & Hl' & _ & Hok).
  exists l'. split; [done|].
  destruct (dict_get name attrs_to_extend); [by destruct Hok | by destruct Hok].
Qed.


(** *** The fields of the entity that [copy_with] returns *)

Lemma dict_get_update k (kwargs d : list (string * loc)) :
  NoDup kwargs.*1 ->
  dict_get k (dict_update kwargs d)
  = match dict_get k kwargs with
    | Some v => Some v
    | None => dict_get k d
    end.
Proof.
  unfold dict_update. revert d.
  induction kwargs as [|[k0 v0] kwargs IH]; intros d Hnd; simpl; [done|].
  simpl in Hnd. apply NoDup_cons in Hnd as [Hnot Hnd].
  rewrite (IH _ Hnd). destruct (String.eqb_spec k0 k) as [->|Hne].
  - rewrite (dict_get_not_key _ _ Hnot). apply dict_get_set_eq.
  - destruct (dict_get k kwargs); [done|]. apply dict_get_set_ne. congruence.
Qed.

Lemma dict_set_fields k (v : loc) d :
  k ∈ d.*1 -> (dict_set k v d).*1 = d.*1.
Proof.
  induction d as [|[k0 v0] d IH]; simpl.
  - intros H. by apply elem_of_nil in H.
  - destruct (String.eqb_spec k0 k) as [->|Hne]; simpl; [done|].
    intros H. apply elem_of_cons in H as [->|H]; [done|]. f_equal. by apply IH.
Qed.

Lemma dict_update_fields kwargs d :
  (forall k, k ∈ kwargs.*1 -> k ∈ d.*1) -> (dict_update kwargs d).*1 = d.*1.
Proof.
  unfold dict_update. revert d.
  induction kwargs as [|[k0 v0] kwargs IH]; intros d Hin; simpl; [done|].
  assert (Hk : k0 ∈ d.*1) by (apply Hin; by left).
  rewrite IH; [by apply dict_set_fields|].
  intros k Hk'. rewrite (dict_set_fields _ _ _ Hk). apply Hin. by right.
Qed.

Lemma deepcopy_items_keys items memo σ :
  (deepcopy_items items memo σ).1.*1 = items.*1.
Proof.
  revert memo σ. induction items as [|[k l] items IH]; intros memo σ; simpl;
    [done|].
  destruct (deepcopy_ref l memo σ) as [[l1 memo1] σ1].
  specialize (IH memo1 σ1).
  destruct (deepcopy_items items memo1 σ1) as [rest' σ2]. simpl in *.
  f_equal. exact IH.
Qed.

Lemma contents_keys (σ : Store) (d : list (string * loc)) :
  ((fun kv : string * loc => (kv.1, σ !! kv.2)) <$> d).*1 = d.*1.
Proof. induction d as [|[k l] d IH]; simpl; [done|]. f_equal. exact IH. Qed.

Lemma copies_have_contents σ0 σ1 memo d d' :
  extends σ0 σ1 -> memo_inv σ0 σ1 memo ->
  Forall2 (fun a b : string * loc => b.1 = a.1 /\ copy_of σ0 memo a.2 b.2) d d' ->
  Forall2 (same_contents σ0 σ1) d d'.
Proof.
  intros Hext Hm. induction 1 as [|a b d d' [Hk Hc] _ IH]; constructor; [|done].
  split; [done|]. by eapply copy_of_contents.
Qed.

(** Two fields of the copy hold one object exactly when the fields of the
    original do. *)
Lemma copy_of_aliasing σ0 σ1 memo (l1 l2 l1' l2' : loc) :
  memo_inv σ0 σ1 memo ->
  copy_of σ0 memo l1 l1' -> copy_of σ0 memo l2 l2' ->
  l1' = l2' <-> l1 = l2.
Proof.
  intros [Hm Hinj] [[-> (o1 & Ho1 & Hr1)]|H1] [[-> (o2 & Ho2 & Hr2)]|H2].
  - done.
  - destruct (Hm _ _ H2) as (Hge & o & Ho & Hr & _). split.
    + intros ->. apply lookup_lt_Some in Ho1. lia.
    + intros ->. congruence.
  - destruct (Hm _ _ H1) as (Hge & o & Ho & Hr & _). split.
    + intros <-. apply lookup_lt_Some in Ho2. lia.
    + intros <-. congruence.
  - split.
    + intros <-. by eapply Hinj.
    + intros <-. congruence.
Qed.

(** X17.  [copy_with], called with keywords of distinct names on an entity
    whose fields hold objects of the store, when it returns an entity: the
    entity has the class of the original; a field named by a keyword holds
    the very object given, not a copy of it; any other field holds an object
    with the contents of the original's, which is the original's object
    itself when [deepcopy] does not rebuild it and an object allocated by
    the call otherwise; two fields that are not overridden hold one object
    in the copy exactly when they do in the original; and with no keyword
    at all the copy is equal to the original. *)
Theorem X17_copy_with_fields (self : Instance) (attrs_to_override : list (string * loc))
    (σ σ' : Store) (e' : Instance) :
  valid_refs σ (inst_dict self) ->
  NoDup attrs_to_override.*1 ->
  copy_with post_init self attrs_to_override σ = (σ', Ok e') ->
  inst_class e' = inst_class self
  /\ (forall name (l : loc),
        dict_get name (inst_dict self) = Some l ->
        exists l' : loc,
          dict_get name (inst_dict e') = Some l'
          /\ match dict_get name attrs_to_override with
             | Some v => l' = v
             | None =>
                 exists o, σ !! l = Some o /\ σ' !! l' = Some o
                   /\ if is_rebuilt o then (List.length σ <= l')%nat else l' = l
             end)
  /\ (forall n1 n2 (l1 l2 l1' l2' : loc),
        dict_get n1 attrs_to_override = None ->
        dict_get n2 attrs_to_override = None ->
        dict_get n1 (inst_dict self) = Some l1 ->
        dict_get n2 (inst_dict self) = Some l2 ->
        dict_get n1 (inst_dict e') = Some l1' ->
        dict_get n2 (inst_dict e') = Some l2' ->
        l1' = l2' <-> l1 = l2)
  /\ (attrs_to_override = [] -> entity_eq σ' self e' = true).
Proof.
  intros Hvalid Hnd. unfold copy_with.
  destruct (get_attributes self σ) as [attributes σ1] eqn:Hget.
  destruct (get_attributes_spec _ _ _ _ Hvalid Hget) as (memo & Hext & Hm & Hall).
  intros [= <- Hc]. unfold construct in Hc.
  destruct (forallb _ _); [|done].
  destruct (post_init _ _); [|done]. simpl in Hc. injection Hc as <-. simpl.
  split; [done|]. split; [|split].
  - intros name l Hl. rewrite (dict_get_update _ _ _ Hnd).
    destruct (dict_get name attrs_to_override) as [v|]; [by exists v|].
    pose proof (dict_get_copy _ name _ _ Hall) as Hcopy. rewrite Hl in Hcopy.
    destruct Hcopy as (l' & Hl' & Hc). exists l'. split; [done|].
    destruct Hc as [[-> (o & Ho & Hr)]|Hmemo].
    + exists o. rewrite Hr. split; [done|]. split; [|done].
      by eapply extends_lookup.
    + destruct Hm as [Hm _]. destruct (Hm _ _ Hmemo) as (Hge & o & Ho & Hr & Ho').
      exists o. by rewrite Hr.
  - intros n1 n2 l1 l2 l1' l2' Hn1 Hn2 H1 H2.
    rewrite !(dict_get_update _ _ _ Hnd), Hn1, Hn2. intros H1' H2'.
    pose proof (dict_get_copy _ n1 _ _ Hall) as Hc1. rewrite H1 in Hc1.
    pose proof (dict_get_copy _ n2 _ _ Hall) as Hc2. rewrite H2 in Hc2.
    destruct Hc1 as (? & E1 & Hc1). destruct Hc2 as (? & E2 & Hc2).
    rewrite H1' in E1. rewrite H2' in E2.
    injection E1 as <-. injection E2 as <-.
    by eapply copy_of_aliasing.
  - intros ->. unfold entity_eq. simpl. rewrite String.eqb_refl. simpl.
    apply (same_contents_fields_eq σ σ1); [done|].
    by eapply copies_have_contents.
Qed.

(** X18.  [copy_with] with keywords of distinct names raises [TypeError]
    as soon as one keyword is not a field of the entity, whatever
    [__post_init__] does; when every keyword is a field, the only exception
    it can raise is one raised by [__post_init__] of the class.  In both
    cases the objects that existed before the call are left as they
    were. *)
Theorem X18_copy_with_errors (self : Instance) (attrs_to_override : list (string * loc))
    (σ : Store) :
  NoDup attrs_to_override.*1 ->
  let outcome := copy_with post_init self attrs_to_override σ in
  ((exists k, k ∈ attrs_to_override.*1 /\ k ∉ (inst_dict self).*1) ->
   outcome.2 = Raise TypeError)
  /\ ((forall k, k ∈ attrs_to_override.*1 -> k ∈ (inst_dict self).*1) ->
      forall e, outcome.2 = Raise e ->
        exists args, args.*1 = (inst_dict self).*1
                     /\ post_init (inst_class self) args = Raise e)
  /\ extends σ outcome.1.
Proof.
  intros Hnd outcome. split; [|split].
  - intros (k & Hin & Hnot). subst outcome. unfold copy_with.
    destruct (get_attributes self σ) as [attributes σ1]. simpl.
    unfold construct.
    destruct (forallb _ _) eqn:Hall; [|done]. exfalso.
    apply list_elem_of_fmap in Hin as ([k0 v] & -> & Hin). simpl in Hnot.
    assert (Hget : dict_get k0 (dict_update attrs_to_override attributes) = Some v).
    { rewrite (dict_get_update _ _ _ Hnd).
      assert (Hk : dict_get k0 attrs_to_override = Some v); [|by rewrite Hk].
      clear -Hnd Hin. induction attrs_to_override as [|[k1 v1] rest IH];
        [by apply elem_of_nil in Hin|].
      simpl in *. apply NoDup_cons in Hnd as [Hnot Hnd].
      apply elem_of_cons in Hin as [[= -> ->]|Hin].
      - by rewrite String.eqb_refl.
      - destruct (String.eqb_spec k1 k0) as [->|Hne]; [|by apply IH].
        destruct Hnot. apply list_elem_of_fmap. by exists (k0, v). }
    apply dict_get_elem in Hget.
    rewrite forallb_forall in Hall.
    apply list_elem_of_In in Hget. specialize (Hall _ Hget). simpl in Hall.
    by apply bool_decide_eq_true in Hall.
  - intros Hfields e. subst outcome. unfold copy_with, get_attributes.
    pose proof (deepcopy_items_keys (inst_dict self) ∅ σ) as Hkeys.
    destruct (deepcopy_items _ _ _) as [attributes σ1]. simpl in *.
    assert (Hupd : (dict_update attrs_to_override attributes).*1
                   = (inst_dict self).*1).
    { rewrite <- Hkeys. apply dict_update_fields. intros k Hk.
      rewrite Hkeys. by apply Hfields. }
    unfold construct.
    destruct (forallb _ _) eqn:Hall.
    + destruct (post_init _ _) eqn:Hpost; [done|]. simpl. intros [= <-].
      eexists. split; [|exact Hpost]. by rewrite contents_keys.
    + intros _. exfalso.
      apply not_true_iff_false in Hall. apply Hall.
      apply forallb_forall. intros [k v] Hin. simpl.
      apply bool_decide_eq_true. rewrite <- Hupd.
      apply list_elem_of_fmap. exists (k, v). split; [done|].
      by apply list_elem_of_In.
  - subst outcome. apply copy_with_extends.
Qed.

End EntityFacts.

(** * Examples *)

(** ** Label suffixes *)

(** C1 on the method [m_go_twice], lowered once the phases are open: the two
    occurrences of [go(L0, L1)] give two different subtasks. *)
Lemma C1_labels_keep_occurrences_apart_witness :
  l_1 <> l_2
  /\ exists signature constraints conditions task_sig subtasks subtasks_constraints,
      lower_method length_hash int_hash float_hash none_hash sum_hash
        insertion_order insertion_order
        (open_phases length_hash sum_hash accept_all (new_problem "problem")).1
        m_go_twice
      = Ok (BAddMethod signature constraints conditions task_sig subtasks
              subtasks_constraints)
      /\ subtasks !! 0%nat <> subtasks !! 1%nat.
Proof.
  assert (Hne : l_1 <> l_2) by discriminate.
  split; [exact Hne|].
  do 6 eexists. split; [vm_compute; reflexivity|].
  edestruct (proj1 (C1_labels_keep_occurrences_apart
                      length_hash int_hash float_hash none_hash sum_hash
                      insertion_order insertion_order
                      (open_phases length_hash sum_hash accept_all
                         (new_problem "problem")).1
                      0%nat 1%nat go_loc0_loc1 l_1 l_2 Hne) m_go_twice)
    as (base & vs & rs & ve & re & _ & _ & Hneq);
    [vm_compute; reflexivity | reflexivity | reflexivity | exact Hneq].
Defined.

(** ** Phase guards *)

(** C2, as stated, fails: on a fresh problem [create_context] is called
    before [create_symbol_table]; whatever the builder answers, no ordering
    error is raised, and when the builder accepts the call the context is
    marked as created. *)
Lemma C2_create_context_before_symbol_table :
  symbol_table_created (new_problem "problem") = false
  /\ (forall accepts,
         no_ordering_error (create_context accepts (new_problem "problem")).2)
  /\ create_context accept_all (new_problem "problem")
     = (with_context_created true
          (with_problem [BCreateContext] (new_problem "problem")),
        Ok tt).
Proof.
  split; [reflexivity|]. split; [|reflexivity].
  intros accepts e. cbv.
  destruct (accepts [] BCreateContext); [discriminate|]. by intros [= <-].
Qed.

(** C2 on [speak]: once its symbol is declared, with the symbol table and
    then the context created, [add_action] raises no ordering error; with
    the symbol table only, it raises [UncreatedContextError]. *)
Lemma C2_phase_guards_witness :
  let declared :=
    (declare_symbols length_hash sum_hash accept_all (new_problem "problem")).1 in
  let tabled := (create_symbol_table accept_all declared).1 in
  set_in (symbol_key length_hash sum_hash) (pt_symbol p_speak_at)
    (symbols declared) = true
  /\ no_ordering_error
       (add_action length_hash int_hash float_hash none_hash sum_hash
          insertion_order accept_all p_speak_at
          (open_phases length_hash sum_hash accept_all (new_problem "problem")).1).2
  /\ context_created tabled = false
  /\ add_action length_hash int_hash float_hash none_hash sum_hash
       insertion_order accept_all p_speak_at tabled
     = (tabled, Raise UncreatedContextError).
Proof.
  intros declared tabled.
  pose proof (C2_phase_guards length_hash int_hash float_hash none_hash
                sum_hash insertion_order accept_all)
    as (_ & Hbefore & _ & Hdocumented).
  split; [vm_compute; reflexivity|]. split; [|split].
  - eapply (Hdocumented declared _ _ _ p_speak_at);
      [vm_compute; reflexivity | vm_compute; reflexivity
      | vm_compute; reflexivity | vm_compute; reflexivity].
  - vm_compute; reflexivity.
  - rewrite (Hbefore tabled p_speak_at);
      [reflexivity | vm_compute; reflexivity | vm_compute; reflexivity].
Defined.

(** ** The dirac effect factory *)

(** C3 on [at(?r, ?loc)], which is boolean, and on an integer state
    variable. *)
Lemma C3_dirac_witness :
  let back (t : HtnTimepoint) :=
    mkTimepoint (tp_class t) (tp_value t) (tp_tpe t)
      (PyFloat.add (tp_delay t) (PyFloat.neg HTN_EPSILON)) in
  let fuel := mkStateVariable (mkSymbol KStateVariableSymbol "fuel") [v_robot]
                HTN_INTEGER in
  type_eq (sv_tpe sv_at_robot_location) HTN_BOOLEAN = true
  /\ dirac sv_at_robot_location HTN_TRUE ts_te
     = Ok (mkEffect sv_at_robot_location HTN_TRUE
             (mkInterval (back v_time_start) (back v_time_end)),
           mkEffect sv_at_robot_location HTN_FALSE ts_te)
  /\ type_eq (sv_tpe fuel) HTN_BOOLEAN = false
  /\ dirac fuel HTN_TRUE ts_te = Raise TypeError.
Proof.
  intros back fuel.
  split; [reflexivity|]. split; [|split; [reflexivity|]].
  - rewrite (proj1 (proj1 C3_dirac sv_at_robot_location HTN_TRUE ts_te) eq_refl).
    reflexivity.
  - exact (proj2 (proj1 C3_dirac fuel HTN_TRUE ts_te) eq_refl).
Defined.

(** ** Registration *)


(** ** The language of a domain *)



(** ** Minimum duration *)

(** C7 on [speak], which has one effect and declares no constraint: the
    builder receives the one synthesized constraint. *)
Lemma C7_min_duration_injection_witness :
  let ready :=
    (open_phases length_hash sum_hash accept_all (new_problem "problem")).1 in
  let lowered :=
    BAddAction
      ["speak"; "?r - robot"; "?loc - location"; "?ts + 0 - __timepoint__";
       "?te + 0 - __timepoint__"]
      [["?te + 0 - __timepoint__"; ">="; "?ts + 1 - __timepoint__"]]
      []
      [["at"; "?r - robot"; "?loc - location"; "True";
        "?ts + 0 - __timepoint__"; "?te + 0 - __timepoint__"]] in
  lower_action length_hash int_hash float_hash none_hash sum_hash
    insertion_order ready p_speak_at = Ok lowered
  /\ pt_effects p_speak_at <> []
  /\ (exists declared e s,
         rmap get_constraint (pt_constraints p_speak_at) = Ok declared
         /\ [["?te + 0 - __timepoint__"; ">="; "?ts + 1 - __timepoint__"]]
            = declared ++ [[e; ">="; s]])
  /\ set_in (primitive_task_key length_hash int_hash float_hash none_hash
               sum_hash) p_speak_at (actions ready) = false
  /\ exists self' call,
       add_action length_hash int_hash float_hash none_hash sum_hash
         insertion_order accept_all p_speak_at ready = (self', Ok tt)
       /\ problem self' = problem ready ++ [call].
Proof.
  intros ready lowered.
  pose proof (C7_min_duration_injection length_hash int_hash float_hash
                none_hash sum_hash insertion_order accept_all ready p_speak_at)
    as (Hlowered & _ & Hadded).
  assert (Hlow : lower_action length_hash int_hash float_hash none_hash sum_hash
                   insertion_order ready p_speak_at = Ok lowered)
    by (vm_compute; reflexivity).
  assert (Heffects : pt_effects p_speak_at <> []) by discriminate.
  assert (Hnew : set_in (primitive_task_key length_hash int_hash float_hash
                           none_hash sum_hash) p_speak_at (actions ready) = false)
    by (vm_compute; reflexivity).
  split; [exact Hlow|]. split; [exact Heffects|]. split; [|split; [exact Hnew|]].
  - destruct (Hlowered _ _ _ _ Hlow) as (declared & Hdeclared & Hsome & _).
    destruct (Hsome Heffects) as (e & s & _ & _ & Hcs).
    exists declared, e, s. split; [exact Hdeclared | exact Hcs].
  - eexists. 
    assert (Hrun : add_action length_hash int_hash float_hash none_hash sum_hash
                     insertion_order accept_all p_speak_at ready
                   = ((add_action length_hash int_hash float_hash none_hash
                         sum_hash insertion_order accept_all p_speak_at ready).1,
                      Ok tt))
      by (vm_compute; reflexivity).
    destruct (Hadded _ Hnew Hrun) as (call & _ & Hcall).
    exists call. split; [exact Hrun | exact Hcall].
Defined.

(** ** Copies of entities *)

Lemma valid_refs_check (σ : Entity.Store) (d : list (string * Entity.loc)) :
  forallb (fun kv => Nat.ltb kv.2 (List.length σ)) d = true ->
  Entity.valid_refs σ d.
Proof.
  intros Hall k l Hkl. rewrite forallb_forall in Hall.
  apply list_elem_of_In, Hall in Hkl. by apply Nat.ltb_lt in Hkl.
Qed.

Lemma no_shared_updated_check (σ : Entity.Store) (d : list (string * Entity.loc)) :
  forallb (fun a =>
             forallb (fun b =>
                        String.eqb a.1 b.1 || negb (Nat.eqb a.2 b.2)
                        || negb (Entity.is_updated_in_place (σ !! a.2))) d) d
  = true ->
  Entity.no_shared_updated σ d.
Proof.
  intros Hall k1 k2 l Hne H1 H2. rewrite forallb_forall in Hall.
  apply dict_get_elem, list_elem_of_In, Hall in H1.
  rewrite forallb_forall in H1.
  apply dict_get_elem, list_elem_of_In, H1 in H2. simpl in H2.
  apply orb_true_iff in H2 as [H2|H2]; [|by apply negb_true_iff in H2].
  apply orb_true_iff in H2 as [H2|H2].
  - by apply String.eqb_eq in H2.
  - by rewrite Nat.eqb_refl in H2.
Qed.



(** ** Timepoint arithmetic and rendering *)

(** C9 on [?ts], to which [0.1] then [0.2] are added, and on [?ts + 0.5],
    rendered with the delay [5]. *)
Lemma C9_timepoint_addition_and_rendering_witness :
  let a := NFloat (tenths 1) in
  let b := NFloat (tenths 2) in
  let s := NFloat (PyFloat.add (tenths 1) (tenths 2)) in
  let half := mkTimepoint KVariableTimepoint (VStr "?ts") HTN_TIMEPOINT (tenths 5) in
  to_float a = Ok (tenths 1)
  /\ to_float b = Ok (tenths 2)
  /\ num_add a b = Ok s
  /\ to_float s = Ok (PyFloat.add (tenths 1) (tenths 2))
  /\ (exists x y,
         (ta ← timepoint_add v_time_start a; timepoint_add ta b) = Ok x
         /\ timepoint_add v_time_start s = Ok y
         /\ py_eq (TP x) (TP y) = true)
  /\ PyFloat.to_int (PyFloat.mul (tp_delay half) (PyFloat.of_Z HTN_TIME_SCALE))
     = Ok 5
  /\ get_timepoint half (Some l_1) = Ok "?tsl1 + 5 - __timepoint__".
Proof.
  intros a b s half.
  destruct C9_timepoint_addition_and_rendering as (Hassoc & _ & Hrender & _).
  assert (Hn : PyFloat.to_int
                 (PyFloat.mul (tp_delay half) (PyFloat.of_Z HTN_TIME_SCALE))
               = Ok 5) by (vm_compute; reflexivity).
  split; [reflexivity|]. split; [reflexivity|]. split; [reflexivity|].
  split; [reflexivity|]. split; [|split; [exact Hn|]].
  - destruct (Hassoc v_time_start a b s _ _ _ eq_refl eq_refl eq_refl eq_refl)
      as (Hleft & Hright & Heq).
    eexists _, _. split; [exact Hleft|]. split; [exact Hright|].
    rewrite Heq. vm_compute; reflexivity.
  - rewrite (Hrender half (Some l_1) 5 Hn). vm_compute; reflexivity.
Defined.

(** ** Variables, constants and timepoints *)


(** ** Further examples *)

(** X1 on [robot], whose parent is [locatable]. *)
Lemma X1_type_equality_witness :
  let robot := mkHtnType "robot" (Some (mkHtnType "locatable" None)) in
  type_eq t_robot robot = true
  /\ type_eq robot t_robot = true
  /\ type_eq t_robot t_robot = true
  /\ type_chain t_robot = type_chain robot.
Proof.
  intros robot.
  pose proof X1_type_equality as (Hiff & _ & _ & Htrans).
  assert (H : type_eq t_robot robot = true) by reflexivity.
  assert (H' : type_eq robot t_robot = true) by reflexivity.
  split; [exact H|]. split; [exact H'|].
  split; [exact (Htrans _ _ _ H H') | exact (proj1 (Hiff _ _) H)].
Defined.

(** X2 on the variable [?r] and the constant [L0]. *)
Lemma X2_typed_object_equality_symmetric_witness :
  class_of v_robot <> CTimepoint
  /\ class_of o_loc0 <> CTimepoint
  /\ py_eq v_robot o_loc0 = py_eq o_loc0 v_robot.
Proof.
  assert (Hx : class_of v_robot <> CTimepoint) by (vm_compute; discriminate).
  assert (Hy : class_of o_loc0 <> CTimepoint) by (vm_compute; discriminate).
  split; [exact Hx|]. split; [exact Hy|].
  exact (X2_typed_object_equality_symmetric v_robot o_loc0 Hx Hy).
Defined.

(** X3 on [at_start] called with the counter at 0 and [over_all] called
    next: the timepoints [__s__0] and [__s__2] differ. *)
Lemma X3_factory_timepoints_are_fresh_witness :
  let first := (HtnTemporalIntervalFactory.at_start 0).1 in
  let second := (HtnTemporalIntervalFactory.over_all 2).1 in
  0 + 2 <= 2
  /\ (HtnTemporalIntervalFactory.at_start 0).2 = 0 + 2
  /\ py_eq (TP (iv_start first)) (TP (iv_end first)) = false
  /\ py_eq (TP (iv_start first)) (TP (iv_start second)) = false.
Proof.
  intros first second.
  assert (Hle : 0 + 2 <= 2) by lia.
  assert (H1 : HtnTemporalIntervalFactory.at_start
               ∈ [HtnTemporalIntervalFactory.default;
                  HtnTemporalIntervalFactory.at_start;
                  HtnTemporalIntervalFactory.at_end;
                  HtnTemporalIntervalFactory.over_all])
    by (apply list_elem_of_further, list_elem_of_here).
  assert (H2 : HtnTemporalIntervalFactory.over_all
               ∈ [HtnTemporalIntervalFactory.default;
                  HtnTemporalIntervalFactory.at_start;
                  HtnTemporalIntervalFactory.at_end;
                  HtnTemporalIntervalFactory.over_all])
    by (do 3 apply list_elem_of_further; apply list_elem_of_here).
  destruct (X3_factory_timepoints_are_fresh _ _ H1 H2 0 2 Hle)
    as (Hcounter & Hapart & Hfresh).
  split; [exact Hle|]. split; [exact Hcounter|]. split; [exact Hapart|].
  apply (Hfresh (iv_start first) (iv_start second));
    apply list_elem_of_here.
Defined.

(** X4 on intervals shifted by [HTN_EPSILON]. *)
Lemma X4_factory_intervals_print_as_keywords_witness :
  let float_str := fun _ : float => "0.0" in
  to_float (NFloat HTN_EPSILON) = Ok HTN_EPSILON
  /\ interval_str float_str (HtnTemporalIntervalFactory.at_end 4).1
     = Ok "at-end "
  /\ (i ← interval_add (HtnTemporalIntervalFactory.over_all 4).1
            (NFloat HTN_EPSILON);
      interval_str float_str i) = Ok "over-all ".
Proof.
  intros float_str.
  assert (Hf : to_float (NFloat HTN_EPSILON) = Ok HTN_EPSILON) by reflexivity.
  destruct (X4_factory_intervals_print_as_keywords float_str 4
              (NFloat HTN_EPSILON) HTN_EPSILON Hf)
    as (_ & _ & [Hend _] & [_ Hover]).
  split; [exact Hf|]. split; [exact Hend | exact Hover].
Defined.

(** X5 on the boolean state variable [at(?r, ?loc)]. *)
Lemma X5_dirac_at_start_and_at_end_witness :
  type_eq (sv_tpe sv_at_robot_location) HTN_BOOLEAN = true
  /\ (dirac_at_start sv_at_robot_location HTN_TRUE 0).2 = 0 + 2
  /\ (dirac_at_end sv_at_robot_location HTN_TRUE 0).2 = 0 + 2
  /\ (pair ← (dirac_at_end sv_at_robot_location HTN_TRUE 0).1;
      Ok (eff_value pair.1, eff_value pair.2)) = Ok (HTN_TRUE, HTN_FALSE).
Proof.
  assert (Hb : type_eq (sv_tpe sv_at_robot_location) HTN_BOOLEAN = true)
    by reflexivity.
  destruct (proj1 (X5_dirac_at_start_and_at_end sv_at_robot_location HTN_TRUE 0)
              Hb) as [Hstart Hend].
  split; [exact Hb|]. rewrite Hstart, Hend. repeat split.
Defined.

(** X6 on [speak], which has no explicit parameter and one effect on
    [at(?r, ?loc)]. *)
Lemma X6_all_params_of_primitive_task_witness :
  let all_params :=
    pt_all_params length_hash int_hash float_hash none_hash sum_hash
      insertion_order p_speak_at in
  sv_at_robot_location ∈ insertion_order (pt_state_variables length_hash
                                            int_hash float_hash none_hash
                                            sum_hash p_speak_at)
  /\ v_robot ∈ sv_params sv_at_robot_location
  /\ list_contains py_eq v_robot all_params = true.
Proof.
  intros all_params.
  assert (Hsv : sv_at_robot_location
                ∈ insertion_order (pt_state_variables length_hash int_hash
                                     float_hash none_hash sum_hash p_speak_at))
    by (vm_compute; apply list_elem_of_here).
  assert (Hx : v_robot ∈ sv_params sv_at_robot_location)
    by (vm_compute; apply list_elem_of_here).
  destruct (X6_all_params_of_primitive_task length_hash int_hash float_hash
              none_hash sum_hash insertion_order p_speak_at)
    as (hidden & _ & _ & Hall).
  split; [exact Hsv|]. split; [exact Hx|]. exact (Hall _ _ Hsv Hx).
Defined.

(** X8 on the language of a domain with [speak] and [m-go], sets being
    iterated in insertion order. *)
Lemma X8_merge_is_idempotent_witness :
  let d :=
    domain_add_method length_hash int_hash float_hash none_hash sum_hash
      insertion_order
      (domain_add_task length_hash int_hash float_hash none_hash sum_hash
         insertion_order empty_domain (Primitive p_speak_at))
      m_go_twice in
  (forall (s : list HtnSymbol) (x : HtnSymbol), x ∈ insertion_order s -> x ∈ s)
  /\ language_merge length_hash int_hash float_hash none_hash sum_hash
       insertion_order insertion_order insertion_order (L d) (L d) = L d.
Proof.
  intros d.
  assert (Hiter : forall (A : Type) (s : list A) (x : A),
             x ∈ insertion_order s -> x ∈ s) by (intros A s x Hx; exact Hx).
  pose proof (X8_merge_is_idempotent length_hash int_hash float_hash none_hash
                sum_hash insertion_order insertion_order insertion_order
                insertion_order insertion_order insertion_order)
    as (_ & _ & Hself).
  split; [exact (Hiter _)|].
  exact (Hself (Hiter _) (Hiter _) (Hiter _) (L d)).
Defined.

(** X10 on [robot], added to a fresh pipeline: [locatable] is registered
    with it. *)
Lemma X10_add_type_registers_ancestors_witness :
  let self' :=
    (add_type length_hash none_hash sum_hash accept_all t_robot
       (new_problem "problem")).1 in
  types_closed (new_problem "problem")
  /\ add_type length_hash none_hash sum_hash accept_all t_robot
       (new_problem "problem") = (self', Ok tt)
  /\ t_locatable ∈ type_ancestry t_robot
  /\ types_closed self'
  /\ set_in (type_key length_hash none_hash sum_hash) t_locatable (types self')
     = true.
Proof.
  intros self'.
  assert (Hclosed : types_closed (new_problem "problem")).
  { intros t parent Hin. simpl in Hin. by apply elem_of_nil in Hin. }
  assert (Hrun : add_type length_hash none_hash sum_hash accept_all t_robot
                   (new_problem "problem") = (self', Ok tt))
    by (vm_compute; reflexivity).
  assert (Hanc : t_locatable ∈ type_ancestry t_robot)
    by (vm_compute; apply list_elem_of_further, list_elem_of_here).
  destruct (X10_add_type_registers_ancestors length_hash int_hash none_hash
              sum_hash accept_all t_robot _ _ Hclosed Hrun)
    as (Hclosed' & _ & Hall).
  split; [exact Hclosed|]. split; [exact Hrun|]. split; [exact Hanc|].
  split; [exact Hclosed' | exact (Hall _ Hanc)].
Defined.

(** X11 on a state variable of type [location], added once the phases are
    open: the call raises [NotImplementedError], and the same call made
    again returns. *)
Lemma X11_failed_registration_sticks_witness :
  let self :=
    (open_phases length_hash sum_hash accept_all (new_problem "problem")).1 in
  let sv := mkStateVariable s_sv_at [v_robot] t_location in
  let self' :=
    (add_state_variable length_hash int_hash float_hash none_hash sum_hash
       accept_all sv self).1 in
  check_symbol length_hash sum_hash self (sv_symbol sv) = Ok tt
  /\ add_state_variable length_hash int_hash float_hash none_hash sum_hash
       accept_all sv self
     = (self', Raise NotImplementedError)
  /\ add_state_variable length_hash int_hash float_hash none_hash sum_hash
       accept_all sv self'
     = (self', Ok tt)
  /\ problem self' = problem self.
Proof.
  intros self sv self'.
  assert (Hsym : check_symbol length_hash sum_hash self (sv_symbol sv) = Ok tt)
    by (vm_compute; reflexivity).
  assert (Hrun : add_state_variable length_hash int_hash float_hash none_hash
                   sum_hash accept_all sv self
                 = (self', Raise NotImplementedError))
    by (vm_compute; reflexivity).
  pose proof (X11_failed_registration_sticks length_hash int_hash float_hash
                none_hash sum_hash insertion_order insertion_order accept_all)
    as (Hsv & _ & _ & _ & Hother).
  split; [exact Hsym|]. split; [exact Hrun|].
  split; [exact (Hsv _ _ _ _ Hsym Hrun)|].
  exact (proj1 (proj2 (Hother sv self self' _ Hsym eq_refl eq_refl eq_refl Hrun))).
Defined.

(** X13 on [at(?r, ?loc)], added to a fresh pipeline. *)
Lemma X13_guards_of_the_pipeline_witness :
  let self := new_problem "problem" in
  set_in (state_variable_key length_hash int_hash float_hash none_hash sum_hash)
    sv_at_robot_location (state_variables self) = false
  /\ symbol_table_created self = false
  /\ add_state_variable length_hash int_hash float_hash none_hash sum_hash
       accept_all sv_at_robot_location self
     = (self, Raise UncreatedSymbolTableError).
Proof.
  intros self.
  assert (Hnew : set_in (state_variable_key length_hash int_hash float_hash
                           none_hash sum_hash)
                   sv_at_robot_location (state_variables self) = false)
    by reflexivity.
  pose proof (X13_guards_of_the_pipeline length_hash int_hash float_hash
                none_hash sum_hash insertion_order insertion_order accept_all)
    as H.
  cbv zeta in H. destruct H as (_ & _ & Hsv & _).
  split; [exact Hnew|]. split; [reflexivity|].
  exact (Hsv sv_at_robot_location self UncreatedSymbolTableError Hnew eq_refl).
Defined.

(** X14 on a problem whose domain has [speak] and [m-go], with no goal and
    one initial effect. *)
Lemma X14_from_htn_keeps_the_order_witness :
  let d :=
    domain_add_method length_hash int_hash float_hash none_hash sum_hash
      insertion_order
      (domain_add_task length_hash int_hash float_hash none_hash sum_hash
         insertion_order empty_domain (Primitive p_speak_at))
      m_go_twice in
  let htn_problem :=
    mkProblem d [mkEffect sv_at_robot_location HTN_TRUE ts_te] None "problem" in
  let converted :=
    from_htn length_hash int_hash float_hash none_hash sum_hash insertion_order
      insertion_order accept_all insertion_order insertion_order
      insertion_order insertion_order htn_problem in
  converted.2 = None
  /\ name converted.1 = "problem"
  /\ log_phase Declaring (problem converted.1) = Some Filling
  /\ symbol_table_created converted.1 = true
  /\ context_created converted.1 = true.
Proof.
  intros d htn_problem converted.
  assert (Hok : converted.2 = None) by (vm_compute; reflexivity).
  destruct (X14_from_htn_keeps_the_order length_hash int_hash float_hash
              none_hash sum_hash insertion_order insertion_order accept_all
              insertion_order insertion_order insertion_order insertion_order
              htn_problem)
    as (Hname & _ & (ph & Hlog & Hph) & Hflags).
  split; [exact Hok|]. split; [exact Hname|].
  split; [rewrite <- (Hph Hok); exact Hlog | exact (Hflags Hok)].
Defined.

(** X15 on the same problem, sets being iterated in insertion order. *)
Lemma X15_from_htn_finds_every_symbol_witness :
  let d :=
    domain_add_method length_hash int_hash float_hash none_hash sum_hash
      insertion_order
      (domain_add_task length_hash int_hash float_hash none_hash sum_hash
         insertion_order empty_domain (Primitive p_speak_at))
      m_go_twice in
  let htn_problem :=
    mkProblem d [mkEffect sv_at_robot_location HTN_TRUE ts_te] None "problem" in
  (forall (s : list HtnSymbol) (x : HtnSymbol), x ∈ insertion_order s -> x ∈ s)
  /\ (from_htn length_hash int_hash float_hash none_hash sum_hash
        insertion_order insertion_order accept_all insertion_order
        insertion_order insertion_order insertion_order htn_problem).2
     <> Some (KeyError s_sv_at).
Proof.
  intros d htn_problem.
  assert (Hiter : forall (s : list HtnSymbol) (x : HtnSymbol),
             x ∈ insertion_order s -> x ∈ s) by (intros s x Hx; exact Hx).
  split; [exact Hiter|].
  exact (X15_from_htn_finds_every_symbol length_hash int_hash float_hash
           none_hash sum_hash insertion_order insertion_order accept_all
           insertion_order insertion_order insertion_order insertion_order
           Hiter htn_problem s_sv_at).
Defined.

(** X16 on the same problem: the action, the method and the initial effect
    are registered. *)
Lemma X16_from_htn_registers_everything_witness :
  let d :=
    domain_add_method length_hash int_hash float_hash none_hash sum_hash
      insertion_order
      (domain_add_task length_hash int_hash float_hash none_hash sum_hash
         insertion_order empty_domain (Primitive p_speak_at))
      m_go_twice in
  let initially := mkEffect sv_at_robot_location HTN_TRUE ts_te in
  let htn_problem := mkProblem d [initially] None "problem" in
  let converted :=
    from_htn length_hash int_hash float_hash none_hash sum_hash insertion_order
      insertion_order accept_all insertion_order insertion_order
      insertion_order insertion_order htn_problem in
  converted.2 = None
  /\ set_in (primitive_task_key length_hash int_hash float_hash none_hash
               sum_hash) p_speak_at (actions converted.1) = true
  /\ set_in (method_key length_hash int_hash float_hash none_hash sum_hash)
       m_go_twice (methods converted.1) = true
  /\ set_in (effect_key length_hash int_hash float_hash none_hash sum_hash)
       initially (initial_effects converted.1) = true.
Proof.
  intros d initially htn_problem converted.
  assert (Hok : converted.2 = None) by (vm_compute; reflexivity).
  pose proof (X16_from_htn_registers_everything length_hash int_hash float_hash
                none_hash sum_hash insertion_order insertion_order accept_all
                insertion_order insertion_order insertion_order insertion_order
                htn_problem Hok) as H.
  cbv zeta in H.
  destruct H as (_ & _ & _ & _ & Hmethods & _ & Hactions & Heffects).
  split; [exact Hok|]. split; [|split].
  - apply Hactions. vm_compute. apply list_elem_of_here.
  - apply Hmethods. vm_compute. apply list_elem_of_here.
  - apply Heffects. vm_compute. apply list_elem_of_here.
Defined.

(** X17 on the mock entity of the test suite, copied with
    [set_attr={"bar"}]: the copy holds the set given, and a new list with
    the contents of the original's. *)
Lemma X17_copy_with_fields_witness :
  Entity.valid_refs Entity.mock_store (Entity.inst_dict Entity.mock_entity)
  /\ NoDup Entity.mock_override.*1
  /\ exists σ' e' l',
      Entity.copy_with Entity.no_post_init Entity.mock_entity
        Entity.mock_override Entity.mock_store = (σ', Ok e')
      /\ Entity.dict_get "set_attr" (Entity.inst_dict e') = Some 6%nat
      /\ Entity.dict_get "list_attr" (Entity.inst_dict e') = Some l'
      /\ (List.length Entity.mock_store <= l')%nat
      /\ σ' !! l' = Entity.mock_store !! 4%nat.
Proof.
  assert (Hself : Entity.valid_refs Entity.mock_store
                    (Entity.inst_dict Entity.mock_entity))
    by (apply valid_refs_check; vm_compute; reflexivity).
  assert (Hnd : NoDup Entity.mock_override.*1)
    by (apply (bool_decide_unpack _); vm_compute; exact I).
  assert (Hrun : exists e',
             Entity.copy_with Entity.no_post_init Entity.mock_entity
               Entity.mock_override Entity.mock_store
             = ((Entity.copy_with Entity.no_post_init Entity.mock_entity
                   Entity.mock_override Entity.mock_store).1,
                Ok e'))
    by (eexists; vm_compute; reflexivity).
  destruct Hrun as [e' Hrun].
  destruct (X17_copy_with_fields Entity.no_post_init _ _ _ _ _ Hself Hnd Hrun)
    as (_ & Hfields & _).
  destruct (Hfields "set_attr" 0%nat eq_refl) as (l0 & Hl0 & Hgiven).
  destruct (Hfields "list_attr" 4%nat eq_refl) as (l' & Hl' & Hcopy).
  simpl in Hgiven, Hcopy. destruct Hcopy as (o & Ho & Ho' & Hfresh).
  injection Ho as <-. simpl in Hfresh.
  split; [exact Hself|]. split; [exact Hnd|].
  eexists _, e', l'. split; [exact Hrun|].
  split; [rewrite Hl0, Hgiven; reflexivity|].
  split; [exact Hl'|]. split; [exact Hfresh | exact Ho'].
Defined.

(** X18 on the mock entity, copied with a keyword that is not one of its
    fields. *)
Lemma X18_copy_with_errors_witness :
  NoDup (fst <$> [("unknown", 6%nat)])
  /\ ("unknown" ∉ (Entity.inst_dict Entity.mock_entity).*1)
  /\ (Entity.copy_with Entity.no_post_init Entity.mock_entity
        [("unknown", 6%nat)] Entity.mock_store).2 = Raise TypeError.
Proof.
  assert (Hnd : NoDup (fst <$> [("unknown", 6%nat)]))
    by (apply (bool_decide_unpack _); vm_compute; exact I).
  assert (Hnot : "unknown" ∉ (Entity.inst_dict Entity.mock_entity).*1)
    by (apply (bool_decide_unpack _); vm_compute; exact I).
  destruct (X18_copy_with_errors Entity.no_post_init Entity.mock_entity
              [("unknown", 6%nat)] Entity.mock_store Hnd) as (Hunknown & _).
  split; [exact Hnd|]. split; [exact Hnot|].
  apply Hunknown. exists "unknown". split; [apply list_elem_of_here | exact Hnot].
Defined.

(** X19 on [m-go], whose task has the parameters [?r] and [?loc] and whose
    subtasks have [L0] and [L1], sets being iterated in insertion order. *)
Lemma X19_all_params_of_method_witness :
  let all_params :=
    m_all_params length_hash int_hash float_hash none_hash sum_hash
      insertion_order insertion_order m_go_twice in
  (forall (s : list HtnTypedObject) (x : HtnTypedObject),
      x ∈ insertion_order s <-> x ∈ s)
  /\ v_robot ∈ ct_params (m_task m_go_twice)
  /\ list_contains py_eq v_robot all_params = true
  /\ go_loc0_loc1 ∈ tn_tasks (m_task_network m_go_twice)
  /\ list_contains py_eq o_loc1 all_params = true.
Proof.
  intros all_params.
  assert (Hiter : forall (s : list HtnTypedObject) (x : HtnTypedObject),
             x ∈ insertion_order s <-> x ∈ s) by (intros s x; reflexivity).
  assert (Hown : v_robot ∈ ct_params (m_task m_go_twice))
    by (vm_compute; apply list_elem_of_here).
  assert (Htask : go_loc0_loc1 ∈ tn_tasks (m_task_network m_go_twice))
    by (vm_compute; apply list_elem_of_here).
  assert (Hparam : o_loc1 ∈ task_all_params length_hash int_hash float_hash
                            none_hash sum_hash insertion_order go_loc0_loc1)
    by (vm_compute; apply list_elem_of_further, list_elem_of_here).
  pose proof (X19_all_params_of_method length_hash int_hash float_hash
                none_hash sum_hash insertion_order insertion_order m_go_twice
                Hiter) as H.
  cbv zeta in H. destruct H as (Hparams & Htasks & _).
  split; [exact Hiter|]. split; [exact Hown|].
  split; [exact (Hparams _ Hown)|]. split; [exact Htask|].
  exact (Htasks _ _ Htask Hparam).
Defined.
